(** * Structural cloning: [shallowCopy] and [deepCopy]

    A shallow embedding of the two functions of [深拷贝和浅拷贝.js] over an
    explicit object store.  JavaScript objects have identity and are
    mutated in place, so the store is a list of objects indexed by
    address, and the [WeakMap] that [deepCopy] threads through its
    recursive calls is a finite map from addresses to values kept next to
    the store.  Both functions run in a small state-and-outcome monad;
    [deepCopy] recurses on a fuel counter that bounds the depth of the
    call stack.

    Scope of the object model: own data properties only (no accessors, no
    proxies, no prototype chain beyond the inherited [__proto__] setter),
    function values are opaque, numbers are represented by integers, and
    the 2^32 bound on array lengths is not represented (lists are
    unbounded).  The enumerable attribute of a property is recorded;
    structural equality compares keys and values, not attributes.

    The file has three parts: the program, the vocabulary in which its
    properties are stated, and the properties themselves, those numbered
    C1 to C10 first and further ones, numbered X1 to X23, after them. *)

From Stdlib Require Import ZArith String List Lia.
From stdpp Require Import base option list gmap strings.

Local Open Scope nat_scope.

(** * The program *)

(** ** Values, keys and objects *)

(** Addresses are positions in the store. *)
Abbreviation addr := nat (only parsing).

(** Everything for which [typeof] is not ["object"], and [null]. *)
Inductive prim :=
| PUndefined
| PNull
| PBool (b : bool)
| PNumber (n : Z)
| PString (s : string)
| PSymbol (id : nat)
| PFunction (id : nat).

Inductive value :=
| VPrim (p : prim)
| VRef (a : addr).

(** Property keys.  [KIdx i] is the canonical numeric string of [i];
    [KStr] holds the other strings. *)
Inductive key :=
| KIdx (i : nat)
| KStr (s : string)
| KSym (id : nat).

#[global] Instance prim_eq_dec : EqDecision prim.
Proof. solve_decision. Defined.

#[global] Instance value_eq_dec : EqDecision value.
Proof. solve_decision. Defined.

#[global] Instance key_eq_dec : EqDecision key.
Proof. solve_decision. Defined.

Record slot := Slot { slot_value : value; slot_enumerable : bool }.

(** Own properties in [OrdinaryOwnPropertyKeys] order. *)
Definition table := list (key * slot).

Inductive obj :=
| ODate (time : Z)
| ORegExp (source flags : string) (lastIndex : Z)
| OSet (members : list value)
| OMap (entries : list (value * value))
| OArray (items : list (option value)) (own : table)
| ORecord (own : table).

Record copyResult := CopyResult { status : bool; msg : string; data : value }.

(** ** Store and monad *)

Record state := State { heap : list obj; memo : gmap addr value }.

Inductive exn := RangeError.

(** [OutOfFuel]: the call depth exceeded the fuel.  [Stuck]: the run left
    the modelled fragment (a dangling address, an object of the wrong
    kind, a coercion that is not modelled). *)
Inductive outcome (A : Type) :=
| Ret (a : A)
| OutOfFuel
| Throw (e : exn)
| Stuck.

Arguments Ret {A} a.
Arguments OutOfFuel {A}.
Arguments Throw {A} e.
Arguments Stuck {A}.

Definition M (A : Type) := state -> outcome (A * state).

Definition ret {A} (a : A) : M A := fun st => Ret (a, st).

Definition bind {A B} (m : M A) (k : A -> M B) : M B :=
  fun st =>
    match m st with
    | Ret (a, st') => k a st'
    | OutOfFuel => OutOfFuel
    | Throw e => Throw e
    | Stuck => Stuck
    end.

Notation "'let*' x ':=' m 'in' k" := (bind m (fun x => k))
  (at level 10, x pattern, m at level 100, k at level 200).

Definition lift {A} (r : outcome A) : M A :=
  fun st =>
    match r with
    | Ret a => Ret (a, st)
    | OutOfFuel => OutOfFuel
    | Throw e => Throw e
    | Stuck => Stuck
    end.

Fixpoint forEach {A} (xs : list A) (f : A -> M unit) : M unit :=
  match xs with
  | [] => ret tt
  | x :: xs' => let* _ := f x in forEach xs' f
  end.

Definition deref (a : addr) : M obj :=
  fun st => match heap st !! a with Some o => Ret (o, st) | None => Stuck end.

Definition alloc (o : obj) : M addr :=
  fun st => Ret (length (heap st), State (heap st ++ [o]) (memo st)).

Definition store (a : addr) (o : obj) : M unit :=
  fun st => Ret (tt, State (<[a := o]> (heap st)) (memo st)).

(** [WeakMap.prototype.has / get / set] on the memo. *)
Definition map_has (a : addr) : M bool :=
  fun st => Ret (bool_decide (is_Some (memo st !! a)), st).

Definition map_get (a : addr) : M value :=
  fun st => Ret (default (VPrim PUndefined) (memo st !! a), st).

Definition map_set (a : addr) (v : value) : M unit :=
  fun st => Ret (tt, State (heap st) (<[a := v]> (memo st))).

(** ** Runtime operations used by the two functions *)

Definition typeof (v : value) : string :=
  match v with
  | VPrim PUndefined => "undefined"
  | VPrim PNull => "object"
  | VPrim (PBool _) => "boolean"
  | VPrim (PNumber _) => "number"
  | VPrim (PString _) => "string"
  | VPrim (PSymbol _) => "symbol"
  | VPrim (PFunction _) => "function"
  | VRef _ => "object"
  end.

(** [source === null || typeof source !== "object"] *)
Definition not_composite (v : value) : bool :=
  bool_decide (v = VPrim PNull) || negb (String.eqb (typeof v) "object").

Definition isArray (o : obj) : bool :=
  match o with OArray _ _ => true | _ => false end.

Fixpoint table_get (k : key) (t : table) : option slot :=
  match t with
  | [] => None
  | (k', s) :: t' => if decide (k = k') then Some s else table_get k t'
  end.

(** Position of a new key: integer keys ascending, then strings, then
    symbols, each in creation order. *)
Definition key_before (k k' : key) : bool :=
  match k, k' with
  | KIdx i, KIdx j => i <? j
  | KIdx _, _ => true
  | KStr _, KSym _ => true
  | _, _ => false
  end.

Fixpoint table_put (k : key) (v : value) (t : table) : table :=
  match t with
  | [] => [(k, Slot v true)]
  | (k', s) :: t' =>
      if decide (k = k') then (k', Slot v (slot_enumerable s)) :: t'
      else if key_before k k' then (k, Slot v true) :: (k', s) :: t'
      else (k', s) :: table_put k v t'
  end.

(** Indices of the elements of an array that are not holes. *)
Fixpoint present_from (i : nat) (items : list (option value)) : list key :=
  match items with
  | [] => []
  | Some _ :: items' => KIdx i :: present_from (S i) items'
  | None :: items' => present_from (S i) items'
  end.

Definition is_array_key (k : key) : bool :=
  match k with
  | KIdx _ => true
  | KStr s => String.eqb s "length"
  | KSym _ => false
  end.

(** [Reflect.ownKeys] *)
Definition ownKeys (o : obj) : list key :=
  match o with
  | ORecord own => own.*1
  | OArray items own =>
      present_from 0 items ++ KStr "length"
        :: filter (fun k => is_array_key k = false) (own.*1)
  | ORegExp _ _ _ => [KStr "lastIndex"]
  | _ => []
  end.

(** Own property lookup with attributes ([None]: no such own property). *)
Definition getOwn (o : obj) (k : key) : option slot :=
  match o with
  | ORecord own => table_get k own
  | OArray items own =>
      match k with
      | KIdx i => (fun v => Slot v true) <$> mjoin (items !! i)
      | KStr s =>
          if String.eqb s "length"
          then Some (Slot (VPrim (PNumber (Z.of_nat (length items)))) false)
          else table_get k own
      | KSym _ => table_get k own
      end
  | ORegExp _ _ li =>
      if decide (k = KStr "lastIndex") then Some (Slot (VPrim (PNumber li)) false)
      else None
  | _ => None
  end.

(** [o[k]] for an own key; a missing property reads as [undefined]. *)
Definition get (o : obj) (k : key) : value :=
  match getOwn o k with
  | Some s => slot_value s
  | None => VPrim PUndefined
  end.

(** Array element write: in range it overwrites, out of range the array
    is extended with holes. *)
Definition array_put (i : nat) (v : value) (items : list (option value))
  : list (option value) :=
  if decide (i < length items) then <[i := Some v]> items
  else items ++ replicate (i - length items) None ++ [Some v].

Definition array_resize (n : nat) (items : list (option value))
  : list (option value) :=
  if decide (n <= length items) then take n items
  else items ++ replicate (n - length items) None.

(** [o[k] = v] on an array or a plain object whose prototype is the one
    it was created with: what the assignment does to the own properties.
    ["__proto__"] is not stored: the assignment reaches the setter
    inherited from [Object.prototype], which creates no own property.

    Two effects of an assignment are outside the model.  The setter of
    ["__proto__"], given an object, a function or [null], changes the
    prototype of [o] (or throws a [TypeError] if that closes a cycle of
    prototypes), after which a later assignment can be absorbed by a
    property inherited from the new prototype.  And symbols are opaque:
    the assignment of the well-known symbol [Symbol.unscopables] to an
    array is rejected by the read-only property of [Array.prototype],
    where the model stores it.  The properties below that depend on
    either effect are stated for stores without own ["__proto__"] keys
    ([no_proto]) and without symbol keys on arrays ([array_no_symbol]). *)
Definition put (o : obj) (k : key) (v : value) : outcome obj :=
  if decide (k = KStr "__proto__") then Ret o
  else
    match o with
    | ORecord own => Ret (ORecord (table_put k v own))
    | OArray items own =>
        match k with
        | KIdx i => Ret (OArray (array_put i v items) own)
        | KStr s =>
            if String.eqb s "length" then
              match v with
              | VPrim (PNumber n) =>
                  if decide (0 <= n)%Z
                  then Ret (OArray (array_resize (Z.to_nat n) items) own)
                  else Throw RangeError
              | _ => Stuck
              end
            else Ret (OArray items (table_put k v own))
        | KSym _ => Ret (OArray items (table_put k v own))
        end
    | _ => Stuck
    end.

(** [source[key]] *)
Definition get_prop (a : addr) (k : key) : M value :=
  let* o := deref a in ret (get o k).

(** [target[key] = v] *)
Definition put_prop (a : addr) (k : key) (v : value) : M unit :=
  let* o := deref a in
  let* o' := lift (put o k v) in
  store a o'.

(** [Set.prototype.add]: a value already present is not added again. *)
Definition set_add (a : addr) (v : value) : M unit :=
  let* o := deref a in
  match o with
  | OSet members =>
      store a (OSet (if decide (v ∈ members) then members else members ++ [v]))
  | _ => fun _ => Stuck
  end.

Fixpoint entries_put (k v : value) (es : list (value * value))
  : list (value * value) :=
  match es with
  | [] => [(k, v)]
  | (k', v') :: es' =>
      if decide (k = k') then (k', v) :: es' else (k', v') :: entries_put k v es'
  end.

(** [Map.prototype.set] *)
Definition map_put (a : addr) (k v : value) : M unit :=
  let* o := deref a in
  match o with
  | OMap entries => store a (OMap (entries_put k v entries))
  | _ => fun _ => Stuck
  end.

(** Keys visited by [for (key in source)] that pass the [hasOwnProperty]
    test: the own enumerable keys that are not symbols. *)
Definition hasOwnProperty (o : obj) (k : key) : bool :=
  bool_decide (is_Some (getOwn o k)).

Definition for_in_visits (o : obj) (k : key) : bool :=
  match k, getOwn o k with
  | KSym _, _ => false
  | _, Some s => slot_enumerable s
  | _, None => false
  end.

Definition for_in_keys (o : obj) : list key :=
  filter (fun k => for_in_visits o k = true) (ownKeys o).

(** ** The two functions *)

Definition msg_shallow_fail := "浅拷贝失败：源数据必须是对象或数组".
Definition msg_shallow_ok := "浅拷贝成功".
Definition msg_primitive := "基本类型无需拷贝".
Definition msg_date := "深拷贝成功（日期类型）".
Definition msg_regexp := "深拷贝成功（正则类型）".
Definition msg_set := "深拷贝成功（Set类型）".
Definition msg_map := "深拷贝成功（Map类型）".
Definition msg_cycle := "深拷贝成功（循环引用）".
Definition msg_generic := "深拷贝成功（对象/数组）".

Definition empty_like (o : obj) : obj :=
  if isArray o then OArray [] [] else ORecord [].

Definition shallowCopy (source : value) : M copyResult :=
  if not_composite source then
    ret (CopyResult false msg_shallow_fail source)
  else
    match source with
    | VPrim _ => fun _ => Stuck
    | VRef a =>
        let* o := deref a in
        let* target := alloc (empty_like o) in
        let* _ := forEach (for_in_keys o) (fun key =>
          let* o' := deref a in
          if hasOwnProperty o' key then
            let* v := get_prop a key in
            put_prop target key v
          else ret tt) in
        ret (CopyResult true msg_shallow_ok (VRef target))
    end.

(** One activation of [deepCopy]; [self] stands for the recursive calls. *)
Definition deepCopy_body (self : value -> M copyResult) (source : value)
  : M copyResult :=
  if not_composite source then
    ret (CopyResult true msg_primitive source)
  else
    match source with
    | VPrim _ => fun _ => Stuck
    | VRef a =>
      let* o := deref a in
      match o with
      | ODate t =>
          let* target := alloc (ODate t) in
          ret (CopyResult true msg_date (VRef target))
      | ORegExp src fl li =>
          let* newReg := alloc (ORegExp src fl 0) in
          let* _ := store newReg (ORegExp src fl li) in
          ret (CopyResult true msg_regexp (VRef newReg))
      | OSet members =>
          let* target := alloc (OSet []) in
          let* _ := map_set a (VRef target) in
          let* _ := forEach members (fun value =>
            let* copyResult := self value in
            set_add target (data copyResult)) in
          ret (CopyResult true msg_set (VRef target))
      | OMap entries =>
          let* target := alloc (OMap []) in
          let* _ := map_set a (VRef target) in
          let* _ := forEach entries (fun '(key, value) =>
            let* keyResult := self key in
            let* valueResult := self value in
            map_put target (data keyResult) (data valueResult)) in
          ret (CopyResult true msg_map (VRef target))
      | _ =>
          let* hit := map_has a in
          if hit then
            let* t := map_get a in
            ret (CopyResult true msg_cycle t)
          else
            let* target := alloc (empty_like o) in
            let* _ := map_set a (VRef target) in
            let* _ := forEach (ownKeys o) (fun key =>
              let* v := get_prop a key in
              let* copyResult := self v in
              put_prop target key (data copyResult)) in
            ret (CopyResult true msg_generic (VRef target))
      end
    end.

(** [deepCopy(source, map)]: the fuel bounds the nesting of activations,
    the memo [map] is the second component of the state. *)
Fixpoint deepCopy (fuel : nat) (source : value) : M copyResult :=
  match fuel with
  | O => fun _ => OutOfFuel
  | S fuel' => deepCopy_body (deepCopy fuel') source
  end.

(** [deepCopy(source)] with the default second argument [new WeakMap()]. *)
Definition deepClone (fuel : nat) (source : value) (h : list obj)
  : outcome (copyResult * state) :=
  deepCopy fuel source (State h ∅).

(** * Specification vocabulary *)

(** ** Stores: extension, traversed values, well-formedness *)

(** [st'] keeps the objects and the memo keys of [st]. *)
Definition extends (st st' : state) : Prop :=
  heap st `prefix_of` heap st' /\
  forall k, is_Some (memo st !! k) -> is_Some (memo st' !! k).

(** The values on which an activation on [o] calls itself. *)
Definition visited (o : obj) : list value :=
  match o with
  | ODate _ | ORegExp _ _ _ => []
  | OSet members => members
  | OMap entries => entries.*1 ++ entries.*2
  | _ => get o <$> ownKeys o
  end.

(** Arrays and plain objects: the kinds that reach the memo lookup. *)
Definition generic (o : obj) : bool :=
  match o with OArray _ _ | ORecord _ => true | _ => false end.

(** An edge of the graph along which [deepCopy] recurses without
    consulting the memo: from a set to a member, from a map to a key or a
    value. *)
Definition unguarded_edge (h : list obj) (x y : addr) : Prop :=
  exists o, h !! x = Some o /\ generic o = false /\ VRef y ∈ visited o.

(** [v] is a primitive or an address of the first [n] objects. *)
Definition below (n : nat) (v : value) : Prop :=
  match v with VRef a => a < n | VPrim _ => True end.

#[global] Instance below_dec n v : Decision (below n v).
Proof. destruct v; simpl; apply _. Defined.

(** What the engine guarantees of an object: set members and map keys
    are pairwise distinct. *)
Definition obj_ok (o : obj) : Prop :=
  match o with
  | OSet members => NoDup members
  | OMap entries => NoDup entries.*1
  | _ => True
  end.

#[global] Instance obj_ok_dec o : Decision (obj_ok o).
Proof. destruct o; simpl; apply _. Defined.

(** Every address held by an object of the store is an object of the
    store. *)
Definition store_ok (h : list obj) : Prop :=
  Forall (fun o => obj_ok o /\ Forall (below (length h)) (visited o)) h.

#[global] Instance store_ok_dec h : Decision (store_ok h).
Proof. unfold store_ok. apply _. Defined.

(** The keys that [target[key] = v] turns into own properties of a
    fresh array or plain object. *)
Definition assignable (k : key) : Prop := k <> KStr "__proto__".

(** No own property is named ["__proto__"]. *)
Definition no_proto (o : obj) : Prop := KStr "__proto__" ∉ ownKeys o.

#[global] Instance assignable_dec k : Decision (assignable k).
Proof. unfold assignable. apply _. Defined.

#[global] Instance no_proto_dec o : Decision (no_proto o).
Proof. unfold no_proto. apply _. Defined.

(** Not a symbol. *)
Definition not_symbol (k : key) : Prop :=
  match k with KSym _ => False | _ => True end.

#[global] Instance not_symbol_dec k : Decision (not_symbol k).
Proof. destruct k; simpl; apply _. Defined.

(** An array has no own symbol key (a plain object may have some). *)
Definition array_no_symbol (o : obj) : Prop :=
  match o with
  | OArray _ own => Forall not_symbol own.*1
  | _ => True
  end.

#[global] Instance array_no_symbol_dec o : Decision (array_no_symbol o).
Proof. destruct o; simpl; apply _. Defined.

(** ** Structural equality *)

(** [relv Q v w]: equal primitives, or addresses related by [Q]. *)
Definition relv (Q : addr -> addr -> Prop) (v w : value) : Prop :=
  match v, w with
  | VPrim p, VPrim q => p = q
  | VRef x, VRef t => Q x t
  | _, _ => False
  end.

(** The value under an own key, without its attributes. *)
Definition getv (o : obj) (k : key) : option value := slot_value <$> getOwn o k.

(** [R] lifted to optional values. *)
Definition optrel (R : value -> value -> Prop) (a b : option value) : Prop :=
  match a, b with
  | Some x, Some y => R x y
  | None, None => True
  | _, _ => False
  end.

(** Same kind, related contents, and the same keys among those that
    satisfy [keep]; the other keys are absent from [o'].  Property
    attributes are not compared. *)
Definition obj_match_on (keep : key -> Prop) (Q : addr -> addr -> Prop)
    (o o' : obj) : Prop :=
  match o, o' with
  | ODate t, ODate t' => t = t'
  | ORegExp s f l, ORegExp s' f' l' => s = s' /\ f = f' /\ l = l'
  | OSet ms, OSet ms' => Forall2 (relv Q) ms ms'
  | OMap es, OMap es' =>
      Forall2 (fun e e' => relv Q e.1 e'.1 /\ relv Q e.2 e'.2) es es'
  | OArray _ _, OArray _ _ | ORecord _, ORecord _ =>
      forall k, (keep k -> optrel (relv Q) (getv o k) (getv o' k)) /\
                (~ keep k -> getv o' k = None)
  | _, _ => False
  end.

(** Same kind, same keys, related contents. *)
Definition obj_match : (addr -> addr -> Prop) -> obj -> obj -> Prop :=
  obj_match_on (fun _ => True).

(** [Q] relates addresses whose objects match up to [Q] itself. *)
Definition simulation (h : list obj) (Q : addr -> addr -> Prop) : Prop :=
  forall x t, Q x t ->
    exists o o', h !! x = Some o /\ h !! t = Some o' /\ obj_match Q o o'.

(** Structural equality of two values of a store, cycles included. *)
Definition struct_eq (h : list obj) (v w : value) : Prop :=
  exists Q, simulation h Q /\ relv Q v w.

(** Number of elements of an array, holes included. *)
Definition alen (o : obj) : nat :=
  match o with OArray items _ => length items | _ => 0 end.

(** [k] is the [length] of an array. *)
Definition is_len (o : obj) (k : key) : Prop :=
  isArray o = true /\ k = KStr "length".

(** Every own property kept in the table of [o] is enumerable. *)
Definition all_enumerable (o : obj) : Prop :=
  match o with
  | OArray _ own | ORecord own =>
      Forall (fun p : key * slot => slot_enumerable p.2 = true) own
  | _ => True
  end.

(** [P] holds of every object of the store at an address from [n] on. *)
Definition allocated (P : obj -> Prop) (n : nat) (st : state) : Prop :=
  n <= length (heap st) /\
  forall t o', n <= t -> heap st !! t = Some o' -> P o'.

(** ** References held by objects *)

(** A place in an object where a value is held: under a key of an array
    or plain object, as the [i]-th member of a set, as the key or as the
    value of the [i]-th entry of a map. *)
Inductive pos :=
| PKey (k : key)
| PMember (i : nat)
| PEntryKey (i : nat)
| PEntryValue (i : nat).

#[global] Instance pos_eq_dec : EqDecision pos.
Proof. solve_decision. Defined.

Definition at_pos (o : obj) (p : pos) : option value :=
  match o, p with
  | OArray _ _, PKey k | ORecord _, PKey k => getv o k
  | OSet members, PMember i => members !! i
  | OMap entries, PEntryKey i => fst <$> entries !! i
  | OMap entries, PEntryValue i => snd <$> entries !! i
  | _, _ => None
  end.

(** Every address held by an object of the store is an object of the
    store. *)
Definition closed (hp : list obj) : Prop :=
  forall t o p c, hp !! t = Some o -> at_pos o p = Some (VRef c) ->
                  c < length hp.

(** No place of the store holds the address [c]. *)
Definition unreferenced (hp : list obj) (c : addr) : Prop :=
  forall t o p, hp !! t = Some o -> at_pos o p <> Some (VRef c).

(** No date, pattern, set or map at an address from [n] on is held at
    two places of the store. *)
Definition unaliased (n : nat) (hp : list obj) : Prop :=
  forall c oc t1 o1 p1 t2 o2 p2,
    n <= c -> hp !! c = Some oc -> generic oc = false ->
    hp !! t1 = Some o1 -> at_pos o1 p1 = Some (VRef c) ->
    hp !! t2 = Some o2 -> at_pos o2 p2 = Some (VRef c) ->
    t1 = t2 /\ p1 = p2.

(** The memo has entries for objects of the store only, and the entry of
    an array or plain object is an array or plain object of the store. *)
Definition memo_generic (st : state) : Prop :=
  (forall a w, memo st !! a = Some w -> a < length (heap st)) /\
  forall a oa w, heap st !! a = Some oa -> generic oa = true ->
    memo st !! a = Some w ->
    exists t ot, w = VRef t /\ heap st !! t = Some ot /\ generic ot = true.

(** What the objects from address [m] on hold of the objects below [m]:
    arrays and plain objects only. *)
Definition holds_generic_below (m : nat) (hp : list obj) : Prop :=
  forall t o p c, m <= t -> hp !! t = Some o -> at_pos o p = Some (VRef c) ->
    c < m -> exists oc, hp !! c = Some oc /\ generic oc = true.

(** The state of an activation between two turns of its loop, [t] being
    the container that it has allocated. *)
Definition loop_inv (n t : nat) (st : state) : Prop :=
  n <= t /\ t < length (heap st) /\
  closed (heap st) /\ unaliased n (heap st) /\ memo_generic st /\
  holds_generic_below t (heap st) /\
  (forall o, heap st !! t = Some o -> generic o = false ->
             unreferenced (heap st) t).

(** What a call started in a store of [m] objects has returned: a
    primitive, or an object of the store which, unless it is an array or
    a plain object, the call has allocated and no place holds yet. *)
Definition fresh_result (m : nat) (hp : list obj) (w : value) : Prop :=
  match w with
  | VPrim _ => True
  | VRef c => exists oc, hp !! c = Some oc /\
      (generic oc = false -> m <= c /\ unreferenced hp c)
  end.

(** ** Population of a clone, key by key *)

(** [built Q shared o done o']: [o'] is what the loop over the own keys
    of [o] has made of the fresh container once the keys [done] are
    assigned.  Two keys of [o'] hold the same address only if it
    satisfies [shared]. *)
Definition built (Q : addr -> addr -> Prop) (shared : addr -> Prop)
    (o : obj) (done : list key) (o' : obj) : Prop :=
  generic o' = true /\ isArray o' = isArray o /\
  (forall k, k ∈ done -> ~ is_len o k -> assignable k ->
             optrel (relv Q) (getv o k) (getv o' k)) /\
  (forall k, k ∉ done -> ~ is_len o k -> getv o' k = None) /\
  getv o' (KStr "__proto__") = None /\
  alen o' <= alen o /\
  (KStr "length" ∈ done -> alen o' = alen o) /\
  (forall k1 k2 c, k1 <> k2 -> getv o' k1 = Some (VRef c) ->
                   getv o' k2 = Some (VRef c) -> shared c).

(** ** The traversal invariant *)

(** [srcs] lists, in allocation order, the original of every object
    allocated since the outermost call started: the object at
    [length h0 + i] is the clone made for [srcs !! i]. *)
Definition clone_of (h0 : list obj) (srcs : list addr) (x t : addr) : Prop :=
  length h0 <= t /\ srcs !! (t - length h0) = Some x.

(** [pend] holds of the clones whose population is still under way
    (those of the activations on the call stack). *)
Record inv (h0 : list obj) (srcs : list addr) (pend : addr -> Prop)
    (st : state) : Prop := {
  inv_prefix : h0 `prefix_of` heap st;
  inv_length : length (heap st) = length h0 + length srcs;
  inv_memo : forall k w, memo st !! k = Some w ->
    exists t, w = VRef t /\ clone_of h0 srcs k t;
  inv_generic : forall x t o, clone_of h0 srcs x t -> h0 !! x = Some o ->
    generic o = true -> memo st !! x = Some (VRef t);
  inv_done : forall x t, clone_of h0 srcs x t -> ~ pend t ->
    exists o o', h0 !! x = Some o /\ heap st !! t = Some o' /\
                 obj_match_on assignable (clone_of h0 srcs) o o';
  inv_pend : forall t, pend t -> length h0 <= t < length (heap st);
}.

(** Either the clone was allocated by this very activation, or it is
    the memo entry of a generic object. *)
Definition fresh_or_hit (h0 : list obj) (st : state) (source : value)
    (r : copyResult) : Prop :=
  match source with
  | VPrim _ => True
  | VRef a =>
      data r = VRef (length (heap st)) \/
      exists o, h0 !! a = Some o /\ generic o = true /\
                memo st !! a = Some (data r)
  end.

(** What a call on [source] that went from [st] to [st'] with result
    [r] has established. *)
Definition copy_post (h0 : list obj) (srcs : list addr)
    (pend : addr -> Prop) (st : state) (source : value) (r : copyResult)
    (st' : state) : Prop :=
  exists srcs',
    inv h0 (srcs ++ srcs') pend st' /\
    status r = true /\
    relv (clone_of h0 (srcs ++ srcs')) source (data r) /\
    fresh_or_hit h0 st source r.

(** What the induction hypothesis says of the recursive calls. *)
Definition self_ok (h0 : list obj) (self : value -> M copyResult) : Prop :=
  forall x s r s' srcs pend,
    inv h0 srcs pend s -> below (length h0) x -> self x s = Ret (r, s') ->
    heap s `prefix_of` heap s' /\ copy_post h0 srcs pend s x r s'.

(** Clones of generic objects: the only addresses that a clone may hold
    under two keys. *)
Definition shared_clone (h0 : list obj) (srcs : list addr) (c : addr) : Prop :=
  exists x ox, clone_of h0 srcs x c /\ h0 !! x = Some ox /\ generic ox = true.

(** ** Separation and reachability *)

(** [v] is not an address of the first [n] objects. *)
Definition outside (n : nat) (v : value) : Prop :=
  match v with VRef c => n <= c | VPrim _ => True end.

(** The addresses that can be reached from a value through the
    contents of objects. *)
Inductive reach (h : list obj) : value -> addr -> Prop :=
| reach_here a : reach h (VRef a) a
| reach_step a o c t :
    h !! a = Some o -> c ∈ visited o -> reach h c t -> reach h (VRef a) t.

(** Relational composition. *)
Definition comp (Q1 Q2 : addr -> addr -> Prop) (x z : addr) : Prop :=
  exists y, Q1 x y /\ Q2 y z.

(** ** Termination measure *)

(** The largest rank of an address of the store. *)
Definition rank_bound (h0 : list obj) (rank : addr -> nat) : nat :=
  max_list (rank <$> seq 0 (length h0)).

(** The rank of a value: that of its address, 0 for a primitive. *)
Definition rankv (rank : addr -> nat) (v : value) : nat :=
  match v with VRef a => rank a | VPrim _ => 0 end.

(** A generic object of the original store that no activation has
    registered yet. *)
Definition unregistered (h0 : list obj) (st : state) (x : addr) : Prop :=
  (exists o, h0 !! x = Some o /\ generic o = true) /\ memo st !! x = None.

#[global] Instance unregistered_dec h0 st x : Decision (unregistered h0 st x).
Proof.
  unfold unregistered. destruct (h0 !! x) as [o|].
  - destruct (generic o) eqn:Hg.
    + destruct (decide (memo st !! x = None)); [left|right]; naive_solver.
    + right. intros [(o' & [= <-] & ?) _]. congruence.
  - right. by intros [(o' & ? & _) _].
Defined.

(** How many generic objects are still unregistered. *)
Definition todo (h0 : list obj) (st : state) : nat :=
  length (filter (unregistered h0 st) (seq 0 (length h0))).

(** Call depth that suffices for [v] when [n] generic objects are still
    unregistered. *)
Definition need (h0 : list obj) (rank : addr -> nat) (n : nat) (v : value)
  : nat :=
  match v with
  | VPrim _ => 1
  | VRef a => (2 + rank_bound h0 rank) * n + rank a + 2
  end.

(** [rank] decreases from the address [x] to the value [v]. *)
Definition rank_under (rank : addr -> nat) (x : addr) (v : value) : Prop :=
  match v with VRef y => rank y < rank x | VPrim _ => True end.

#[global] Instance rank_under_dec rank x v : Decision (rank_under rank x v).
Proof. destruct v; simpl; apply _. Defined.

(** No cycle made of sets and maps only: some rank decreases from every
    set to its members and from every map to its keys and values. *)
Definition unguarded_acyclic (h : list obj) : Prop :=
  exists rank : addr -> nat, forall x o y,
    h !! x = Some o -> generic o = false -> VRef y ∈ visited o ->
    rank y < rank x.

(** ** Scenarios *)

Definition num (n : Z) : value := VPrim (PNumber n).
Definition str (s : string) : value := VPrim (PString s).
Definition field (k : string) (v : value) : key * slot := (KStr k, Slot v true).

(** [s = new Set(); s.add(s)] *)
Definition store_self_set : list obj := [OSet [VRef 0]].

(** [m = new Map(); m.set("self", m)] *)
Definition store_self_map : list obj := [OMap [(str "self", VRef 0)]].

(** [s = new Set([3, 1, 2]); s.add(s)] *)
Definition store_set_312_self : list obj := [OSet [num 3; num 1; num 2; VRef 0]].

(** [s = new Set(); s.add(s); src = {a: s}] *)
Definition store_record_of_self_set : list obj :=
  [ORecord [field "a" (VRef 1)]; OSet [VRef 1]].

(** [m = new Map(); m.set("self", m); src = [m]] *)
Definition store_array_of_self_map : list obj :=
  [OArray [Some (VRef 1)] []; OMap [(str "self", VRef 1)]].

(** [a = {}; a.self = a] *)
Definition store_self_record : list obj := [ORecord [field "self" (VRef 0)]].

(** [shared = {}; root = {x: shared, y: shared}] *)
Definition store_shared_record : list obj :=
  [ORecord []; ORecord [field "x" (VRef 0); field "y" (VRef 0)]].

(** [d = new Date(86400000); root = {x: d, y: d}] *)
Definition store_shared_date : list obj :=
  [ODate 86400000; ORecord [field "x" (VRef 0); field "y" (VRef 0)]].


(** [src = JSON.parse('{"__proto__": 1, "a": 2}')] *)
Definition store_proto_key : list obj :=
  [ORecord [(KStr "__proto__", Slot (VPrim (PNumber 1)) true);
            (KStr "a", Slot (VPrim (PNumber 2)) true)]].

(** [source = {a: {b: 1}}] *)
Definition store_nested_record : list obj :=
  [ORecord [field "b" (num 1)]; ORecord [field "a" (VRef 0)]].

(** [o = {visible: 1, [Symbol()]: 3}] with
    [Object.defineProperty(o, "hidden", {value: 2, enumerable: false})] *)
Definition store_hidden_keys : list obj :=
  [ORecord [field "visible" (num 1); (KStr "hidden", Slot (num 2) false);
            (KSym 0, Slot (num 3) true)]].

(** [[1, , ]]: one element and a trailing hole, [length] 2 *)
Definition store_sparse_array : list obj := [OArray [Some (num 1); None] []].

(** [s = new Set([3, 1, 2])] *)
Definition store_set_312 : list obj := [OSet [num 3; num 1; num 2]].

(** [s = new Set(); root = {x: s, y: s}] *)
Definition store_shared_set : list obj :=
  [OSet []; ORecord [field "x" (VRef 0); field "y" (VRef 0)]].

(** [d = new Date(86400000); s = new Set([d]); m = new Map([["k", d]]);
    root = {x: d, in_set: s, in_map: m}] *)
Definition store_date_in_containers : list obj :=
  [ODate 86400000; OSet [VRef 0]; OMap [(str "k", VRef 0)];
   ORecord [field "x" (VRef 0); field "in_set" (VRef 1);
            field "in_map" (VRef 2)]].

(** [m = new Map([[k, 1], ["b", v]])] for two plain objects [k] and [v] *)
Definition store_map_of_objects : list obj :=
  [ORecord []; ORecord []; OMap [(VRef 0, num 1); (str "b", VRef 1)]].

(** * Properties *)

(** ** Reasoning about runs *)

Lemma bind_Ret {A B} (m : M A) (k : A -> M B) st y :
  bind m k st = Ret y -> exists a st1, m st = Ret (a, st1) /\ k a st1 = Ret y.
Proof.
  unfold bind. destruct (m st) as [[a st1]| | |]; try discriminate. eauto.
Qed.

Lemma bind_step {A B} (m : M A) (k : A -> M B) st a st1 :
  m st = Ret (a, st1) -> bind m k st = k a st1.
Proof. unfold bind. by intros ->. Qed.

Lemma forEach_Ret {A} (I : list A -> state -> Prop) (f : A -> M unit) xs :
  forall pre st st',
    I pre st ->
    (forall done x rest st1 st2,
        pre ++ xs = done ++ x :: rest ->
        I done st1 -> f x st1 = Ret (tt, st2) -> I (done ++ [x]) st2) ->
    forEach xs f st = Ret (tt, st') ->
    I (pre ++ xs) st'.
Proof.
  induction xs as [|x xs IH]; intros pre st st' HI Hstep Hrun; simpl in Hrun.
  - injection Hrun as <-. by rewrite app_nil_r.
  - apply bind_Ret in Hrun as ([] & st1 & Hx & Hrest).
    replace (pre ++ x :: xs) with ((pre ++ [x]) ++ xs) by by rewrite <- app_assoc.
    eapply IH; [| |exact Hrest].
    + eapply (Hstep pre x xs); [done|exact HI|exact Hx].
    + intros done y rest s1 s2 Heq. apply (Hstep _ _ rest).
      by rewrite <- Heq, <- app_assoc.
Qed.

Lemma deref_Ret a st o st1 :
  deref a st = Ret (o, st1) -> st1 = st /\ heap st !! a = Some o.
Proof. unfold deref. destruct (heap st !! a); naive_solver. Qed.

Lemma get_prop_Ret a k st v st1 :
  get_prop a k st = Ret (v, st1) ->
  st1 = st /\ exists o, heap st !! a = Some o /\ v = get o k.
Proof.
  unfold get_prop. intros (o & s & [-> Ho]%deref_Ret & [= <- <-])%bind_Ret. eauto.
Qed.

Lemma put_prop_Ret a k v st st1 :
  put_prop a k v st = Ret (tt, st1) ->
  exists o o', heap st !! a = Some o /\ put o k v = Ret o' /\
    st1 = State (<[a := o']> (heap st)) (memo st).
Proof.
  unfold put_prop.
  intros (o & s & [-> Ho]%deref_Ret & (o' & s' & Hput & Hst)%bind_Ret)%bind_Ret.
  unfold lift in Hput. destruct (put o k v) eqn:E; try discriminate.
  injection Hput as <- <-. injection Hst as <-. eauto.
Qed.

Lemma set_add_Ret a v st st1 :
  set_add a v st = Ret (tt, st1) ->
  exists ms, heap st !! a = Some (OSet ms) /\
    st1 = State (<[a := OSet (if decide (v ∈ ms) then ms else ms ++ [v])]> (heap st))
                (memo st).
Proof.
  unfold set_add. intros (o & s & [-> Ho]%deref_Ret & Hst)%bind_Ret.
  destruct o; try discriminate. injection Hst as <-. eauto.
Qed.

Lemma map_put_Ret a k v st st1 :
  map_put a k v st = Ret (tt, st1) ->
  exists es, heap st !! a = Some (OMap es) /\
    st1 = State (<[a := OMap (entries_put k v es)]> (heap st)) (memo st).
Proof.
  unfold map_put. intros (o & s & [-> Ho]%deref_Ret & Hst)%bind_Ret.
  destruct o; try discriminate. injection Hst as <-. eauto.
Qed.

Lemma not_composite_prim p : not_composite (VPrim p) = true.
Proof. by destruct p. Qed.

Lemma not_composite_ref a : not_composite (VRef a) = false.
Proof. done. Qed.

(** ** The store below the allocation point is never written *)

Lemma prefix_insert_ge {A} (l1 l2 : list A) i x :
  l1 `prefix_of` l2 -> length l1 <= i -> l1 `prefix_of` <[i := x]> l2.
Proof.
  intros [k ->] Hi. rewrite insert_app_r_alt by lia. by eexists.
Qed.

Lemma extends_refl st : extends st st.
Proof. by split. Qed.

Lemma extends_trans st1 st2 st3 :
  extends st1 st2 -> extends st2 st3 -> extends st1 st3.
Proof. intros [H1 H2] [H3 H4]. split; [by etrans|auto]. Qed.

Lemma extends_open st o a v :
  extends st (State (heap st ++ [o]) (<[a := v]> (memo st))).
Proof.
  split; simpl; [by apply prefix_app_r|].
  intros k Hk. rewrite lookup_insert. by destruct (decide (a = k)).
Qed.

Lemma extends_store st s t o :
  extends st s -> length (heap st) <= t ->
  extends st (State (<[t := o]> (heap s)) (memo s)).
Proof. intros [H1 H2] Ht. split; simpl; [by apply prefix_insert_ge|done]. Qed.

Lemma forEach_extends {A} (xs : list A) (f : A -> M unit) st s0 s1 :
  extends st s0 ->
  (forall x s2 s3, extends st s2 -> f x s2 = Ret (tt, s3) -> extends st s3) ->
  forEach xs f s0 = Ret (tt, s1) -> extends st s1.
Proof.
  intros H0 Hf Hfe.
  apply (forEach_Ret (fun _ s => extends st s) f xs [] s0 s1); [done| |done].
  intros _ x _ s2 s3 _ H2. by apply Hf.
Qed.

Lemma deepCopy_extends fuel : forall source st r st',
  deepCopy fuel source st = Ret (r, st') -> extends st st'.
Proof.
  induction fuel as [|fuel IH]; intros source st r st' Hrun; [discriminate|].
  simpl in Hrun. unfold deepCopy_body in Hrun.
  destruct source as [p|a].
  { rewrite not_composite_prim in Hrun. injection Hrun as _ <-. apply extends_refl. }
  rewrite not_composite_ref in Hrun.
  apply bind_Ret in Hrun as (o & s & [-> Ho]%deref_Ret & Hrun).
  destruct o.
  - apply bind_Ret in Hrun as (t & s & [= <- <-] & [= _ <-]).
    split; simpl; [by apply prefix_app_r|done].
  - apply bind_Ret in Hrun as (t & s & [= <- <-] & Hrun).
    apply bind_Ret in Hrun as ([] & s & [= <-] & [= _ <-]).
    split; simpl; [|done]. apply prefix_insert_ge; [by apply prefix_app_r|done].
  - apply bind_Ret in Hrun as (t & s & [= <- <-] & Hrun).
    apply bind_Ret in Hrun as ([] & s & [= <-] & Hrun).
    apply bind_Ret in Hrun as ([] & s & Hfe & [= _ <-]).
    eapply forEach_extends; [| |exact Hfe]; [apply extends_open|].
    intros x s2 s3 H2 (c & s4 & Hc%IH & (ms & _ & ->)%set_add_Ret)%bind_Ret.
    apply extends_store; [by eapply extends_trans|done].
  - apply bind_Ret in Hrun as (t & s & [= <- <-] & Hrun).
    apply bind_Ret in Hrun as ([] & s & [= <-] & Hrun).
    apply bind_Ret in Hrun as ([] & s & Hfe & [= _ <-]).
    eapply forEach_extends; [| |exact Hfe]; [apply extends_open|].
    intros [k v] s2 s3 H2 (ck & s4 & Hk%IH & (cv & s5 & Hv%IH & Hp)%bind_Ret)%bind_Ret.
    apply map_put_Ret in Hp as (es & _ & ->).
    apply extends_store; [|done]. eapply extends_trans; [exact H2|].
    by eapply extends_trans.
  - apply bind_Ret in Hrun as (hit & s & [= <- <-] & Hrun).
    destruct (bool_decide _).
    { apply bind_Ret in Hrun as (t & s & [= <- <-] & [= _ <-]). apply extends_refl. }
    apply bind_Ret in Hrun as (t & s & [= <- <-] & Hrun).
    apply bind_Ret in Hrun as ([] & s & [= <-] & Hrun).
    apply bind_Ret in Hrun as ([] & s & Hfe & [= _ <-]).
    eapply forEach_extends; [| |exact Hfe]; [apply extends_open|].
    intros k s2 s3 H2 (v & s4 & [-> _]%get_prop_Ret & (c & s5 & Hc%IH & Hp)%bind_Ret)%bind_Ret.
    apply put_prop_Ret in Hp as (o1 & o2 & _ & _ & ->).
    apply extends_store; [by eapply extends_trans|done].
  - apply bind_Ret in Hrun as (hit & s & [= <- <-] & Hrun).
    destruct (bool_decide _).
    { apply bind_Ret in Hrun as (t & s & [= <- <-] & [= _ <-]). apply extends_refl. }
    apply bind_Ret in Hrun as (t & s & [= <- <-] & Hrun).
    apply bind_Ret in Hrun as ([] & s & [= <-] & Hrun).
    apply bind_Ret in Hrun as ([] & s & Hfe & [= _ <-]).
    eapply forEach_extends; [| |exact Hfe]; [apply extends_open|].
    intros k s2 s3 H2 (v & s4 & [-> _]%get_prop_Ret & (c & s5 & Hc%IH & Hp)%bind_Ret)%bind_Ret.
    apply put_prop_Ret in Hp as (o1 & o2 & _ & _ & ->).
    apply extends_store; [by eapply extends_trans|done].
Qed.

Lemma deepCopy_frame fuel source st r st' :
  deepCopy fuel source st = Ret (r, st') -> heap st `prefix_of` heap st'.
Proof. intros H. by destruct (deepCopy_extends _ _ _ _ _ H). Qed.

(** ** Forward evaluation *)

Lemma deref_step {B} a o (k : obj -> M B) st :
  heap st !! a = Some o -> bind (deref a) k st = k o st.
Proof. unfold bind, deref. by intros ->. Qed.

Lemma map_has_step {B} a (k : bool -> M B) st :
  bind (map_has a) k st = k (bool_decide (is_Some (memo st !! a))) st.
Proof. done. Qed.

Lemma map_get_step {B} a (k : value -> M B) st :
  bind (map_get a) k st = k (default (VPrim PUndefined) (memo st !! a)) st.
Proof. done. Qed.

Lemma get_prop_step {B} a o key (k : value -> M B) st :
  heap st !! a = Some o -> bind (get_prop a key) k st = k (get o key) st.
Proof. intros Ho. unfold get_prop, bind at 1 2, deref. by rewrite Ho. Qed.

Lemma deepCopy_prim fuel p st :
  deepCopy (S fuel) (VPrim p) st = Ret (CopyResult true msg_primitive (VPrim p), st).
Proof. simpl. unfold deepCopy_body. by rewrite not_composite_prim. Qed.

(** What an activation on an address does, by the kind of the object. *)
Lemma deepCopy_ref fuel a o st :
  heap st !! a = Some o ->
  deepCopy (S fuel) (VRef a) st =
    match o with
    | ODate t =>
        Ret (CopyResult true msg_date (VRef (length (heap st))),
             State (heap st ++ [ODate t]) (memo st))
    | ORegExp src fl li =>
        Ret (CopyResult true msg_regexp (VRef (length (heap st))),
             State (<[length (heap st) := ORegExp src fl li]>
                      (heap st ++ [ORegExp src fl 0%Z])) (memo st))
    | OSet members =>
        let target := length (heap st) in
        bind (forEach members (fun value =>
                let* copyResult := deepCopy fuel value in
                set_add target (data copyResult)))
             (fun _ => ret (CopyResult true msg_set (VRef target)))
             (State (heap st ++ [OSet []]) (<[a := VRef target]> (memo st)))
    | OMap entries =>
        let target := length (heap st) in
        bind (forEach entries (fun '(key, value) =>
                let* keyResult := deepCopy fuel key in
                let* valueResult := deepCopy fuel value in
                map_put target (data keyResult) (data valueResult)))
             (fun _ => ret (CopyResult true msg_map (VRef target)))
             (State (heap st ++ [OMap []]) (<[a := VRef target]> (memo st)))
    | _ =>
        match memo st !! a with
        | Some t => Ret (CopyResult true msg_cycle t, st)
        | None =>
            let target := length (heap st) in
            bind (forEach (ownKeys o) (fun key =>
                    let* v := get_prop a key in
                    let* copyResult := deepCopy fuel v in
                    put_prop target key (data copyResult)))
                 (fun _ => ret (CopyResult true msg_generic (VRef target)))
                 (State (heap st ++ [empty_like o]) (<[a := VRef target]> (memo st)))
        end
    end.
Proof.
  intros Ho. cbn [deepCopy]. unfold deepCopy_body.
  rewrite not_composite_ref, (deref_step _ _ _ _ Ho).
  destruct o; try reflexivity.
  all: rewrite map_has_step; destruct (memo st !! a) as [w|] eqn:Hm.
  all: try (rewrite bool_decide_eq_true_2 by eauto;
            rewrite map_get_step, Hm; reflexivity).
  all: rewrite bool_decide_eq_false_2 by (by intros [? ?]); reflexivity.
Qed.

(** ** Runs that never return *)

(** A returning loop has run its body to completion on every element, in
    states reached from the initial one. *)
Lemma forEach_body_returns {A} (I : state -> Prop) (f : A -> M unit) xs :
  forall st st',
    I st ->
    (forall x s1 s2, I s1 -> f x s1 = Ret (tt, s2) -> I s2) ->
    forEach xs f st = Ret (tt, st') ->
    forall x, x ∈ xs -> exists s1 s2, I s1 /\ f x s1 = Ret (tt, s2).
Proof.
  induction xs as [|y xs IH]; intros st st' HI Hstep Hrun x Hx.
  { by apply elem_of_nil in Hx. }
  simpl in Hrun. apply bind_Ret in Hrun as ([] & s1 & Hy & Hrest).
  apply elem_of_cons in Hx as [->|Hx]; [by eauto|].
  eapply IH; [|exact Hstep|exact Hrest|exact Hx]. by eapply Hstep.
Qed.

Lemma deepCopy_children_return fuel a o st x c :
  deepCopy (S fuel) (VRef a) st = Ret x ->
  heap st !! a = Some o ->
  (generic o = true -> memo st !! a = None) ->
  c ∈ visited o ->
  exists s1 r s2,
    heap st `prefix_of` heap s1 /\ deepCopy fuel c s1 = Ret (r, s2).
Proof.
  intros Hrun Ho Hm Hc. rewrite (deepCopy_ref _ _ _ _ Ho) in Hrun.
  destruct o; simpl in Hc; try (by apply elem_of_nil in Hc).
  - (* Set *)
    cbv zeta in Hrun. apply bind_Ret in Hrun as ([] & s & Hfe & _).
    eapply (forEach_body_returns (fun s => heap st `prefix_of` heap s))
      in Hfe as (s1 & s2 & H1 & Hb); [| |..|exact Hc].
    + apply bind_Ret in Hb as (r & s3 & Hr & _). eauto.
    + simpl. by apply prefix_app_r.
    + intros y s1 s2 H1 (r & s3 & Hr%deepCopy_frame & (ms & _ & ->)%set_add_Ret)%bind_Ret.
      simpl. apply prefix_insert_ge; [by etrans|done].
  - (* Map *)
    cbv zeta in Hrun. apply bind_Ret in Hrun as ([] & s & Hfe & _).
    assert (exists e, e ∈ entries /\ (c = e.1 \/ c = e.2)) as (e & He & Hce).
    { apply elem_of_app in Hc as [Hc|Hc]; apply list_elem_of_fmap in Hc as (e & -> & He);
        eauto. }
    eapply (forEach_body_returns (fun s => heap st `prefix_of` heap s))
      in Hfe as (s1 & s2 & H1 & Hb); [| |..|exact He].
    + destruct e as [k v]. simpl in Hce.
      apply bind_Ret in Hb as (rk & s3 & Hk & (rv & s4 & Hv & _)%bind_Ret).
      destruct Hce as [->| ->]; [by eauto|].
      do 3 eexists. split; [|exact Hv]. etrans; [exact H1|]. by eapply deepCopy_frame.
    + simpl. by apply prefix_app_r.
    + intros [k v] s1 s2 H1
        (rk & s3 & Hk%deepCopy_frame & (rv & s4 & Hv%deepCopy_frame & Hp)%bind_Ret)%bind_Ret.
      apply map_put_Ret in Hp as (es & _ & ->).
      simpl. apply prefix_insert_ge; [|done]. etrans; [exact H1|]. by etrans.
  - (* Array *)
    rewrite (Hm eq_refl) in Hrun.
    cbv zeta in Hrun. apply bind_Ret in Hrun as ([] & s & Hfe & _).
    apply list_elem_of_fmap in Hc as (k & -> & Hk).
    eapply (forEach_body_returns (fun s => heap st `prefix_of` heap s))
      in Hfe as (s1 & s2 & H1 & Hb); [| |..|exact Hk].
    + apply bind_Ret in Hb as (v & s3 & [-> (o1 & Ho1 & ->)]%get_prop_Ret & Hb).
      apply bind_Ret in Hb as (r & s3 & Hr & _).
      eapply prefix_lookup_Some in Ho; [|exact H1].
      rewrite Ho in Ho1. injection Ho1 as <-. eauto.
    + simpl. by apply prefix_app_r.
    + intros y s1 s2 H1
        (v & s3 & [-> _]%get_prop_Ret & (r & s4 & Hr%deepCopy_frame & Hp)%bind_Ret)%bind_Ret.
      apply put_prop_Ret in Hp as (o1 & o2 & _ & _ & ->).
      simpl. apply prefix_insert_ge; [by etrans|done].
  - (* Record *)
    rewrite (Hm eq_refl) in Hrun.
    cbv zeta in Hrun. apply bind_Ret in Hrun as ([] & s & Hfe & _).
    apply list_elem_of_fmap in Hc as (k & -> & Hk).
    eapply (forEach_body_returns (fun s => heap st `prefix_of` heap s))
      in Hfe as (s1 & s2 & H1 & Hb); [| |..|exact Hk].
    + apply bind_Ret in Hb as (v & s3 & [-> (o1 & Ho1 & ->)]%get_prop_Ret & Hb).
      apply bind_Ret in Hb as (r & s3 & Hr & _).
      eapply prefix_lookup_Some in Ho; [|exact H1].
      rewrite Ho in Ho1. injection Ho1 as <-. eauto.
    + simpl. by apply prefix_app_r.
    + intros y s1 s2 H1
        (v & s3 & [-> _]%get_prop_Ret & (r & s4 & Hr%deepCopy_frame & Hp)%bind_Ret)%bind_Ret.
      apply put_prop_Ret in Hp as (o1 & o2 & _ & _ & ->).
      simpl. apply prefix_insert_ge; [by etrans|done].
Qed.

(** X9: from an address on an infinite path of unguarded edges (in a
    finite store: on a cycle made of sets and maps only), [deepCopy]
    returns at no call depth, in whatever state whose store extends the
    given one: the entries that the set and map branches write to the
    memo are never read. *)
Lemma deepCopy_unguarded_path (h : list obj) (path : nat -> addr) :
  (forall i, unguarded_edge h (path i) (path (S i))) ->
  forall fuel i st x,
    h `prefix_of` heap st -> deepCopy fuel (VRef (path i)) st <> Ret x.
Proof.
  intros Hpath. induction fuel as [|fuel IH]; intros i st x Hh Hrun; [done|].
  destruct (Hpath i) as (o & Ho & Hg & Hy).
  eapply prefix_lookup_Some in Ho; [|exact Hh].
  eapply deepCopy_children_return in Hrun as (s1 & r & s2 & H1 & Hc);
    [|exact Ho|by rewrite Hg|exact Hy].
  eapply (IH (S i)); [|exact Hc]. by etrans.
Qed.

Lemma bind_OutOfFuel {A B} (m : M A) (k : A -> M B) st :
  m st = OutOfFuel -> bind m k st = OutOfFuel.
Proof. unfold bind. by intros ->. Qed.

(** A set that has itself as its first member exhausts every call depth:
    the activation on [s] registers the clone and then re-enters the set
    branch for the member [s] before any memo lookup. *)
Lemma deepCopy_self_member_set_overflows fuel : forall st s rest,
  heap st !! s = Some (OSet (VRef s :: rest)) ->
  deepCopy fuel (VRef s) st = OutOfFuel.
Proof.
  induction fuel as [|fuel IH]; intros st s rest Hs; [done|].
  rewrite (deepCopy_ref _ _ _ _ Hs). cbv zeta. cbn [forEach].
  do 3 apply bind_OutOfFuel. apply (IH _ _ rest).
  cbn [heap]. by apply lookup_app_l_Some.
Qed.

(** So does a map that has itself as the value of its first entry, under
    a primitive key. *)
Lemma deepCopy_self_valued_map_overflows fuel : forall st m p rest,
  heap st !! m = Some (OMap ((VPrim p, VRef m) :: rest)) ->
  deepCopy fuel (VRef m) st = OutOfFuel.
Proof.
  induction fuel as [|fuel IH]; intros st m p rest Hm; [done|].
  rewrite (deepCopy_ref _ _ _ _ Hm). cbv zeta. cbn [forEach].
  do 2 apply bind_OutOfFuel.
  destruct fuel as [|fuel]; [done|].
  rewrite (bind_step _ _ _ _ _ (deepCopy_prim _ _ _)).
  apply bind_OutOfFuel. apply (IH _ _ p rest).
  cbn [heap]. by apply lookup_app_l_Some.
Qed.

(** ** Well-formed stores and structural equality *)

Lemma store_ok_lookup h a o :
  store_ok h -> h !! a = Some o ->
  obj_ok o /\ Forall (below (length h)) (visited o).
Proof. intros Hok Ho. by eapply (Forall_lookup_1 _ _ _ _ Hok). Qed.

Lemma relv_mono (Q Q' : addr -> addr -> Prop) v w :
  (forall x t, Q x t -> Q' x t) -> relv Q v w -> relv Q' v w.
Proof. destruct v, w; simpl; auto. Qed.

Lemma optrel_mono (R R' : value -> value -> Prop) a b :
  (forall x y, R x y -> R' x y) -> optrel R a b -> optrel R' a b.
Proof. destruct a, b; simpl; auto. Qed.

Lemma obj_match_mono keep (Q Q' : addr -> addr -> Prop) o o' :
  (forall x t, Q x t -> Q' x t) ->
  obj_match_on keep Q o o' -> obj_match_on keep Q' o o'.
Proof.
  intros HQ. destruct o, o'; simpl; try done.
  - intros H. eapply Forall2_impl; [exact H|]. intros. by eapply relv_mono.
  - intros H. eapply Forall2_impl; [exact H|].
    intros ?? [??]. split; by eapply relv_mono.
  - intros H k. destruct (H k) as [H1 H2]. split; [|done].
    intros Hk. eapply optrel_mono; [|by apply H1]. intros. by eapply relv_mono.
  - intros H k. destruct (H k) as [H1 H2]. split; [|done].
    intros Hk. eapply optrel_mono; [|by apply H1]. intros. by eapply relv_mono.
Qed.

(** A relation that sends each clone back to one original. *)
Lemma relv_left_unique (Q : addr -> addr -> Prop) v v' w :
  (forall x x' t, Q x t -> Q x' t -> x = x') ->
  relv Q v w -> relv Q v' w -> v = v'.
Proof.
  intros HQ. destruct v, v', w; simpl; try done; [congruence|].
  intros. f_equal. by eapply HQ.
Qed.

(** ** Reading back what an assignment wrote *)

Lemma table_get_put_eq k v t :
  slot_value <$> table_get k (table_put k v t) = Some v.
Proof.
  induction t as [|[k' s] t IH]; simpl.
  - by rewrite decide_True.
  - destruct (decide (k = k')) as [->|Hne]; simpl.
    + by rewrite decide_True.
    + destruct (key_before k k'); simpl.
      * by rewrite decide_True.
      * by rewrite decide_False.
Qed.

Lemma table_get_put_ne k k' v t :
  k' <> k -> table_get k' (table_put k v t) = table_get k' t.
Proof.
  intros Hne. induction t as [|[k1 s] t IH]; simpl.
  - by rewrite decide_False.
  - destruct (decide (k = k1)) as [->|Hne1]; simpl.
    + by rewrite !decide_False.
    + destruct (key_before k k1); simpl.
      * by rewrite (decide_False (P := k' = k)).
      * destruct (decide (k' = k1)); [done|apply IH].
Qed.

Lemma table_get_Some_keys k s t : table_get k t = Some s -> k ∈ t.*1.
Proof.
  induction t as [|[k' s'] t IH]; simpl; [done|].
  destruct (decide (k = k')) as [->|Hne]; intros H.
  - left.
  - right. by apply IH.
Qed.

Lemma table_get_keys_Some k t : k ∈ t.*1 -> is_Some (table_get k t).
Proof.
  induction t as [|[k' s'] t IH]; simpl; [by intros ?%elem_of_nil|].
  intros [->|H]%elem_of_cons; [by rewrite decide_True|].
  destruct (decide (k = k')); [done|by apply IH].
Qed.

Lemma array_put_lookup_eq i v items : mjoin (array_put i v items !! i) = Some v.
Proof.
  unfold array_put. destruct (decide (i < length items)).
  - by rewrite list_lookup_insert_eq.
  - rewrite lookup_app_r by lia. rewrite lookup_app_r; rewrite length_replicate; [|lia].
    by replace (i - length items - (i - length items)) with 0 by lia.
Qed.

Lemma array_put_lookup_ne i j v items :
  j <> i -> mjoin (array_put i v items !! j) = mjoin (items !! j).
Proof.
  intros Hne. unfold array_put. destruct (decide (i < length items)).
  - by rewrite list_lookup_insert_ne.
  - destruct (decide (j < length items)).
    + by rewrite lookup_app_l.
    + rewrite (lookup_ge_None_2 items) by lia. rewrite lookup_app_r by lia.
      destruct (decide (j < i)).
      * rewrite lookup_app_l by (rewrite length_replicate; lia).
        by rewrite lookup_replicate_2 by lia.
      * rewrite lookup_ge_None_2; [done|].
        rewrite length_app, length_replicate. simpl. lia.
Qed.

Lemma array_put_length i v items :
  length (array_put i v items) = length items `max` S i.
Proof.
  unfold array_put. destruct (decide (i < length items)).
  - rewrite length_insert. lia.
  - rewrite !length_app, length_replicate. simpl. lia.
Qed.

Lemma array_resize_lookup n j items :
  length items <= n -> mjoin (array_resize n items !! j) = mjoin (items !! j).
Proof.
  intros Hn. unfold array_resize. destruct (decide (n <= length items)).
  - by rewrite take_ge by lia.
  - destruct (decide (j < length items)).
    + by rewrite lookup_app_l.
    + rewrite (lookup_ge_None_2 items) by lia. rewrite lookup_app_r by lia.
      destruct (decide (j < n)).
      * by rewrite lookup_replicate_2 by lia.
      * rewrite lookup_ge_None_2; [done|]. rewrite length_replicate. lia.
Qed.

Lemma array_resize_length n items : length (array_resize n items) = n.
Proof.
  unfold array_resize. destruct (decide (n <= length items)).
  - rewrite length_take. lia.
  - rewrite length_app, length_replicate. lia.
Qed.

Lemma getv_array_idx items own i :
  getv (OArray items own) (KIdx i) = mjoin (items !! i).
Proof. unfold getv. simpl. by destruct (mjoin (items !! i)). Qed.

Lemma getv_array_len items own :
  getv (OArray items own) (KStr "length")
  = Some (VPrim (PNumber (Z.of_nat (length items)))).
Proof. done. Qed.

Lemma put_generic o k v o' :
  put o k v = Ret o' -> generic o = true ->
  generic o' = true /\ isArray o' = isArray o.
Proof.
  unfold put. destruct (decide _); [by intros [= <-]|].
  destruct o; try done; intros Hp _.
  - destruct k as [i|s|id]; [by injection Hp as <-| |by injection Hp as <-].
    destruct (String.eqb s "length"); [|by injection Hp as <-].
    destruct v as [[]|]; try done. destruct (decide _); [|done]. by injection Hp as <-.
  - by injection Hp as <-.
Qed.

Lemma put_getv_eq o k v o' :
  put o k v = Ret o' -> generic o = true -> k <> KStr "__proto__" ->
  ~ is_len o k -> getv o' k = Some v.
Proof.
  unfold put. intros Hp Hg Hk Hlen. rewrite decide_False in Hp by done.
  destruct o; try done.
  - destruct k as [i|s|id].
    + injection Hp as <-. rewrite getv_array_idx. apply array_put_lookup_eq.
    + destruct (String.eqb_spec s "length") as [->|Hs].
      { by destruct Hlen. }
      injection Hp as <-. unfold getv. simpl.
      rewrite (proj2 (String.eqb_neq _ _) Hs). apply table_get_put_eq.
    + injection Hp as <-. unfold getv. simpl. apply table_get_put_eq.
  - injection Hp as <-. unfold getv. simpl. apply table_get_put_eq.
Qed.

Lemma getv_array_own items own k :
  is_array_key k = false ->
  getv (OArray items own) k = slot_value <$> table_get k own.
Proof.
  unfold getv. destruct k as [i|s|id]; simpl; [done| |done]. by intros ->.
Qed.

Lemma is_array_key_false o k :
  isArray o = true -> ~ is_len o k -> (forall i, k <> KIdx i) ->
  is_array_key k = false.
Proof.
  intros Ho Hlen Hi. destruct k as [i|s|id]; simpl; [by destruct (Hi i)| |done].
  destruct (String.eqb_spec s "length") as [->|]; [|done]. by destruct Hlen.
Qed.

Lemma put_getv_ne o k v o' k' :
  put o k v = Ret o' -> generic o = true -> k' <> k -> ~ is_len o k' ->
  (is_len o k -> exists n, v = VPrim (PNumber (Z.of_nat n)) /\ alen o <= n) ->
  getv o' k' = getv o k'.
Proof.
  unfold put. intros Hp Hg Hk Hlen Hres.
  destruct (decide _); [by injection Hp as <-|].
  destruct o; try done; [|injection Hp as <-; unfold getv; simpl;
                          by rewrite table_get_put_ne].
  destruct k' as [j|s'|id'].
  - (* an element *)
    rewrite getv_array_idx.
    destruct k as [i|s|id].
    + injection Hp as <-. rewrite getv_array_idx.
      apply array_put_lookup_ne. congruence.
    + destruct (String.eqb_spec s "length") as [->|Hs].
      * destruct Hres as (m & -> & Hm); [done|].
        destruct (decide _); [|done]. injection Hp as <-.
        rewrite Nat2Z.id, getv_array_idx. by apply array_resize_lookup.
      * injection Hp as <-. by rewrite getv_array_idx.
    + injection Hp as <-. by rewrite getv_array_idx.
  - (* a named property *)
    assert (Hs' : is_array_key (KStr s') = false).
    { apply (is_array_key_false (OArray items own)); done. }
    rewrite (getv_array_own items own) by done.
    destruct k as [i|s|id].
    + injection Hp as <-. by rewrite getv_array_own.
    + destruct (String.eqb_spec s "length") as [->|Hs].
      * destruct v as [[]|]; try done. destruct (decide _); [|done].
        injection Hp as <-. by rewrite getv_array_own.
      * injection Hp as <-. rewrite getv_array_own by done.
        by rewrite table_get_put_ne.
    + injection Hp as <-. rewrite getv_array_own by done.
      by rewrite table_get_put_ne.
  - rewrite (getv_array_own items own) by done.
    destruct k as [i|s|id].
    + injection Hp as <-. by rewrite getv_array_own.
    + destruct (String.eqb_spec s "length") as [->|Hs].
      * destruct v as [[]|]; try done. destruct (decide _); [|done].
        injection Hp as <-. by rewrite getv_array_own.
      * injection Hp as <-. rewrite getv_array_own by done.
        by rewrite table_get_put_ne.
    + injection Hp as <-. rewrite getv_array_own by done.
      by rewrite table_get_put_ne.
Qed.

Lemma put_alen o k v o' :
  put o k v = Ret o' -> isArray o = true -> k <> KStr "__proto__" ->
  alen o' = match k with
            | KIdx i => alen o `max` S i
            | KStr s =>
                if String.eqb s "length" then
                  match v with VPrim (PNumber n) => Z.to_nat n | _ => 0 end
                else alen o
            | KSym _ => alen o
            end.
Proof.
  unfold put. intros Hp Ha Hk. destruct o; try done.
  rewrite decide_False in Hp by done.
  destruct k as [i|s|id].
  - injection Hp as <-. apply array_put_length.
  - destruct (String.eqb s "length"); [|by injection Hp as <-].
    destruct v as [[]|]; try done. destruct (decide _); [|done].
    injection Hp as <-. apply array_resize_length.
  - by injection Hp as <-.
Qed.

(** ** Own keys and own properties agree *)

Lemma present_from_spec b items k :
  k ∈ present_from b items <->
  exists i, k = KIdx (b + i) /\ is_Some (mjoin (items !! i)).
Proof.
  revert b. induction items as [|[v|] items IH]; intros b; simpl.
  - split; [by intros ?%elem_of_nil|]. by intros (i & _ & [? ?]).
  - rewrite elem_of_cons, IH. split.
    + intros [->|(i & -> & Hi)].
      * exists 0. split; [f_equal; lia|by eexists].
      * exists (S i). split; [f_equal; lia|done].
    + intros ([|i] & -> & Hi).
      * left. f_equal. lia.
      * right. exists i. split; [f_equal; lia|done].
  - rewrite IH. split.
    + intros (i & -> & Hi). exists (S i). split; [f_equal; lia|done].
    + intros ([|i] & -> & Hi).
      * by destruct Hi.
      * exists i. split; [f_equal; lia|done].
Qed.

Lemma ownKeys_getOwn o k :
  generic o = true -> k ∈ ownKeys o <-> is_Some (getv o k).
Proof.
  intros Hg. unfold getv. rewrite fmap_is_Some.
  destruct o; try done; simpl.
  - rewrite elem_of_app, elem_of_cons, list_elem_of_filter, present_from_spec.
    destruct k as [i|s|id]; simpl.
    + rewrite fmap_is_Some. split.
      * intros [(j & Hj1 & Hj2)|[?|[? _]]]; [|done|done].
        by injection Hj1 as ->.
      * intros Hi. left. by exists i.
    + destruct (String.eqb_spec s "length") as [->|Hs].
      * split; [by eexists|]. intros _. right. by left.
      * split.
        -- intros [(j & ? & _)|[?|[_ Hk]]]; [done|congruence|].
           by apply table_get_keys_Some.
        -- intros [sl Hsl]. right. right. split; [done|].
           by eapply table_get_Some_keys.
    + split.
      * intros [(j & ? & _)|[?|[_ Hk]]]; [done|done|].
        by apply table_get_keys_Some.
      * intros [sl Hsl]. right. right. split; [done|].
        by eapply table_get_Some_keys.
  - split; [apply table_get_keys_Some|]. intros [s Hs].
    by eapply table_get_Some_keys.
Qed.

Lemma ownKeys_get o k :
  generic o = true -> k ∈ ownKeys o -> getv o k = Some (get o k).
Proof.
  intros Hg [v Hv]%ownKeys_getOwn; [|done]. rewrite Hv. f_equal.
  unfold getv in Hv. unfold get. by destruct (getOwn o k); simplify_eq/=.
Qed.

Lemma ownKeys_idx_alen o i :
  isArray o = true -> KIdx i ∈ ownKeys o -> i < alen o.
Proof.
  destruct o; try done. intros _ [v Hv]%ownKeys_getOwn; [|done].
  rewrite getv_array_idx in Hv. simpl.
  destruct (items !! i) eqn:E; [|done]. by eapply lookup_lt_Some.
Qed.

Lemma ownKeys_length o : isArray o = true -> KStr "length" ∈ ownKeys o.
Proof. destruct o; try done. intros _. simpl. apply elem_of_app. right. left. Qed.

Lemma get_length o : isArray o = true ->
  get o (KStr "length") = VPrim (PNumber (Z.of_nat (alen o))).
Proof. by destruct o. Qed.

Lemma getv_no_proto o :
  generic o = true -> no_proto o -> getv o (KStr "__proto__") = None.
Proof.
  intros Hg Hnp. destruct (getv o (KStr "__proto__")) eqn:E; [|done].
  destruct Hnp. apply ownKeys_getOwn; [done|]. by rewrite E.
Qed.

(** On an object without a ["__proto__"] key, the assignable keys are
    all the keys. *)
Lemma obj_match_on_full Q o o' :
  no_proto o -> obj_match_on assignable Q o o' -> obj_match Q o o'.
Proof.
  intros Hnp. unfold obj_match. destruct o, o'; simpl; try done.
  - intros H k. split; [intros _|done].
    destruct (decide (k = KStr "__proto__")) as [->|Hk].
    + rewrite getv_no_proto by done. by rewrite (proj2 (H _)) by (by intros []).
    + by apply H.
  - intros H k. split; [intros _|done].
    destruct (decide (k = KStr "__proto__")) as [->|Hk].
    + rewrite getv_no_proto by done. by rewrite (proj2 (H _)) by (by intros []).
    + by apply H.
Qed.

(** ** Building the clone of a generic object key by key *)

Lemma getv_empty_like o k :
  generic o = true -> ~ is_len o k -> getv (empty_like o) k = None.
Proof.
  intros Hg Hlen. unfold empty_like. destruct o; try done; simpl.
  destruct k as [i|s|id]; try done.
  unfold getv. simpl. destruct (String.eqb_spec s "length") as [->|]; [|done].
  by destruct Hlen.
Qed.

Lemma built_init Q shared o : generic o = true -> built Q shared o [] (empty_like o).
Proof.
  intros Hg. split_and!.
  - by destruct o.
  - by destruct o.
  - by intros k ?%elem_of_nil.
  - intros k _ Hlen. by apply getv_empty_like.
  - apply getv_empty_like; [done|]. by intros [_ ?].
  - destruct o; try done; simpl; lia.
  - by intros ?%elem_of_nil.
  - intros k1 k2 c _ H1 _. destruct o; try done.
    + destruct k1 as [i|s|id]; try done. unfold getv in H1. simpl in H1.
      by destruct (String.eqb s "length").
Qed.

Lemma is_len_iff o o' k : isArray o' = isArray o -> is_len o' k <-> is_len o k.
Proof. unfold is_len. by intros ->. Qed.

Lemma put_proto o v : put o (KStr "__proto__") v = Ret o.
Proof. unfold put. by rewrite decide_True. Qed.

Lemma built_step (Q Q' : addr -> addr -> Prop) (shared shared' : addr -> Prop)
    o done o' k w o'' :
  built Q shared o done o' -> generic o = true -> k ∈ ownKeys o ->
  (forall x t, Q x t -> Q' x t) -> (forall c, shared c -> shared' c) ->
  relv Q' (get o k) w ->
  (forall c, w = VRef c -> shared' c \/ forall k', getv o' k' <> Some (VRef c)) ->
  put o' k w = Ret o'' ->
  built Q' shared' o (done ++ [k]) o''.
Proof.
  intros (Hg' & Harr & Hdone & Hrest & Hproto & Hle & Heq & Hal) Hg Hk HQ Hsh Hw Hfresh Hput.
  destruct (decide (k = KStr "__proto__")) as [->|Hkp].
  { rewrite put_proto in Hput. injection Hput as <-. split_and!; try done.
    - intros k' [Hk'|Hk']%elem_of_app Hlen Hassign.
      + eapply optrel_mono; [|by apply Hdone]. intros. by eapply relv_mono.
      + apply list_elem_of_singleton in Hk' as ->. by destruct Hassign.
    - intros k' Hk' Hlen. apply Hrest; [|done]. set_solver.
    - intros [H|H%list_elem_of_singleton]%elem_of_app; [by apply Heq|done].
    - intros k1 k2 c Hne H1 H2. apply Hsh. by apply (Hal k1 k2 c). }
  destruct (put_generic _ _ _ _ Hput Hg') as [Hg'' Harr''].
  assert (Hside : is_len o' k ->
    exists n, w = VPrim (PNumber (Z.of_nat n)) /\ alen o' <= n).
  { intros [Ha ->]%(is_len_iff o); [|done]. rewrite get_length in Hw by done.
    destruct w as [q|]; [|done]. simpl in Hw. subst q. eauto. }
  assert (Hother : forall k', k' <> k -> ~ is_len o k' -> getv o'' k' = getv o' k').
  { intros k' Hne Hlen. apply (put_getv_ne _ _ _ _ _ Hput); try done.
    by rewrite is_len_iff. }
  assert (Hlenv : forall k', is_len o k' -> forall c, getv o'' k' <> Some (VRef c)).
  { intros k' [Ha ->] c. assert (isArray o'' = true) by congruence.
    destruct o''; try done. }
  assert (Hlenv' : forall k', is_len o k' -> forall c, getv o' k' <> Some (VRef c)).
  { intros k' [Ha ->] c. assert (isArray o' = true) by congruence.
    destruct o'; try done. }
  split_and!.
  - done.
  - congruence.
  - intros k' Hk' Hlen Hassign.
    destruct (decide (k' = k)) as [->|Hne].
    + rewrite (put_getv_eq _ _ _ _ Hput), (ownKeys_get o k); try done.
      by rewrite is_len_iff.
    + rewrite Hother by done.
      apply elem_of_app in Hk' as [Hk'|Hk'%list_elem_of_singleton]; [|done].
      eapply optrel_mono; [|by apply Hdone]. intros. by eapply relv_mono.
  - intros k' Hk' Hlen. rewrite elem_of_app, list_elem_of_singleton in Hk'.
    rewrite Hother; [|naive_solver|done]. apply Hrest; [|done]. naive_solver.
  - rewrite Hother; [done|congruence|]. by intros [_ ?].
  - destruct (isArray o) eqn:Ha.
    + rewrite (put_alen _ _ _ _ Hput) by done.
      destruct k as [i|s|id]; [|destruct (String.eqb_spec s "length") as [->|]|]; try done.
      * pose proof (ownKeys_idx_alen o i Ha Hk). lia.
      * rewrite get_length in Hw by done. destruct w as [q|]; [|done].
        simpl in Hw. subst q. by rewrite Nat2Z.id.
    + assert (isArray o'' = false) by congruence.
      destruct o''; try done; simpl; lia.
  - intros Hin. destruct (isArray o) eqn:Ha.
    + rewrite (put_alen _ _ _ _ Hput) by done.
      destruct (decide (k = KStr "length")) as [->|Hne].
      * simpl. rewrite get_length in Hw by done. destruct w as [q|]; [|done].
        simpl in Hw. subst q. by rewrite Nat2Z.id.
      * assert (KStr "length" ∈ done) as Hd%Heq.
        { apply elem_of_app in Hin as [|?%list_elem_of_singleton]; done. }
        destruct k as [i|s|id]; [|destruct (String.eqb_spec s "length") as [->|]|]; try done.
        pose proof (ownKeys_idx_alen o i Ha Hk). lia.
    + assert (isArray o'' = false) by congruence.
      destruct o, o''; try done.
  - intros k1 k2 c Hne H1 H2.
    assert (Hl1 : ~ is_len o k1) by (intros Hl; by eapply Hlenv).
    assert (Hl2 : ~ is_len o k2) by (intros Hl; by eapply Hlenv).
    assert (Hnew : forall k', k' <> k -> ~ is_len o k' ->
      getv o'' k = Some (VRef c) -> getv o'' k' = Some (VRef c) -> shared' c).
    { intros k' Hne' Hl' Hk1 Hk2.
      rewrite (put_getv_eq _ _ _ _ Hput) in Hk1; try done.
      - injection Hk1 as ->. destruct (Hfresh c eq_refl) as [?|Hf]; [done|].
        rewrite Hother in Hk2 by done. by destruct (Hf k').
      - rewrite is_len_iff by done. intros Hl. by eapply Hlenv. }
    destruct (decide (k1 = k)) as [->|Hne1]; [by eapply (Hnew k2)|].
    destruct (decide (k2 = k)) as [->|Hne2]; [by eapply (Hnew k1)|].
    rewrite Hother in H1 by done. rewrite Hother in H2 by done.
    apply Hsh. by apply (Hal k1 k2 c).
Qed.

(** Every address stored in [o'] is the image of one under [Q]. *)
Lemma built_stored Q shared o done o' k c :
  built Q shared o done o' -> getv o' k = Some (VRef c) -> exists x, Q x c.
Proof.
  intros (Hg' & Harr & Hdone & Hrest & Hproto & _) Hk.
  destruct (decide (is_len o k)) as [[Ha ->]|Hlen].
  { assert (isArray o' = true) by congruence. by destruct o'. }
  destruct (decide (k ∈ done)) as [Hin|Hnin]; [|by rewrite Hrest in Hk].
  destruct (decide (k = KStr "__proto__")) as [->|Hkp]; [congruence|].
  specialize (Hdone k Hin Hlen Hkp). rewrite Hk in Hdone.
  destruct (getv o k) as [[p|x]|]; try done. by exists x.
Qed.

Lemma built_final Q shared o o' :
  built Q shared o (ownKeys o) o' -> generic o = true ->
  obj_match_on assignable Q o o'.
Proof.
  intros (Hg' & Harr & Hdone & Hrest & Hproto & Hle & Heq & _) Hg.
  assert (Hall : forall k,
    (assignable k -> optrel (relv Q) (getv o k) (getv o' k)) /\
    (~ assignable k -> getv o' k = None)).
  { intros k. split.
    - intros Hassign. destruct (decide (k ∈ ownKeys o)) as [Hin|Hnin].
      + destruct (decide (isArray o = true /\ k = KStr "length")) as [[Ha ->]|Hlen].
        * destruct o, o'; try done. rewrite !getv_array_len. simpl.
          simpl in Heq. by rewrite Heq.
        * by apply Hdone.
      + assert (~ is_len o k) as Hlen.
        { intros [Ha ->]. by apply Hnin, ownKeys_length. }
        rewrite (Hrest k) by done.
        destruct (getv o k) eqn:E; [|done].
        destruct Hnin. apply ownKeys_getOwn; [done|]. by rewrite E.
    - intros Hna. destruct (decide (k = KStr "__proto__")) as [->|]; [done|].
      by destruct Hna. }
  destruct o, o'; try done.
Qed.

(** ** The invariant is preserved *)

Section Traversal.

(** The store on which the outermost call starts. *)
Variable h0 : list obj.

Lemma clone_of_app srcs srcs' x t :
  clone_of h0 srcs x t -> clone_of h0 (srcs ++ srcs') x t.
Proof. intros [? ?]. split; [done|]. by apply lookup_app_l_Some. Qed.

Lemma clone_of_lt srcs x t : clone_of h0 srcs x t -> t < length h0 + length srcs.
Proof. intros [? H%lookup_lt_Some]. lia. Qed.

Lemma clone_of_fun srcs x x' t : clone_of h0 srcs x t -> clone_of h0 srcs x' t -> x = x'.
Proof. intros [_ ?] [_ ?]. congruence. Qed.

Lemma clone_of_snoc srcs a x t :
  clone_of h0 (srcs ++ [a]) x t <->
  clone_of h0 srcs x t \/ (x = a /\ t = length h0 + length srcs).
Proof.
  unfold clone_of. split.
  - intros [Ht Hx]. apply lookup_app_Some in Hx as [Hx|[Hlen Hx]]; [by left; split|].
    right. apply list_lookup_singleton_Some in Hx as [Hx ->]. split; [done|lia].
  - intros [[? ?]|[-> ->]].
    + split; [done|]. by apply lookup_app_l_Some.
    + split; [lia|]. replace (length h0 + length srcs - length h0) with (length srcs) by lia.
      by rewrite lookup_app_r, Nat.sub_diag.
Qed.

Lemma relv_app srcs srcs' v w :
  relv (clone_of h0 srcs) v w -> relv (clone_of h0 (srcs ++ srcs')) v w.
Proof. apply relv_mono. intros. by apply clone_of_app. Qed.

Lemma obj_match_app keep srcs srcs' o o' :
  obj_match_on keep (clone_of h0 srcs) o o' ->
  obj_match_on keep (clone_of h0 (srcs ++ srcs')) o o'.
Proof. apply obj_match_mono. intros. by apply clone_of_app. Qed.

(** A leaf (a date, a pattern) is allocated complete and not registered. *)
Lemma inv_leaf srcs pend st a o o' :
  inv h0 srcs pend st -> h0 !! a = Some o -> generic o = false ->
  obj_match_on assignable (clone_of h0 (srcs ++ [a])) o o' ->
  inv h0 (srcs ++ [a]) pend (State (heap st ++ [o']) (memo st)).
Proof.
  intros [Hp Hl Hm Hg Hd Hpe] Ho Hgen Hmatch. split; simpl.
  - by apply prefix_app_r.
  - rewrite !length_app. simpl. lia.
  - intros k w (t & -> & Ht)%Hm. exists t. split; [done|]. by apply clone_of_app.
  - intros x t ox [Hc|[-> ->]]%clone_of_snoc Hx Hgx; [by eapply Hg|congruence].
  - intros x t [Hc|[-> ->]]%clone_of_snoc Hnp.
    + destruct (Hd x t Hc Hnp) as (o1 & o2 & H1 & H2 & H3).
      exists o1, o2. split_and!; [done|by apply lookup_app_l_Some|by apply obj_match_app].
    + exists o, o'. split_and!; [done| |done].
      by rewrite <- Hl, lookup_app_r, Nat.sub_diag.
  - intros t Ht%Hpe. rewrite length_app. simpl. lia.
Qed.

(** A container is allocated empty, registered, and populated later. *)
Lemma inv_open srcs pend st a o o' :
  inv h0 srcs pend st -> h0 !! a = Some o ->
  (generic o = true -> memo st !! a = None) ->
  inv h0 (srcs ++ [a]) (fun t => pend t \/ t = length (heap st))
      (State (heap st ++ [o']) (<[a := VRef (length (heap st))]> (memo st))).
Proof.
  intros [Hp Hl Hm Hg Hd Hpe] Ho Hgen. split; simpl.
  - by apply prefix_app_r.
  - rewrite !length_app. simpl. lia.
  - intros k w. rewrite lookup_insert. destruct (decide (a = k)) as [->|Hne].
    + intros [= <-]. eexists. split; [done|]. apply clone_of_snoc. right. by rewrite Hl.
    + intros (t & -> & Ht)%Hm. exists t. split; [done|]. by apply clone_of_app.
  - intros x t ox [Hc|[-> ->]]%clone_of_snoc Hx Hgx.
    + rewrite lookup_insert_ne; [by eapply Hg|]. intros ->.
      rewrite Ho in Hx. injection Hx as <-.
      rewrite (Hg _ _ _ Hc Ho Hgx) in Hgen. by specialize (Hgen Hgx).
    + by rewrite Hl, lookup_insert_eq.
  - intros x t [Hc|[-> ->]]%clone_of_snoc Hnp.
    + destruct (Hd x t Hc) as (o1 & o2 & H1 & H2 & H3); [naive_solver|].
      exists o1, o2. split_and!; [done|by apply lookup_app_l_Some|by apply obj_match_app].
    + destruct Hnp. right. by rewrite Hl.
  - intros t [Ht%Hpe| ->]; rewrite length_app; simpl; lia.
Qed.

(** Writing to a clone that is being populated. *)
Lemma inv_store srcs pend st t o' :
  inv h0 srcs pend st -> pend t ->
  inv h0 srcs pend (State (<[t := o']> (heap st)) (memo st)).
Proof.
  intros [Hp Hl Hm Hg Hd Hpe] Ht. split; simpl; try done.
  - apply prefix_insert_ge; [done|]. by apply Hpe.
  - by rewrite length_insert.
  - intros x t' Hc Hnp. destruct (Hd x t' Hc Hnp) as (o1 & o2 & H1 & H2 & H3).
    exists o1, o2. split_and!; [done| |done].
    rewrite list_lookup_insert_ne; [done|]. by intros ->.
  - intros t' Ht'%Hpe. by rewrite length_insert.
Qed.

(** The population of a clone is over. *)
Lemma inv_close srcs pend st a t o o' :
  inv h0 srcs (fun t' => pend t' \/ t' = t) st ->
  clone_of h0 srcs a t -> h0 !! a = Some o -> heap st !! t = Some o' ->
  obj_match_on assignable (clone_of h0 srcs) o o' ->
  inv h0 srcs pend st.
Proof.
  intros [Hp Hl Hm Hg Hd Hpe] Hc Ho Ho' Hmatch. split; try done.
  - intros x t' Hc' Hnp. destruct (decide (t' = t)) as [->|Hne].
    + rewrite (clone_of_fun _ _ _ _ Hc' Hc). eauto.
    + apply Hd; [done|]. naive_solver.
  - intros t' Ht'. apply Hpe. by left.
Qed.

Hypothesis Hok : store_ok h0.

Lemma h0_lookup srcs pend st a :
  inv h0 srcs pend st -> a < length h0 ->
  exists o, h0 !! a = Some o /\ heap st !! a = Some o.
Proof.
  intros Hinv Ha. destruct (lookup_lt_is_Some_2 h0 a Ha) as [o Ho].
  exists o. split; [done|]. eapply prefix_lookup_Some; [done|apply Hinv].
Qed.

Lemma insert_snoc {A} (l : list A) x y : <[length l := y]> (l ++ [x]) = l ++ [y].
Proof. rewrite insert_app_r_alt by lia. by rewrite Nat.sub_diag. Qed.

Lemma Forall2_relv_elem srcs done res w :
  Forall2 (relv (clone_of h0 srcs)) done res -> w ∈ res ->
  exists e, e ∈ done /\ relv (clone_of h0 srcs) e w.
Proof.
  intros HF (i & Hi)%list_elem_of_lookup.
  destruct (Forall2_lookup_r _ _ _ _ _ HF Hi) as (e & He & Hr).
  exists e. split; [|done]. by eapply list_elem_of_lookup_2.
Qed.

(** The loop of the set branch. *)
Lemma set_loop (self : value -> M copyResult) srcs pend st a members st' :
  self_ok h0 self ->
  inv h0 srcs pend st -> h0 !! a = Some (OSet members) ->
  let t := length (heap st) in
  forEach members (fun value =>
      let* copyResult := self value in set_add t (data copyResult))
    (State (heap st ++ [OSet []]) (<[a := VRef t]> (memo st))) = Ret (tt, st') ->
  exists srcs', inv h0 ((srcs ++ [a]) ++ srcs') pend st'.
Proof.
  intros IH Hinv Ho t Hfe.
  destruct (store_ok_lookup _ _ _ Hok Ho) as (Hnd & Hbelow). simpl in Hnd, Hbelow.
  set (pend1 := fun t' => pend t' \/ t' = t).
  assert (Hat : clone_of h0 (srcs ++ [a]) a t).
  { apply clone_of_snoc. right. split; [done|]. apply Hinv. }
  apply (forEach_Ret (fun done s => exists srcs_s res,
      inv h0 ((srcs ++ [a]) ++ srcs_s) pend1 s /\
      heap s !! t = Some (OSet res) /\
      Forall2 (relv (clone_of h0 ((srcs ++ [a]) ++ srcs_s))) done res) _ _ [])
    in Hfe.
  - destruct Hfe as (srcs_s & res & Hi & Ht & HF). simpl in HF.
    exists srcs_s. eapply inv_close; [exact Hi| |exact Ho|exact Ht|exact HF].
    by apply clone_of_app.
  - exists [], []. rewrite app_nil_r. split_and!.
    + by eapply inv_open; [done|exact Ho|].
    + simpl. by rewrite lookup_app_r, Nat.sub_diag.
    + constructor.
  - simpl. intros done x rest s1 s2 Hmem (srcs_s & res & Hi & Ht & HF) Hbody.
    apply bind_Ret in Hbody as (r & s3 & Hself & Hadd).
    destruct (IH _ _ _ _ _ _ Hi (proj1 (Forall_forall _ _) Hbelow x
      ltac:(rewrite Hmem; set_solver)) Hself)
      as (Hpre & srcs' & Hi3 & _ & Hrel & _).
    apply set_add_Ret in Hadd as (ms & Hms & ->).
    rewrite (prefix_lookup_Some _ _ _ _ Ht Hpre) in Hms. injection Hms as <-.
    rewrite decide_False.
    2:{ intros (e & He & Hre)%(Forall2_relv_elem _ _ _ _ HF).
        assert (e = x) as ->.
        { eapply relv_left_unique; [apply clone_of_fun| |exact Hrel].
          by apply relv_app. }
        rewrite Hmem in Hnd. apply NoDup_app in Hnd as (_ & Hnd & _).
        apply (Hnd x He). left. }
    exists (srcs_s ++ srcs'), (res ++ [data r]). rewrite (assoc_L (++)). split_and!.
    + apply inv_store; [done|by right].
    + simpl. apply list_lookup_insert_eq. by eapply lookup_lt_Some, prefix_lookup_Some.
    + apply Forall2_app; [|by repeat constructor].
      eapply Forall2_impl; [exact HF|]. intros ? ?. apply relv_app.
Qed.

Lemma entries_put_fresh k v es :
  k ∉ es.*1 -> entries_put k v es = es ++ [(k, v)].
Proof.
  induction es as [|[k' v'] es IH]; simpl; [done|].
  intros Hk. rewrite not_elem_of_cons in Hk. destruct Hk as [Hne Hk].
  rewrite decide_False by done. by rewrite IH.
Qed.

(** The loop of the map branch. *)
Lemma map_loop (self : value -> M copyResult) srcs pend st a entries st' :
  self_ok h0 self ->
  inv h0 srcs pend st -> h0 !! a = Some (OMap entries) ->
  let t := length (heap st) in
  forEach entries (fun '(key, value) =>
      let* keyResult := self key in
      let* valueResult := self value in
      map_put t (data keyResult) (data valueResult))
    (State (heap st ++ [OMap []]) (<[a := VRef t]> (memo st))) = Ret (tt, st') ->
  exists srcs', inv h0 ((srcs ++ [a]) ++ srcs') pend st'.
Proof.
  intros IH Hinv Ho t Hfe.
  destruct (store_ok_lookup _ _ _ Hok Ho) as (Hnd & Hbelow). simpl in Hnd, Hbelow.
  apply Forall_app in Hbelow as [Hbk Hbv].
  set (pend1 := fun t' => pend t' \/ t' = t).
  assert (Hat : clone_of h0 (srcs ++ [a]) a t).
  { apply clone_of_snoc. right. split; [done|]. apply Hinv. }
  apply (forEach_Ret (fun done s => exists srcs_s es,
      inv h0 ((srcs ++ [a]) ++ srcs_s) pend1 s /\
      heap s !! t = Some (OMap es) /\
      Forall2 (fun e e' => relv (clone_of h0 ((srcs ++ [a]) ++ srcs_s)) e.1 e'.1 /\
                           relv (clone_of h0 ((srcs ++ [a]) ++ srcs_s)) e.2 e'.2)
              done es) _ _ [])
    in Hfe.
  - destruct Hfe as (srcs_s & es & Hi & Ht & HF). simpl in HF.
    exists srcs_s. eapply inv_close; [exact Hi| |exact Ho|exact Ht|exact HF].
    by apply clone_of_app.
  - exists [], []. rewrite app_nil_r. split_and!.
    + by eapply inv_open; [done|exact Ho|].
    + simpl. by rewrite lookup_app_r, Nat.sub_diag.
    + constructor.
  - simpl. intros done [k v] rest s1 s2 Hmem (srcs_s & es & Hi & Ht & HF) Hbody.
    apply bind_Ret in Hbody as (rk & s3 & Hk & Hbody).
    apply bind_Ret in Hbody as (rv & s4 & Hv & Hput).
    assert (Hin : (k, v) ∈ entries) by (rewrite Hmem; set_solver).
    destruct (IH _ _ _ _ _ _ Hi (proj1 (Forall_forall _ _) Hbk k
      ltac:(by apply (list_elem_of_fmap_2 fst) in Hin)) Hk)
      as (Hpre3 & srcs3 & Hi3 & _ & Hrel3 & _).
    destruct (IH _ _ _ _ _ _ Hi3 (proj1 (Forall_forall _ _) Hbv v
      ltac:(by apply (list_elem_of_fmap_2 snd) in Hin)) Hv)
      as (Hpre4 & srcs4 & Hi4 & _ & Hrel4 & _).
    apply map_put_Ret in Hput as (es4 & Hes4 & ->).
    assert (Hpre : heap s1 `prefix_of` heap s4) by by etrans.
    rewrite (prefix_lookup_Some _ _ _ _ Ht Hpre) in Hes4. injection Hes4 as <-.
    rewrite entries_put_fresh.
    2:{ intros (e' & He' & Hine)%list_elem_of_fmap.
        apply list_elem_of_lookup in Hine as (i & Hi').
        destruct (Forall2_lookup_r _ _ _ _ _ HF Hi') as (e & He & Hre & _).
        assert (e.1 = k) as Hek.
        { eapply relv_left_unique; [apply clone_of_fun| |exact Hrel3].
          rewrite He'. by apply relv_app. }
        rewrite Hmem, fmap_app in Hnd. apply NoDup_app in Hnd as (_ & Hnd & _).
        apply (Hnd k); [|left]. rewrite <- Hek.
        apply list_elem_of_fmap_2. by eapply list_elem_of_lookup_2. }
    exists ((srcs_s ++ srcs3) ++ srcs4), (es ++ [(data rk, data rv)]).
    rewrite !(assoc_L (++)). split_and!.
    + apply inv_store; [done|by right].
    + simpl. apply list_lookup_insert_eq. by eapply lookup_lt_Some, prefix_lookup_Some.
    + apply Forall2_app.
      * eapply Forall2_impl; [exact HF|]. intros ? ? [H1 H2].
        split; by do 2 apply relv_app.
      * repeat constructor; simpl; [|done]. by apply relv_app.
Qed.

Lemma shared_clone_app srcs srcs' c :
  shared_clone h0 srcs c -> shared_clone h0 (srcs ++ srcs') c.
Proof. intros (x & ox & ? & ? & ?). exists x, ox. split; [by apply clone_of_app|done]. Qed.

(** The loop of the branch for arrays and plain objects. *)
Lemma generic_loop (self : value -> M copyResult) srcs pend st a o st' :
  self_ok h0 self ->
  inv h0 srcs pend st -> h0 !! a = Some o -> generic o = true ->
  memo st !! a = None ->
  let t := length (heap st) in
  forEach (ownKeys o) (fun key =>
      let* v := get_prop a key in
      let* copyResult := self v in
      put_prop t key (data copyResult))
    (State (heap st ++ [empty_like o]) (<[a := VRef t]> (memo st))) = Ret (tt, st') ->
  exists srcs' o',
    inv h0 ((srcs ++ [a]) ++ srcs') pend st' /\
    heap st' !! t = Some o' /\
    built (clone_of h0 ((srcs ++ [a]) ++ srcs')) (shared_clone h0 ((srcs ++ [a]) ++ srcs'))
          o (ownKeys o) o'.
Proof.
  intros IH Hinv Ho Hg Hm t Hfe.
  destruct (store_ok_lookup _ _ _ Hok Ho) as (_ & Hbelow).
  assert (Ha : a < length h0) by by eapply lookup_lt_Some.
  set (pend1 := fun t' => pend t' \/ t' = t).
  assert (Hat : clone_of h0 (srcs ++ [a]) a t).
  { apply clone_of_snoc. right. split; [done|]. apply Hinv. }
  apply (forEach_Ret (fun done s => exists srcs_s o',
      inv h0 ((srcs ++ [a]) ++ srcs_s) pend1 s /\
      heap s !! t = Some o' /\
      built (clone_of h0 ((srcs ++ [a]) ++ srcs_s))
            (shared_clone h0 ((srcs ++ [a]) ++ srcs_s)) o done o') _ _ [])
    in Hfe.
  - destruct Hfe as (srcs_s & o' & Hi & Ht & Hb). simpl in Hb.
    exists srcs_s, o'. split_and!; [|done..].
    eapply inv_close; [exact Hi| |exact Ho|exact Ht|].
    + by apply clone_of_app.
    + by eapply built_final.
  - exists [], (empty_like o). rewrite app_nil_r. split_and!.
    + by eapply inv_open; [done|exact Ho|].
    + simpl. by rewrite lookup_app_r, Nat.sub_diag.
    + by apply built_init.
  - simpl. intros done k rest s1 s2 Hmem (srcs_s & o' & Hi & Ht & Hb) Hbody.
    apply bind_Ret in Hbody as (v & s3 & [-> (o1 & Ho1 & ->)]%get_prop_Ret & Hbody).
    apply bind_Ret in Hbody as (r & s3 & Hself & Hput).
    destruct (h0_lookup _ _ _ _ Hi Ha) as (o2 & Ho2 & Ho2').
    assert (o2 = o) as -> by congruence. assert (o1 = o) as -> by congruence.
    assert (Hk : k ∈ ownKeys o) by (rewrite Hmem; set_solver).
    assert (Hv : below (length h0) (get o k)).
    { apply (proj1 (Forall_forall _ _) Hbelow).
      destruct o; try done; by apply list_elem_of_fmap_2. }
    destruct (IH _ _ _ _ _ _ Hi Hv Hself) as (Hpre & srcs' & Hi3 & _ & Hrel & Hfresh).
    apply put_prop_Ret in Hput as (o3 & o4 & Ho3 & Hput & ->).
    rewrite (prefix_lookup_Some _ _ _ _ Ht Hpre) in Ho3. injection Ho3 as <-.
    exists (srcs_s ++ srcs'), o4. rewrite (assoc_L (++)). split_and!.
    + apply inv_store; [done|by right].
    + simpl. apply list_lookup_insert_eq. by eapply lookup_lt_Some, prefix_lookup_Some.
    + eapply built_step; [exact Hb|done|done| | |exact Hrel| |exact Hput].
      * intros ? ?. apply clone_of_app.
      * intros ?. apply shared_clone_app.
      * intros c Hc. unfold fresh_or_hit in Hfresh.
        destruct (get o k) as [p|x] eqn:Ev; [by rewrite Hc in Hrel|].
        destruct Hfresh as [Hf|(ox & Hox & Hgx & _)].
        -- right. intros k' Hk'.
           destruct (built_stored _ _ _ _ _ _ _ Hb Hk') as (x' & Hx'%clone_of_lt).
           rewrite Hc in Hf. injection Hf as ->.
           rewrite (inv_length _ _ _ _ Hi) in Hx'. lia.
        -- left. exists x, ox. rewrite Hc in Hrel. by split.
Qed.

(** ** What a returning call has done *)

Lemma deepCopy_spec fuel : self_ok h0 (deepCopy fuel).
Proof.
  induction fuel as [|fuel IH]; intros source st r st' srcs pend Hinv Hb Hrun;
    [done|].
  split; [by eapply deepCopy_frame|].
  destruct source as [p|a].
  { rewrite deepCopy_prim in Hrun. injection Hrun as <- <-.
    exists []. by rewrite app_nil_r. }
  simpl in Hb. destruct (h0_lookup _ _ _ _ Hinv Hb) as (o & Ho & Ho').
  assert (Hat : clone_of h0 (srcs ++ [a]) a (length (heap st))).
  { apply clone_of_snoc. right. split; [done|]. apply Hinv. }
  rewrite (deepCopy_ref _ _ _ _ Ho') in Hrun.
  destruct o.
  - injection Hrun as <- <-. exists [a]. split_and!; try done; [|by left].
    by eapply inv_leaf.
  - injection Hrun as <- <-. exists [a]. split_and!; try done; [|by left].
    rewrite insert_snoc. by eapply inv_leaf.
  - cbv zeta in Hrun. apply bind_Ret in Hrun as ([] & s & Hfe & [= <- <-]).
    eapply set_loop in Hfe as (srcs' & Hi); [|done..].
    exists ([a] ++ srcs'). rewrite (assoc_L (++)).
    split_and!; try done; [|by left]. by apply clone_of_app.
  - cbv zeta in Hrun. apply bind_Ret in Hrun as ([] & s & Hfe & [= <- <-]).
    eapply map_loop in Hfe as (srcs' & Hi); [|done..].
    exists ([a] ++ srcs'). rewrite (assoc_L (++)).
    split_and!; try done; [|by left]. by apply clone_of_app.
  - destruct (memo st !! a) as [w|] eqn:Hm.
    + injection Hrun as <- <-. exists []. rewrite app_nil_r.
      destruct (inv_memo _ _ _ _ Hinv _ _ Hm) as (t & -> & Ht).
      split_and!; try done. right. eauto.
    + cbv zeta in Hrun. apply bind_Ret in Hrun as ([] & s & Hfe & [= <- <-]).
      eapply generic_loop in Hfe as (srcs' & _ & Hi & _); [|done..].
      exists ([a] ++ srcs'). rewrite (assoc_L (++)).
      split_and!; try done; [|by left]. by apply clone_of_app.
  - destruct (memo st !! a) as [w|] eqn:Hm.
    + injection Hrun as <- <-. exists []. rewrite app_nil_r.
      destruct (inv_memo _ _ _ _ Hinv _ _ Hm) as (t & -> & Ht).
      split_and!; try done. right. eauto.
    + cbv zeta in Hrun. apply bind_Ret in Hrun as ([] & s & Hfe & [= <- <-]).
      eapply generic_loop in Hfe as (srcs' & _ & Hi & _); [|done..].
      exists ([a] ++ srcs'). rewrite (assoc_L (++)).
      split_and!; try done; [|by left]. by apply clone_of_app.
Qed.

End Traversal.

(** ** The outermost call *)

Lemma inv_start h : inv h [] (fun _ => False) (State h ∅).
Proof.
  split; simpl; try done.
  - intros x t o [_ Hx]. by rewrite lookup_nil in Hx.
  - intros x t [_ Hx]. by rewrite lookup_nil in Hx.
Qed.

Lemma deepClone_inv h fuel v r st' :
  store_ok h -> below (length h) v -> deepClone fuel v h = Ret (r, st') ->
  exists srcs,
    inv h srcs (fun _ => False) st' /\ status r = true /\
    relv (clone_of h srcs) v (data r) /\
    fresh_or_hit h (State h ∅) v r.
Proof.
  intros Hok Hv Hrun.
  destruct (deepCopy_spec h Hok fuel v _ _ _ [] _ (inv_start h) Hv Hrun)
    as (_ & srcs & H). by exists srcs.
Qed.

Lemma inv_simulation h srcs st :
  Forall no_proto h ->
  inv h srcs (fun _ => False) st -> simulation (heap st) (clone_of h srcs).
Proof.
  intros Hnp Hinv x t Hc.
  destruct (inv_done _ _ _ _ Hinv x t Hc) as (o & o' & Ho & Ho' & Hm); [tauto|].
  exists o, o'. split_and!; [|done|].
  - eapply prefix_lookup_Some; [done|apply Hinv].
  - apply obj_match_on_full; [|done]. by eapply (Forall_lookup_1 _ _ _ _ Hnp).
Qed.

Lemma deepCopy_dangling fuel a st :
  heap st !! a = None -> deepCopy (S fuel) (VRef a) st = Stuck.
Proof.
  intros Ha. cbn [deepCopy]. unfold deepCopy_body.
  rewrite not_composite_ref. unfold bind, deref. by rewrite Ha.
Qed.

(** X12: whatever [deepCopy] returns, on any input, in any state and
    with any memo, has [status = true]. *)
Lemma deepCopy_status fuel source st r st' :
  deepCopy fuel source st = Ret (r, st') -> status r = true.
Proof.
  destruct fuel as [|fuel]; [done|]. destruct source as [p|a].
  { rewrite deepCopy_prim. by intros [= <- _]. }
  destruct (heap st !! a) as [o|] eqn:Ho; [|by rewrite deepCopy_dangling].
  rewrite (deepCopy_ref _ _ _ _ Ho).
  destruct o; try (by intros [= <- _]).
  - cbv zeta. by intros ([] & s & _ & [= <- _])%bind_Ret.
  - cbv zeta. by intros ([] & s & _ & [= <- _])%bind_Ret.
  - destruct (memo st !! a); [by intros [= <- _]|].
    cbv zeta. by intros ([] & s & _ & [= <- _])%bind_Ret.
  - destruct (memo st !! a); [by intros [= <- _]|].
    cbv zeta. by intros ([] & s & _ & [= <- _])%bind_Ret.
Qed.

(** Whenever [deepCopy(source)] returns, it reports success, it has left
    every object of the store as it was, and, provided no object has an
    own ["__proto__"] key, its [data] is structurally equal to [source]. *)
Theorem deepClone_sound h fuel v r st' :
  store_ok h -> Forall no_proto h -> below (length h) v ->
  deepClone fuel v h = Ret (r, st') ->
  status r = true /\ h `prefix_of` heap st' /\ struct_eq (heap st') v (data r).
Proof.
  intros Hok Hnp Hv Hrun.
  destruct (deepClone_inv _ _ _ _ _ Hok Hv Hrun) as (srcs & Hinv & Hs & Hrel & _).
  split_and!; [done|apply Hinv|].
  exists (clone_of h srcs). split; [by apply inv_simulation|done].
Qed.

Lemma relv_outside h srcs v w : relv (clone_of h srcs) v w -> outside (length h) w.
Proof. destruct v, w; simpl; try done. by intros [? _]. Qed.

(** What holds of every clone holds of every value stored in a cloned
    object. *)
Lemma obj_match_visited (Q : addr -> addr -> Prop) (P : value -> Prop) o o' :
  (forall v w, relv Q v w -> P w) ->
  obj_match_on assignable Q o o' -> Forall P (visited o').
Proof.
  intros HP.
  assert (Hgen : generic o' = true ->
    (forall k, (assignable k -> optrel (relv Q) (getv o k) (getv o' k)) /\
               (~ assignable k -> getv o' k = None)) ->
    Forall P (get o' <$> ownKeys o')).
  { intros Hg H. apply Forall_forall. intros w (k & -> & Hk)%list_elem_of_fmap.
    pose proof (ownKeys_get _ _ Hg Hk) as Hv.
    destruct (decide (assignable k)) as [Ha|Hna].
    - pose proof (proj1 (H k) Ha) as Hrel. rewrite Hv in Hrel.
      destruct (getv o k); [|done]. by eapply HP.
    - rewrite (proj2 (H k) Hna) in Hv. done. }
  destruct o, o'; simpl; try done.
  - intros H. apply Forall_forall. intros w (i & Hi)%list_elem_of_lookup.
    destruct (Forall2_lookup_r _ _ _ _ _ H Hi) as (e & _ & Hr).
    by eapply HP.
  - intros H. apply Forall_app. split; apply Forall_forall;
      intros w (e' & -> & (i & Hi)%list_elem_of_lookup)%list_elem_of_fmap;
      destruct (Forall2_lookup_r _ _ _ _ _ H Hi) as (e & _ & Hr1 & Hr2);
      by eapply HP.
  - by apply Hgen.
  - by apply Hgen.
Qed.

Lemma obj_match_outside h srcs o o' :
  obj_match_on assignable (clone_of h srcs) o o' ->
  Forall (outside (length h)) (visited o').
Proof. apply obj_match_visited. intros v w. apply relv_outside. Qed.

(** Whenever [deepCopy(source)] returns, neither its [data] nor any
    object allocated by the call holds the address of an object of the
    original store: a write through the result cannot reach [source]. *)
Theorem deepClone_separate h fuel v r st' :
  store_ok h -> below (length h) v -> deepClone fuel v h = Ret (r, st') ->
  outside (length h) (data r) /\
  forall t o', length h <= t -> heap st' !! t = Some o' ->
    Forall (outside (length h)) (visited o').
Proof.
  intros Hok Hv Hrun.
  destruct (deepClone_inv _ _ _ _ _ Hok Hv Hrun) as (srcs & Hinv & _ & Hrel & _).
  split; [by eapply relv_outside|].
  intros t o' Ht Ho'.
  assert (exists x, clone_of h srcs x t) as (x & Hx).
  { apply lookup_lt_Some in Ho'. rewrite (inv_length _ _ _ _ Hinv) in Ho'.
    destruct (lookup_lt_is_Some_2 srcs (t - length h)) as [x Hx]; [lia|].
    by exists x. }
  destruct (inv_done _ _ _ _ Hinv x t Hx) as (o1 & o2 & _ & Ho2 & Hm); [tauto|].
  rewrite Ho' in Ho2. injection Ho2 as <-. by eapply obj_match_outside.
Qed.

(** X14: no object reachable from the result of a returning call is an
    object of the original store, so no write to an object reachable from the result changes
    the original store. *)
Corollary deepClone_independent h fuel v r st' t o :
  store_ok h -> below (length h) v -> deepClone fuel v h = Ret (r, st') ->
  (exists a, v = VRef a) ->
  reach (heap st') (data r) t ->
  length h <= t /\ h `prefix_of` <[t := o]> (heap st').
Proof.
  intros Hok Hv Hrun [a ->] Hreach.
  destruct (deepClone_separate _ _ _ _ _ Hok Hv Hrun) as [Hr Hall].
  assert (Hpre : h `prefix_of` heap st') by (by eapply (deepCopy_frame _ _ (State h ∅))).
  assert (Ht : length h <= t).
  { clear Hrun. induction Hreach as [b|b ob c t Hb Hc Hreach IH]; [done|].
    apply IH. apply (proj1 (Forall_forall _ _) (Hall b ob Hr Hb)). done. }
  split; [done|]. by apply prefix_insert_ge.
Qed.

(** X15: in a returning call on a set, the result is a fresh set, distinct
    from the original, that holds the clones of the members of the
    original, one for each and in the same order; the original set is
    left as it was.  Where no object of the store has an own
    ["__proto__"] key and no array an own symbol key, each member is
    structurally equal to its clone. *)
Theorem set_cloned_in_order h s members fuel r st' :
  store_ok h -> h !! s = Some (OSet members) ->
  deepClone fuel (VRef s) h = Ret (r, st') ->
  exists srcs res,
    data r = VRef (length h) /\ length h <> s /\
    heap st' !! length h = Some (OSet res) /\
    heap st' !! s = Some (OSet members) /\
    Forall2 (relv (clone_of h srcs)) members res /\
    Forall (outside (length h)) res /\
    (Forall no_proto h -> Forall array_no_symbol h ->
     Forall2 (struct_eq (heap st')) members res).
Proof.
  intros Hok Hs Hrun.
  assert (Hv : below (length h) (VRef s)) by (simpl; by eapply lookup_lt_Some).
  destruct (deepClone_inv _ _ _ _ _ Hok Hv Hrun) as (srcs & Hinv & _ & Hrel & Hfresh).
  destruct Hfresh as [Hd|(o & Ho & Hg & _)];
    [|rewrite Hs in Ho; by injection Ho as <-].
  simpl in Hd. rewrite Hd in Hrel. simpl in Hrel.
  destruct (inv_done _ _ _ _ Hinv _ _ Hrel) as (o & o' & Ho & Ho' & Hm); [tauto|].
  rewrite Hs in Ho. injection Ho as <-. destruct o'; try done. simpl in Hm.
  exists srcs, members0. split_and!; try done.
  - apply lookup_lt_Some in Hs. lia.
  - eapply prefix_lookup_Some; [done|apply Hinv].
  - by apply (obj_match_outside h srcs (OSet members) (OSet members0)).
  - intros Hnp _. eapply Forall2_impl; [exact Hm|]. intros v w Hvw.
    exists (clone_of h srcs). split; [by apply inv_simulation|done].
Qed.

(** *** Cloning twice *)

Lemma simulation_prefix h h' Q :
  h `prefix_of` h' -> simulation h Q -> simulation h' Q.
Proof.
  intros Hpre Hsim x t Hxt. destruct (Hsim x t Hxt) as (o & o' & Ho & Ho' & Hm).
  exists o, o'. split_and!; [by eapply prefix_lookup_Some..|done].
Qed.

Lemma relv_flip (Q : addr -> addr -> Prop) v w : relv Q v w -> relv (flip Q) w v.
Proof. destruct v, w; simpl; try done. Qed.

Lemma optrel_flip (R : value -> value -> Prop) a b :
  optrel R a b -> optrel (flip R) b a.
Proof. by destruct a, b. Qed.

Lemma obj_match_flip Q o o' : obj_match Q o o' -> obj_match (flip Q) o' o.
Proof.
  unfold obj_match. destruct o, o'; simpl; try done.
  - naive_solver.
  - intros H. apply Forall2_flip. eapply Forall2_impl; [exact H|].
    intros v w. apply relv_flip.
  - intros H. apply Forall2_flip. eapply Forall2_impl; [exact H|].
    intros e e' [H1 H2]. split; by apply relv_flip.
  - intros H k. split; [intros _|done].
    eapply optrel_mono; [|apply optrel_flip, (proj1 (H k) I)].
    intros v w. apply relv_flip.
  - intros H k. split; [intros _|done].
    eapply optrel_mono; [|apply optrel_flip, (proj1 (H k) I)].
    intros v w. apply relv_flip.
Qed.

Lemma relv_comp Q1 Q2 u v w : relv Q1 u v -> relv Q2 v w -> relv (comp Q1 Q2) u w.
Proof. destruct u, v, w; simpl; try done; [congruence|]. intros. by eexists. Qed.

Lemma optrel_comp Q1 Q2 a b c :
  optrel (relv Q1) a b -> optrel (relv Q2) b c -> optrel (relv (comp Q1 Q2)) a c.
Proof. destruct a, b, c; simpl; try done. apply relv_comp. Qed.

Lemma obj_match_comp Q1 Q2 o1 o2 o3 :
  obj_match Q1 o1 o2 -> obj_match Q2 o2 o3 -> obj_match (comp Q1 Q2) o1 o3.
Proof.
  unfold obj_match. destruct o1, o2; simpl; try done; destruct o3; simpl; try done.
  - congruence.
  - naive_solver.
  - intros H1 H2. eapply Forall2_trans; [|exact H1|exact H2].
    intros u v w. apply relv_comp.
  - intros H1 H2. eapply Forall2_trans; [|exact H1|exact H2].
    intros u v w [? ?] [? ?]. split; by eapply relv_comp.
  - intros H1 H2 k. split; [intros _|done].
    eapply optrel_comp; [apply (proj1 (H1 k) I)|apply (proj1 (H2 k) I)].
  - intros H1 H2 k. split; [intros _|done].
    eapply optrel_comp; [apply (proj1 (H1 k) I)|apply (proj1 (H2 k) I)].
Qed.

Lemma struct_eq_sym h v w : struct_eq h v w -> struct_eq h w v.
Proof.
  intros (Q & Hsim & Hvw). exists (flip Q). split; [|by apply relv_flip].
  intros t x Htx. destruct (Hsim x t Htx) as (o & o' & Ho & Ho' & Hm).
  exists o', o. split_and!; [done..|]. by apply obj_match_flip.
Qed.

Lemma struct_eq_trans h u v w : struct_eq h u v -> struct_eq h v w -> struct_eq h u w.
Proof.
  intros (Q1 & Hsim1 & Huv) (Q2 & Hsim2 & Hvw). exists (comp Q1 Q2).
  split; [|by eapply relv_comp].
  intros x z (y & Hxy & Hyz).
  destruct (Hsim1 x y Hxy) as (o1 & o2 & Ho1 & Ho2 & Hm1).
  destruct (Hsim2 y z Hyz) as (o2' & o3 & Ho2' & Ho3 & Hm2).
  rewrite Ho2 in Ho2'. injection Ho2' as <-.
  exists o1, o3. split_and!; [done..|]. by eapply obj_match_comp.
Qed.

Lemma struct_eq_prefix h h' v w :
  h `prefix_of` h' -> struct_eq h v w -> struct_eq h' v w.
Proof.
  intros Hpre (Q & Hsim & Hvw). exists Q. split; [by eapply simulation_prefix|done].
Qed.

Lemma Forall2_NoDup {A B} (R : A -> B -> Prop) l k :
  (forall a a' b, R a b -> R a' b -> a = a') ->
  Forall2 R l k -> NoDup l -> NoDup k.
Proof.
  intros HR HF. induction HF as [|a b l k Hab HF IH]; [intros _; constructor|].
  intros [Ha Hl]%NoDup_cons. apply NoDup_cons. split; [|by apply IH].
  intros (i & Hi)%list_elem_of_lookup.
  destruct (Forall2_lookup_r _ _ _ _ _ HF Hi) as (a' & Ha' & Hr).
  rewrite (HR _ _ _ Hab Hr) in Ha. by eapply Ha, list_elem_of_lookup_2.
Qed.

Lemma below_mono n n' v : n <= n' -> below n v -> below n' v.
Proof. destruct v; simpl; [done|lia]. Qed.

(** The store that a returning call leaves is well formed again, and
    free of ["__proto__"] keys if the original store is. *)
Lemma deepClone_store_ok h fuel v r st' :
  store_ok h -> below (length h) v -> deepClone fuel v h = Ret (r, st') ->
  store_ok (heap st') /\ (Forall no_proto h -> Forall no_proto (heap st')).
Proof.
  intros Hok Hv Hrun.
  destruct (deepClone_inv _ _ _ _ _ Hok Hv Hrun) as (srcs & Hinv & _ & _ & _).
  pose proof (inv_prefix _ _ _ _ Hinv) as Hpre.
  pose proof (inv_length _ _ _ _ Hinv) as Hlen.
  assert (Hcases : forall i o, heap st' !! i = Some o ->
    h !! i = Some o \/
    exists x ox, h !! x = Some ox /\ obj_match_on assignable (clone_of h srcs) ox o).
  { intros i o Hi. destruct (decide (i < length h)) as [Hlt|Hge].
    - left. destruct (lookup_lt_is_Some_2 h i Hlt) as [o1 Ho1].
      rewrite (prefix_lookup_Some _ _ _ _ Ho1 Hpre) in Hi. congruence.
    - right. pose proof (lookup_lt_Some _ _ _ Hi) as Hi'. rewrite Hlen in Hi'.
      destruct (lookup_lt_is_Some_2 srcs (i - length h)) as [x Hx]; [lia|].
      destruct (inv_done _ _ _ _ Hinv x i) as (o1 & o2 & Ho1 & Ho2 & Hm);
        [split; [lia|done]|tauto|].
      rewrite Hi in Ho2. injection Ho2 as <-. eauto. }
  split.
  - apply Forall_lookup. intros i o Hi.
    destruct (Hcases i o Hi) as [Ho|(x & ox & Hx & Hm)].
    + destruct (store_ok_lookup _ _ _ Hok Ho) as [H1 H2]. split; [done|].
      eapply Forall_impl; [exact H2|]. intros w. apply below_mono.
      by apply prefix_length.
    + split.
      * destruct (store_ok_lookup _ _ _ Hok Hx) as [H1 _].
        destruct ox, o; try done; simpl in *.
        -- eapply Forall2_NoDup; [|exact Hm|exact H1].
           intros a a' b. apply relv_left_unique, clone_of_fun.
        -- assert (Forall2 (relv (clone_of h srcs)) entries.*1 entries0.*1) as HF.
           { apply Forall2_fmap. eapply Forall2_impl; [exact Hm|]. by intros ?? [? _]. }
           eapply Forall2_NoDup; [|exact HF|exact H1].
           intros a a' b. apply relv_left_unique, clone_of_fun.
      * eapply obj_match_visited; [|exact Hm]. intros u w Huw.
        destruct u, w; simpl in *; try done.
        apply clone_of_lt in Huw. lia.
  - intros Hnp. apply Forall_lookup. intros i o Hi.
    destruct (Hcases i o Hi) as [Ho|(x & ox & Hx & Hm)].
    + by eapply (Forall_lookup_1 _ _ _ _ Hnp).
    + unfold no_proto. destruct ox, o; try done; simpl in Hm;
        try (simpl; set_solver).
      * intros Hin%ownKeys_getOwn; [|done].
        rewrite (proj2 (Hm (KStr "__proto__"))) in Hin; [by destruct Hin|].
        by intros [].
      * intros Hin%ownKeys_getOwn; [|done].
        rewrite (proj2 (Hm (KStr "__proto__"))) in Hin; [by destruct Hin|].
        by intros [].
Qed.

(** X16: two successive calls of [deepCopy] on the same value, when both
    return, return structurally equal results, and the objects of the
    original store are still as they were. *)
Theorem deepClone_twice h v fuel1 r1 st1 fuel2 r2 st2 :
  store_ok h -> Forall no_proto h -> below (length h) v ->
  deepClone fuel1 v h = Ret (r1, st1) ->
  deepClone fuel2 v (heap st1) = Ret (r2, st2) ->
  h `prefix_of` heap st2 /\ struct_eq (heap st2) (data r1) (data r2).
Proof.
  intros Hok Hnp Hv H1 H2.
  destruct (deepClone_sound _ _ _ _ _ Hok Hnp Hv H1) as (_ & Hpre1 & He1).
  destruct (deepClone_store_ok _ _ _ _ _ Hok Hv H1) as [Hok1 Hnp1].
  assert (Hv1 : below (length (heap st1)) v).
  { eapply below_mono; [|exact Hv]. by apply prefix_length. }
  destruct (deepClone_sound _ _ _ _ _ Hok1 (Hnp1 Hnp) Hv1 H2) as (_ & Hpre2 & He2).
  split; [by etrans|].
  eapply struct_eq_trans; [|exact He2].
  apply struct_eq_sym. by eapply struct_eq_prefix.
Qed.

(** X17: [deepCopy] cloning its own result, when both calls return, on a
    store in which no object has an own ["__proto__"] key and no array an
    own symbol key: the clone of the clone is structurally equal to the
    clone and to the original. *)
Theorem deepClone_of_clone h v fuel1 r1 st1 fuel2 r2 st2 :
  store_ok h -> Forall no_proto h -> Forall array_no_symbol h ->
  below (length h) v ->
  deepClone fuel1 v h = Ret (r1, st1) ->
  deepClone fuel2 (data r1) (heap st1) = Ret (r2, st2) ->
  struct_eq (heap st2) (data r1) (data r2) /\ struct_eq (heap st2) v (data r2).
Proof.
  intros Hok Hnp _ Hv H1 H2.
  destruct (deepClone_inv _ _ _ _ _ Hok Hv H1) as (srcs & Hinv & _ & Hrel & _).
  destruct (deepClone_sound _ _ _ _ _ Hok Hnp Hv H1) as (_ & Hpre1 & He1).
  destruct (deepClone_store_ok _ _ _ _ _ Hok Hv H1) as [Hok1 Hnp1].
  assert (Hv1 : below (length (heap st1)) (data r1)).
  { destruct v, (data r1); simpl in *; try done.
    apply clone_of_lt in Hrel. rewrite (inv_length _ _ _ _ Hinv). lia. }
  destruct (deepClone_sound _ _ _ _ _ Hok1 (Hnp1 Hnp) Hv1 H2) as (_ & Hpre2 & He2).
  split; [done|]. eapply struct_eq_trans; [|exact He2]. by eapply struct_eq_prefix.
Qed.


(** ** Termination *)

Lemma forEach_total {A} (I : list A -> state -> Prop) (f : A -> M unit) xs :
  forall pre st,
    I pre st ->
    (forall done x rest s,
        pre ++ xs = done ++ x :: rest -> I done s ->
        exists s', f x s = Ret (tt, s') /\ I (done ++ [x]) s') ->
    exists st', forEach xs f st = Ret (tt, st') /\ I (pre ++ xs) st'.
Proof.
  induction xs as [|x xs IH]; intros pre st HI Hstep; simpl.
  - exists st. by rewrite app_nil_r.
  - destruct (Hstep pre x xs st eq_refl HI) as (s1 & Hx & HI1).
    rewrite (bind_step _ _ _ _ _ Hx).
    replace (pre ++ x :: xs) with ((pre ++ [x]) ++ xs) by by rewrite <- app_assoc.
    apply IH; [done|]. intros done y rest s Heq. apply (Hstep _ _ rest).
    by rewrite <- Heq, <- app_assoc.
Qed.

Lemma filter_length_le {A} (P P' : A -> Prop)
    `{!forall x, Decision (P x)} `{!forall x, Decision (P' x)} (l : list A) :
  (forall x, x ∈ l -> P' x -> P x) ->
  length (filter P' l) <= length (filter P l).
Proof.
  induction l as [|y l IH]; intros Himp; [done|].
  rewrite !filter_cons.
  assert (IH' := IH (fun x Hx => Himp x (list_elem_of_further _ _ _ Hx))).
  destruct (decide (P' y)) as [Hy|Hy].
  - rewrite decide_True by (apply Himp; [left|done]). simpl. lia.
  - destruct (decide (P y)); simpl; lia.
Qed.

Lemma filter_length_lt {A} (P P' : A -> Prop)
    `{!forall x, Decision (P x)} `{!forall x, Decision (P' x)} (l : list A) a :
  a ∈ l -> P a -> ~ P' a ->
  (forall x, x ∈ l -> P' x -> P x) ->
  length (filter P' l) < length (filter P l).
Proof.
  induction l as [|y l IH]; intros Ha HPa HP'a Himp; [by apply elem_of_nil in Ha|].
  rewrite !filter_cons.
  assert (Himp' := fun x Hx => Himp x (list_elem_of_further _ _ _ Hx)).
  apply elem_of_cons in Ha as [<-|Ha].
  - rewrite (decide_False (P := P' a)), (decide_True (P := P a)) by done. simpl.
    pose proof (filter_length_le P P' l Himp'). lia.
  - specialize (IH Ha HPa HP'a Himp').
    destruct (decide (P' y)) as [Hy|Hy].
    + rewrite decide_True by (apply Himp; [left|done]). simpl. lia.
    + destruct (decide (P y)); simpl; lia.
Qed.

Lemma put_total o k w :
  generic o = true ->
  (is_len o k -> exists n, w = VPrim (PNumber (Z.of_nat n))) ->
  exists o', put o k w = Ret o'.
Proof.
  intros Hg Hlen. unfold put. destruct (decide _); [by eauto|].
  destruct o; try done; [|by eauto].
  destruct k as [i|s|id]; [by eauto| |by eauto].
  destruct (String.eqb_spec s "length") as [->|]; [|by eauto].
  destruct Hlen as (m & ->); [done|].
  rewrite decide_True by lia. eauto.
Qed.

Lemma set_add_run a ms v st :
  heap st !! a = Some (OSet ms) ->
  set_add a v st =
    Ret (tt, State (<[a := OSet (if decide (v ∈ ms) then ms else ms ++ [v])]>
                      (heap st)) (memo st)).
Proof. intros Ho. unfold set_add, bind, deref. by rewrite Ho. Qed.

Lemma map_put_run a es k v st :
  heap st !! a = Some (OMap es) ->
  map_put a k v st =
    Ret (tt, State (<[a := OMap (entries_put k v es)]> (heap st)) (memo st)).
Proof. intros Ho. unfold map_put, bind, deref. by rewrite Ho. Qed.

Lemma put_prop_run a o o' k v st :
  heap st !! a = Some o -> put o k v = Ret o' ->
  put_prop a k v st = Ret (tt, State (<[a := o']> (heap st)) (memo st)).
Proof. intros Ho Hp. unfold put_prop, bind, deref, lift. by rewrite Ho, Hp. Qed.

Section Termination.

Variable h0 : list obj.

Hypothesis Hok : store_ok h0.

(** A rank that decreases from every set or map to what it holds: the
    store has no cycle made of sets and maps only. *)
Variable rank : addr -> nat.

Hypothesis Hrank : forall x o y,
  h0 !! x = Some o -> generic o = false -> VRef y ∈ visited o ->
  rank y < rank x.

Lemma todo_mono st st' : extends st st' -> todo h0 st' <= todo h0 st.
Proof.
  intros [_ Hm]. apply filter_length_le. intros x _ [Hx Hnone]. split; [done|].
  destruct (memo st !! x) eqn:E; [|done].
  destruct (Hm x) as [w Hw]; [by eexists|]. congruence.
Qed.

Lemma todo_register st hp a o w :
  h0 !! a = Some o -> generic o = true -> memo st !! a = None ->
  todo h0 (State hp (<[a := w]> (memo st))) < todo h0 st.
Proof.
  intros Ho Hg Hm. apply (filter_length_lt _ _ _ a).
  - apply elem_of_seq. split; [lia|]. apply lookup_lt_Some in Ho. lia.
  - split; [by eauto|done].
  - intros [_ H]. simpl in H. by rewrite lookup_insert_eq in H.
  - intros x _ [Hx Hnone]. split; [done|]. simpl in Hnone.
    rewrite lookup_insert in Hnone. by destruct (decide (a = x)).
Qed.

Lemma rank_le_bound a : a < length h0 -> rank a <= rank_bound h0 rank.
Proof.
  intros Ha. apply max_list_elem_of_le, list_elem_of_fmap_2, elem_of_seq. lia.
Qed.

Lemma rankv_le_bound v : below (length h0) v -> rankv rank v <= rank_bound h0 rank.
Proof. destruct v; simpl; [lia|apply rank_le_bound]. Qed.

Lemma need_mono n n' v : n <= n' -> need h0 rank n v <= need h0 rank n' v.
Proof. destruct v; simpl; [lia|nia]. Qed.

Lemma deepCopy_total fuel : forall v st srcs pend,
  inv h0 srcs pend st -> below (length h0) v -> need h0 rank (todo h0 st) v <= fuel ->
  exists r st', deepCopy fuel v st = Ret (r, st').
Proof.
  induction fuel as [|fuel IH]; intros v st srcs pend Hinv Hb Hfuel.
  { destruct v; simpl in Hfuel; lia. }
  destruct v as [p|a]; [rewrite deepCopy_prim; by eauto|].
  simpl in Hb. destruct (h0_lookup _ _ _ _ _ Hinv Hb) as (o & Ho & Ho').
  rewrite (deepCopy_ref _ _ _ _ Ho').
  destruct (store_ok_lookup _ _ _ Hok Ho) as (_ & Hbelow).
  set (t := length (heap st)).
  set (pend1 := fun t' => pend t' \/ t' = t).
  cbn [need] in Hfuel.
  (* a recursive call made by a loop of this activation *)
  assert (Hcall : forall x s srcs1 n,
    inv h0 srcs1 pend1 s -> below (length h0) x ->
    todo h0 s <= n -> need h0 rank n x <= fuel ->
    exists r s' srcs', deepCopy fuel x s = Ret (r, s') /\
      extends s s' /\ inv h0 (srcs1 ++ srcs') pend1 s' /\
      relv (clone_of h0 (srcs1 ++ srcs')) x (data r)).
  { intros x s srcs1 n Hi Hx Hn Hf.
    destruct (IH x s srcs1 pend1 Hi Hx) as (r & s' & Hr).
    { etrans; [|exact Hf]. by apply need_mono. }
    destruct (deepCopy_spec h0 Hok fuel _ _ _ _ _ _ Hi Hx Hr)
      as (_ & srcs' & Hi' & _ & Hrel & _).
    exists r, s', srcs'. split_and!; try done. by eapply deepCopy_extends. }
  assert (Hchild : forall c, c ∈ visited o -> generic o = false ->
    need h0 rank (todo h0 st) c <= fuel).
  { intros [p|y] Hc Hg; simpl; [lia|].
    pose proof (Hrank a o y Ho Hg Hc). lia. }
  assert (Hgeneric : generic o = true -> memo st !! a = None ->
    exists st', forEach (ownKeys o) (fun key =>
        let* v := get_prop a key in
        let* copyResult := deepCopy fuel v in
        put_prop t key (data copyResult))
      (State (heap st ++ [empty_like o]) (<[a := VRef t]> (memo st)))
      = Ret (tt, st')).
  { intros Hg Hm.
    pose proof (todo_register st (heap st ++ [empty_like o]) a o (VRef t) Ho Hg Hm)
      as Hreg.
    destruct (forEach_total (fun _ s => exists srcs_s o',
        inv h0 ((srcs ++ [a]) ++ srcs_s) pend1 s /\
        heap s !! t = Some o' /\ generic o' = true /\ isArray o' = isArray o /\
        todo h0 s < todo h0 st)
      (fun key => let* v := get_prop a key in
                  let* copyResult := deepCopy fuel v in
                  put_prop t key (data copyResult)) (ownKeys o) []
      (State (heap st ++ [empty_like o]) (<[a := VRef t]> (memo st))))
      as (st' & Hfe & _); [| |by eauto].
    + exists [], (empty_like o). rewrite app_nil_r. split_and!.
      * by eapply inv_open; [done|exact Ho|].
      * simpl. unfold t. by rewrite lookup_app_r, Nat.sub_diag.
      * by destruct o.
      * by destruct o.
      * done.
    + intros done k rest s Hmem (srcs_s & o' & Hi & Ht & Hg' & Harr & Htodo).
      assert (Hk : k ∈ ownKeys o) by (simpl in Hmem; rewrite Hmem; set_solver).
      destruct (h0_lookup _ _ _ _ _ Hi Hb) as (o2 & Ho2 & Ho2').
      assert (o2 = o) as -> by congruence.
      rewrite (get_prop_step _ _ _ _ _ Ho2').
      assert (Hv : below (length h0) (get o k)).
      { apply (proj1 (Forall_forall _ _) Hbelow).
        destruct o; try done; by apply list_elem_of_fmap_2. }
      destruct (Hcall (get o k) s _ (todo h0 st - 1) Hi Hv)
        as (r & s' & srcs' & Hr & Hext & Hi' & Hrel); [lia| |].
      { pose proof (rankv_le_bound _ Hv).
        destruct (get o k); simpl in *; [lia|nia]. }
      rewrite (bind_step _ _ _ _ _ Hr).
      assert (Ht' : heap s' !! t = Some o').
      { eapply prefix_lookup_Some; [done|apply Hext]. }
      destruct (put_total o' k (data r) Hg') as (o'' & Hput).
      { intros [Ha ->]. rewrite Harr in Ha. rewrite get_length in Hrel by done.
        destruct (data r) as [q|]; [|done]. simpl in Hrel. subst q. eauto. }
      eexists. split; [by eapply put_prop_run|].
      destruct (put_generic _ _ _ _ Hput Hg') as [Hg'' Harr''].
      exists (srcs_s ++ srcs'), o''. rewrite (assoc_L (++)). split_and!.
      * apply inv_store; [done|by right].
      * simpl. apply list_lookup_insert_eq. by eapply lookup_lt_Some.
      * done.
      * congruence.
      * change (todo h0 s' < todo h0 st). pose proof (todo_mono _ _ Hext). lia. }
  destruct o eqn:Eo.
  - by eauto.
  - by eauto.
  - (* Set *)
    cbv zeta. fold t.
    destruct (forEach_total (fun _ s => exists srcs_s res,
        inv h0 ((srcs ++ [a]) ++ srcs_s) pend1 s /\
        heap s !! t = Some (OSet res) /\ todo h0 s <= todo h0 st)
      (fun value => let* copyResult := deepCopy fuel value in
                    set_add t (data copyResult)) members []
      (State (heap st ++ [OSet []]) (<[a := VRef t]> (memo st))))
      as (st' & Hfe & _).
    + exists [], []. rewrite app_nil_r. split_and!.
      * by eapply inv_open; [done|exact Ho|].
      * simpl. unfold t. by rewrite lookup_app_r, Nat.sub_diag.
      * apply todo_mono, extends_open.
    + intros done x rest s Hmem (srcs_s & res & Hi & Ht & Htodo).
      assert (Hx : x ∈ members) by (simpl in Hmem; rewrite Hmem; set_solver).
      destruct (Hcall x s _ (todo h0 st) Hi) as (r & s' & srcs' & Hr & Hext & Hi' & _).
      { by apply (proj1 (Forall_forall _ _) Hbelow). }
      { done. }
      { by apply Hchild. }
      rewrite (bind_step _ _ _ _ _ Hr).
      assert (Ht' : heap s' !! t = Some (OSet res)).
      { eapply prefix_lookup_Some; [done|apply Hext]. }
      eexists. split; [by apply set_add_run|].
      exists (srcs_s ++ srcs'). eexists. rewrite (assoc_L (++)). split_and!.
      * apply inv_store; [done|by right].
      * simpl. apply list_lookup_insert_eq. by eapply lookup_lt_Some.
      * change (todo h0 s' <= todo h0 st). etrans; [|exact Htodo]. by apply todo_mono.
    + rewrite (bind_step _ _ _ _ _ Hfe). by eauto.
  - (* Map *)
    cbv zeta. fold t.
    destruct (forEach_total (fun _ s => exists srcs_s es,
        inv h0 ((srcs ++ [a]) ++ srcs_s) pend1 s /\
        heap s !! t = Some (OMap es) /\ todo h0 s <= todo h0 st)
      (fun '(key, value) =>
         let* keyResult := deepCopy fuel key in
         let* valueResult := deepCopy fuel value in
         map_put t (data keyResult) (data valueResult)) entries []
      (State (heap st ++ [OMap []]) (<[a := VRef t]> (memo st))))
      as (st' & Hfe & _).
    + exists [], []. rewrite app_nil_r. split_and!.
      * by eapply inv_open; [done|exact Ho|].
      * simpl. unfold t. by rewrite lookup_app_r, Nat.sub_diag.
      * apply todo_mono, extends_open.
    + intros done [k v] rest s Hmem (srcs_s & es & Hi & Ht & Htodo).
      assert (Hin : (k, v) ∈ entries) by (simpl in Hmem; rewrite Hmem; set_solver).
      simpl in Hbelow. apply Forall_app in Hbelow as [Hbk Hbv].
      assert (Hk : k ∈ entries.*1) by by apply (list_elem_of_fmap_2 fst) in Hin.
      assert (Hv : v ∈ entries.*2) by by apply (list_elem_of_fmap_2 snd) in Hin.
      destruct (Hcall k s _ (todo h0 st) Hi)
        as (rk & s1 & srcs1 & Hrk & Hext1 & Hi1 & _).
      { by apply (proj1 (Forall_forall _ _) Hbk). }
      { done. }
      { apply Hchild; [|done]. simpl. set_solver. }
      rewrite (bind_step _ _ _ _ _ Hrk).
      destruct (Hcall v s1 _ (todo h0 st) Hi1)
        as (rv & s2 & srcs2 & Hrv & Hext2 & Hi2 & _).
      { by apply (proj1 (Forall_forall _ _) Hbv). }
      { etrans; [by apply todo_mono|done]. }
      { apply Hchild; [|done]. simpl. set_solver. }
      rewrite (bind_step _ _ _ _ _ Hrv).
      assert (Hext : extends s s2) by by eapply extends_trans.
      assert (Ht' : heap s2 !! t = Some (OMap es)).
      { eapply prefix_lookup_Some; [done|apply Hext]. }
      eexists. split; [by apply map_put_run|].
      exists ((srcs_s ++ srcs1) ++ srcs2). eexists. rewrite !(assoc_L (++)).
      split_and!.
      * apply inv_store; [done|by right].
      * simpl. apply list_lookup_insert_eq. by eapply lookup_lt_Some.
      * change (todo h0 s2 <= todo h0 st). etrans; [|exact Htodo]. by apply todo_mono.
    + rewrite (bind_step _ _ _ _ _ Hfe). by eauto.
  - destruct (memo st !! a) eqn:Hm; [by eauto|].
    destruct (Hgeneric eq_refl eq_refl) as (st' & Hfe).
    cbv zeta. rewrite (bind_step _ _ _ _ _ Hfe). by eauto.
  - destruct (memo st !! a) eqn:Hm; [by eauto|].
    destruct (Hgeneric eq_refl eq_refl) as (st' & Hfe).
    cbv zeta. rewrite (bind_step _ _ _ _ _ Hfe). by eauto.
Qed.

End Termination.

(** On a store without a cycle made of sets and maps only,
    [deepCopy(source)] returns. *)
Theorem deepClone_total h v :
  store_ok h -> unguarded_acyclic h -> below (length h) v ->
  exists fuel r st', deepClone fuel v h = Ret (r, st').
Proof.
  intros Hok (rank & Hrank) Hv.
  exists (need h rank (todo h (State h ∅)) v).
  by eapply (deepCopy_total h Hok rank Hrank _ v _ [] _ (inv_start h)).
Qed.

(** A store whose sets and maps are all empty has no cycle made of sets
    and maps only. *)
Lemma unguarded_acyclic_leaves h :
  Forall (fun o => generic o = true \/ visited o = []) h -> unguarded_acyclic h.
Proof.
  intros Hall. exists (fun _ => 0). intros x o y Ho Hg Hy.
  destruct (Forall_lookup_1 _ _ _ _ Hall Ho) as [?|Hv]; [congruence|].
  rewrite Hv in Hy. by apply elem_of_nil in Hy.
Qed.

(** The outermost call on an array or a plain object. *)
Lemma deepClone_root h root o fuel r st' :
  store_ok h -> h !! root = Some o -> generic o = true ->
  deepClone fuel (VRef root) h = Ret (r, st') ->
  exists srcs o',
    inv h srcs (fun _ => False) st' /\
    r = CopyResult true msg_generic (VRef (length h)) /\
    clone_of h srcs root (length h) /\
    heap st' !! length h = Some o' /\
    built (clone_of h srcs) (shared_clone h srcs) o (ownKeys o) o'.
Proof.
  intros Hok Ho Hg Hrun. unfold deepClone in Hrun.
  destruct fuel as [|fuel]; [done|].
  rewrite (deepCopy_ref _ _ o) in Hrun by done.
  cbn [memo heap] in Hrun. rewrite lookup_empty in Hrun.
  assert (Hrun' : bind (forEach (ownKeys o) (fun key =>
      let* v := get_prop root key in
      let* copyResult := deepCopy fuel v in
      put_prop (length h) key (data copyResult)))
    (fun _ => ret (CopyResult true msg_generic (VRef (length h))))
    (State (h ++ [empty_like o]) (<[root := VRef (length h)]> ∅)) = Ret (r, st')).
  { by destruct o. }
  apply bind_Ret in Hrun' as ([] & s & Hfe & [= <- <-]).
  eapply (generic_loop h Hok (deepCopy fuel) [] (fun _ => False) (State h ∅))
    in Hfe as (srcs' & o' & Hi & Ho' & Hb);
    [|by apply deepCopy_spec|apply inv_start|done..].
  exists (([] ++ [root]) ++ srcs'), o'. split_and!; try done.
  split; [done|]. by rewrite Nat.sub_diag.
Qed.

Lemma is_len_getv o k :
  is_len o k -> getv o k = Some (VPrim (PNumber (Z.of_nat (alen o)))).
Proof. intros [Ha ->]. by destruct o. Qed.

(** What the clone of a generic root holds under a key whose original
    value is an address. *)
Lemma built_ref Q shared o o' k s :
  built Q shared o (ownKeys o) o' -> generic o = true -> assignable k ->
  getv o k = Some (VRef s) ->
  exists c, getv o' k = Some (VRef c) /\ Q s c.
Proof.
  intros (_ & _ & Hdone & _) Hg Hk Hs.
  assert (Hin : k ∈ ownKeys o) by (apply ownKeys_getOwn; [done|by rewrite Hs]).
  assert (Hlen : ~ is_len o k) by (intros Hl%is_len_getv; congruence).
  specialize (Hdone k Hin Hlen Hk). rewrite Hs in Hdone.
  destruct (getv o' k) as [[q|c]|]; try done. by exists c.
Qed.

(** The two readings of one field pair of the root, in a returning call. *)
Lemma deepClone_two_fields h root o kx ky s fuel r st' :
  store_ok h -> h !! root = Some o -> generic o = true ->
  assignable kx -> assignable ky ->
  getv o kx = Some (VRef s) -> getv o ky = Some (VRef s) ->
  deepClone fuel (VRef root) h = Ret (r, st') ->
  exists srcs o' cx cy,
    inv h srcs (fun _ => False) st' /\
    built (clone_of h srcs) (shared_clone h srcs) o (ownKeys o) o' /\
    data r = VRef (length h) /\ heap st' !! length h = Some o' /\
    getv o' kx = Some (VRef cx) /\ getv o' ky = Some (VRef cy) /\
    clone_of h srcs s cx /\ clone_of h srcs s cy.
Proof.
  intros Hok Ho Hg Hkx Hky Hx Hy Hrun.
  destruct (deepClone_root _ _ _ _ _ _ Hok Ho Hg Hrun)
    as (srcs & o' & Hi & -> & _ & Ho' & Hb).
  destruct (built_ref _ _ _ _ _ _ Hb Hg Hkx Hx) as (cx & Hcx & Hsx).
  destruct (built_ref _ _ _ _ _ _ Hb Hg Hky Hy) as (cy & Hcy & Hsy).
  by exists srcs, o', cx, cy.
Qed.

(** X23: within one call, two fields of an array or plain object that
    hold the same array or plain object hold one and the same fresh clone
    of it in the result; the call returns whenever the store has no cycle
    made of sets and maps only. *)
Theorem shared_generic_cloned_once h root o kx ky s os :
  store_ok h -> Forall no_proto h -> Forall array_no_symbol h ->
  h !! root = Some o -> generic o = true ->
  getv o kx = Some (VRef s) -> getv o ky = Some (VRef s) ->
  h !! s = Some os -> generic os = true ->
  (forall fuel r st', deepClone fuel (VRef root) h = Ret (r, st') ->
     exists b o' c,
       data r = VRef b /\ heap st' !! b = Some o' /\ length h <= c /\
       getv o' kx = Some (VRef c) /\ getv o' ky = Some (VRef c) /\
       struct_eq (heap st') (VRef s) (VRef c)) /\
  (unguarded_acyclic h ->
     exists fuel r st', deepClone fuel (VRef root) h = Ret (r, st')).
Proof.
  intros Hok Hnp _ Ho Hg Hx Hy Hs Hgs.
  assert (Hkey : forall k, is_Some (getv o k) -> assignable k).
  { intros k Hk ->. apply (Forall_lookup_1 _ _ _ _ Hnp Ho).
    by apply ownKeys_getOwn. }
  assert (Hkx : assignable kx) by (apply Hkey; by rewrite Hx).
  assert (Hky : assignable ky) by (apply Hkey; by rewrite Hy).
  split.
  - intros fuel r st' Hrun.
    destruct (deepClone_two_fields _ _ _ _ _ _ _ _ _ Hok Ho Hg Hkx Hky Hx Hy Hrun)
      as (srcs & o' & cx & cy & Hi & _ & Hr & Ho' & Hcx & Hcy & Hsx & Hsy).
    pose proof (inv_generic _ _ _ _ Hi _ _ _ Hsx Hs Hgs) as H1.
    pose proof (inv_generic _ _ _ _ Hi _ _ _ Hsy Hs Hgs) as H2.
    assert (cx = cy) as <- by congruence.
    exists (length h), o', cx. split_and!; try done; [apply Hsx|].
    exists (clone_of h srcs). split; [by apply inv_simulation|done].
  - intros Hac. apply deepClone_total; [done..|]. simpl. by eapply lookup_lt_Some.
Qed.

(** ** Two references to one date, pattern, set or map *)

Lemma at_pos_generic o p x :
  generic o = true -> at_pos o p = Some x ->
  exists k, p = PKey k /\ getv o k = Some x.
Proof. destruct o, p; try done; intros _ H; by eexists. Qed.

Lemma array_resize_lookup_Some n j items x :
  mjoin (array_resize n items !! j) = Some x -> mjoin (items !! j) = Some x.
Proof.
  unfold array_resize. destruct (decide (n <= length items)).
  - destruct (take n items !! j) eqn:E; [|done].
    apply lookup_take_Some in E as [-> _]. done.
  - destruct (decide (j < length items)).
    + by rewrite lookup_app_l.
    + rewrite lookup_app_r by lia. intros H.
      destruct (replicate (n - length items) None !! (j - length items)) eqn:E;
        [|done].
      apply lookup_replicate in E as [-> _]. done.
Qed.

(** An assignment adds at most the assigned value, under the assigned
    key, to what an array or plain object holds. *)
Lemma put_at_pos o k w o' p c :
  put o k w = Ret o' -> generic o = true ->
  at_pos o' p = Some (VRef c) ->
  at_pos o p = Some (VRef c) \/ (p = PKey k /\ w = VRef c).
Proof.
  intros Hput Hg Hp.
  destruct (put_generic _ _ _ _ Hput Hg) as [Hg' Harr].
  destruct (at_pos_generic _ _ _ Hg' Hp) as (k' & -> & Hk').
  assert (Hold : getv o k' = Some (VRef c) -> at_pos o (PKey k') = Some (VRef c)).
  { by destruct o. }
  destruct (decide (k = KStr "__proto__")) as [->|Hkp].
  { rewrite put_proto in Hput. injection Hput as <-. left. by apply Hold. }
  destruct (decide (k' = k)) as [->|Hne].
  - destruct (decide (is_len o k)) as [[Ha ->]|Hlen].
    + assert (isArray o' = true) by congruence. by destruct o'.
    + right. split; [done|].
      rewrite (put_getv_eq _ _ _ _ Hput) in Hk' by done. by injection Hk'.
  - left. apply Hold.
    assert (Hnamed : forall items items' own s',
      getv (OArray items' own) (KStr s') = Some (VRef c) ->
      getv (OArray items own) (KStr s') = Some (VRef c)).
    { intros items items' own s'. unfold getv. simpl.
      by destruct (String.eqb s' "length"). }
    revert Hput. unfold put. rewrite decide_False by done.
    destruct o as [| | | |items own|own]; try done.
    + destruct k as [i|s|id].
      * intros [= <-]. destruct k' as [j|s'|id'].
        -- rewrite getv_array_idx in Hk'. rewrite getv_array_idx.
           rewrite array_put_lookup_ne in Hk' by congruence. done.
        -- by eapply Hnamed.
        -- done.
      * destruct (String.eqb_spec s "length") as [->|Hs].
        -- destruct w as [[]|]; try done. destruct (decide _); [|done].
           intros [= <-]. destruct k' as [j|s'|id'].
           ++ rewrite getv_array_idx in Hk'. rewrite getv_array_idx.
              by eapply array_resize_lookup_Some.
           ++ by eapply Hnamed.
           ++ done.
        -- intros [= <-]. destruct k' as [j|s'|id'].
           ++ done.
           ++ unfold getv in *. simpl in *.
              destruct (String.eqb s' "length"); [done|].
              by rewrite table_get_put_ne in Hk'.
           ++ unfold getv in *. simpl in *.
              by rewrite table_get_put_ne in Hk'.
      * intros [= <-]. destruct k' as [j|s'|id'].
        -- done.
        -- unfold getv in *. simpl in *.
           destruct (String.eqb s' "length"); [done|].
           by rewrite table_get_put_ne in Hk'.
        -- unfold getv in *. simpl in *.
           by rewrite table_get_put_ne in Hk'.
    + intros [= <-]. unfold getv in *. simpl in *.
      by rewrite table_get_put_ne in Hk'.
Qed.

(** [Set.prototype.add] adds at most one member, at the end. *)
Lemma set_add_at_pos res w p x :
  at_pos (OSet (if decide (w ∈ res) then res else res ++ [w])) p = Some x ->
  at_pos (OSet res) p = Some x \/ (p = PMember (length res) /\ x = w).
Proof.
  destruct (decide (w ∈ res)); [by left|].
  destruct p as [|i| |]; simpl; try done.
  intros [?|[Hle Hi]]%lookup_app_Some; [by left|right].
  destruct (i - length res) as [|j] eqn:E; simpl in Hi; [|done].
  injection Hi as ->. split; [f_equal; lia|done].
Qed.

(** [Map.prototype.set] writes at most one key, at the end, and one
    value. *)
Lemma entries_put_at_pos k v es :
  exists iv, forall p x,
    at_pos (OMap (entries_put k v es)) p = Some x ->
    at_pos (OMap es) p = Some x \/
    (p = PEntryKey (length es) /\ x = k) \/ (p = PEntryValue iv /\ x = v).
Proof.
  induction es as [|[k' v'] es (iv & IH)]; simpl.
  - exists 0. intros [|i|[|i]|[|i]] x; simpl; try done.
    + intros [= <-]. right. by left.
    + intros [= <-]. right. by right.
  - destruct (decide (k = k')) as [->|Hne].
    + exists 0. intros [|i|[|i]|[|i]] x; simpl; try done; try by left.
      intros [= <-]. right. by right.
    + exists (S iv). intros [|i|[|i]|[|i]] x; simpl; try done; try by left.
      * intros H. destruct (IH (PEntryKey i) x H) as [?|[[[= ->] ->]|[[=] _]]];
          [by left|right; by left].
      * intros H. destruct (IH (PEntryValue i) x H) as [?|[[[=] _]|[[= ->] ->]]];
          [by left|right; by right].
Qed.

Lemma closed_below hp a o x :
  closed hp -> hp !! a = Some o -> x ∈ visited o -> below (length hp) x.
Proof.
  intros Hc Ho Hx. destruct x as [q|c]; [done|]. simpl.
  destruct o as [| |ms|es|items own|own]; simpl in Hx.
  - by apply elem_of_nil in Hx.
  - by apply elem_of_nil in Hx.
  - apply list_elem_of_lookup in Hx as [i Hi]. by apply (Hc a _ (PMember i) c Ho).
  - apply elem_of_app in Hx as [Hx|Hx].
    + apply list_elem_of_fmap in Hx as ([k v] & Hk & Hin). simpl in Hk. subst k.
      apply list_elem_of_lookup in Hin as [i Hi].
      apply (Hc a _ (PEntryKey i) c Ho). simpl. by rewrite Hi.
    + apply list_elem_of_fmap in Hx as ([k v] & Hv & Hin). simpl in Hv. subst v.
      apply list_elem_of_lookup in Hin as [i Hi].
      apply (Hc a _ (PEntryValue i) c Ho). simpl. by rewrite Hi.
  - apply list_elem_of_fmap in Hx as (k & Hk & Hin).
    apply (Hc a _ (PKey k) c Ho). simpl. rewrite (ownKeys_get _ k) by done.
    by rewrite <- Hk.
  - apply list_elem_of_fmap in Hx as (k & Hk & Hin).
    apply (Hc a _ (PKey k) c Ho). simpl. rewrite (ownKeys_get _ k) by done.
    by rewrite <- Hk.
Qed.

Lemma unreferenced_frame hp hp' c oc :
  hp `prefix_of` hp' -> holds_generic_below (length hp) hp' ->
  hp !! c = Some oc -> generic oc = false ->
  unreferenced hp c -> unreferenced hp' c.
Proof.
  intros Hpre Hgb Hc Hg Hun t o p Ht Hp.
  destruct (decide (t < length hp)) as [Hlt|Hge].
  - destruct (lookup_lt_is_Some_2 hp t Hlt) as [o1 Ho1].
    pose proof (prefix_lookup_Some _ _ _ _ Ho1 Hpre) as Ho1'.
    assert (o1 = o) as -> by congruence. by apply (Hun t o p).
  - destruct (Hgb t o p c) as (oc' & Hoc' & Hg'); [lia|done|done| |].
    + by eapply lookup_lt_Some.
    + pose proof (prefix_lookup_Some _ _ _ _ Hc Hpre). congruence.
Qed.

Lemma fresh_result_frame m hp hp' w :
  hp `prefix_of` hp' -> holds_generic_below (length hp) hp' ->
  fresh_result m hp w -> fresh_result m hp' w.
Proof.
  intros Hpre Hgb. destruct w as [q|c]; [done|]. intros (oc & Hc & Hf).
  exists oc. split; [by eapply prefix_lookup_Some|].
  intros Hg. destruct (Hf Hg) as [Hm Hun]. split; [done|].
  by eapply unreferenced_frame.
Qed.

Lemma loop_inv_call n t s s' :
  loop_inv n t s -> heap s `prefix_of` heap s' ->
  closed (heap s') -> unaliased n (heap s') -> memo_generic s' ->
  holds_generic_below (length (heap s)) (heap s') ->
  loop_inv n t s'.
Proof.
  intros (Hn & Ht & _ & _ & _ & Hgb & Hun) Hpre Hc Hu Hm Hgb'.
  pose proof (prefix_length _ _ Hpre) as Hlen.
  split_and!; try done; [lia| |].
  - intros t' o p c Ht' Ho Hp Hlt.
    destruct (decide (t' < length (heap s))) as [Hlt'|Hge].
    + destruct (lookup_lt_is_Some_2 (heap s) t' Hlt') as [o1 Ho1].
      pose proof (prefix_lookup_Some _ _ _ _ Ho1 Hpre) as Ho1'.
      assert (o1 = o) as -> by congruence.
      destruct (Hgb t' o p c Ht' Ho1 Hp Hlt) as (oc & Hoc & Hg).
      exists oc. split; [by eapply prefix_lookup_Some|done].
    + apply (Hgb' t' o p c); [lia|done|done|lia].
  - intros o Ho Hg.
    destruct (lookup_lt_is_Some_2 (heap s) t Ht) as [o1 Ho1].
    pose proof (prefix_lookup_Some _ _ _ _ Ho1 Hpre) as Ho1'.
    assert (o1 = o) as -> by congruence.
    eapply unreferenced_frame; [done|done|exact Ho1|done|]. by eapply Hun.
Qed.

(** Writing to the container: the places of the new object are those of
    the old one and the places [ws] just written. *)
Lemma loop_inv_store n t s o' o'' (ws : list (pos * value)) lb :
  loop_inv n t s -> heap s !! t = Some o' -> generic o'' = generic o' ->
  t < lb ->
  (forall p c, at_pos o'' p = Some (VRef c) ->
     at_pos o' p = Some (VRef c) \/ (p, VRef c) ∈ ws) ->
  (forall p c, (p, VRef c) ∈ ws ->
     fresh_result lb (heap s) (VRef c) /\
     forall oc, heap s !! c = Some oc -> generic oc = false ->
       forall p', (p', VRef c) ∈ ws -> p' = p) ->
  loop_inv n t (State (<[t := o'']> (heap s)) (memo s)).
Proof.
  intros (Hn & Ht & Hc & Hu & Hm & Hgb & Hun) Ho' Hkind Hlb Hpos Hws.
  (* a place of the new store is a place of the old one or a written one *)
  assert (Hplace : forall t1 o1 p c,
    <[t := o'']> (heap s) !! t1 = Some o1 -> at_pos o1 p = Some (VRef c) ->
    (exists o0, heap s !! t1 = Some o0 /\ at_pos o0 p = Some (VRef c)) \/
    (t1 = t /\ (p, VRef c) ∈ ws)).
  { intros t1 o1 p c [[-> [<- _]]|[Hne H1]]%list_lookup_insert_Some Hp.
    - destruct (Hpos p c Hp) as [?|?]; [left; by eauto|by right].
    - left. by eauto. }
  (* the kind of an object is the same in the two stores *)
  assert (Hsame : forall c oc, <[t := o'']> (heap s) !! c = Some oc ->
    exists oc0, heap s !! c = Some oc0 /\ generic oc0 = generic oc).
  { intros c oc [[-> [<- _]]|[Hne H1]]%list_lookup_insert_Some; by eauto. }
  assert (Hsame' : forall c oc, heap s !! c = Some oc ->
    exists oc1, <[t := o'']> (heap s) !! c = Some oc1 /\ generic oc1 = generic oc).
  { intros c oc Hoc. destruct (decide (c = t)) as [->|Hne].
    - exists o''. split; [by apply list_lookup_insert_eq|congruence].
    - exists oc. by rewrite list_lookup_insert_ne. }
  split_and!; cbn [heap memo]; try done.
  - by rewrite length_insert.
  - intros t1 o1 p c H1 Hp. rewrite length_insert.
    destruct (Hplace _ _ _ _ H1 Hp) as [(o0 & H0 & Hp0)|[-> Hin]].
    + by eapply Hc.
    + destruct (Hws p c Hin) as [(oc & Hoc & _) _]. by eapply lookup_lt_Some.
  - intros c oc t1 o1 p1 t2 o2 p2 Hnc Hoc Hg H1 Hp1 H2 Hp2.
    destruct (Hsame _ _ Hoc) as (oc0 & Hoc0 & Hk0).
    assert (Hg0 : generic oc0 = false) by congruence.
    destruct (Hplace _ _ _ _ H1 Hp1) as [(o10 & H10 & Hp10)|[-> Hin1]],
             (Hplace _ _ _ _ H2 Hp2) as [(o20 & H20 & Hp20)|[-> Hin2]].
    + by eapply (Hu c oc0 t1 o10 p1 t2 o20 p2).
    + destruct (Hws p2 c Hin2) as [(oc' & Hoc' & Hf) _].
      assert (oc' = oc0) as -> by congruence.
      destruct (Hf Hg0) as [_ Hunr]. by destruct (Hunr t1 o10 p1).
    + destruct (Hws p1 c Hin1) as [(oc' & Hoc' & Hf) _].
      assert (oc' = oc0) as -> by congruence.
      destruct (Hf Hg0) as [_ Hunr]. by destruct (Hunr t2 o20 p2).
    + split; [done|]. destruct (Hws p2 c Hin2) as [_ Huniq].
      by apply (Huniq oc0).
  - destruct Hm as [Hmk Hm]. split.
    { intros a w Hw. cbn [heap memo] in *. rewrite length_insert. by eapply Hmk. }
    cbn [heap memo]. intros a oa w Ha Hga Hw.
    destruct (Hsame _ _ Ha) as (oa0 & Ha0 & Hka).
    destruct (Hm a oa0 w Ha0) as (t' & ot & -> & Hot & Hgt); [congruence|done|].
    destruct (Hsame' _ _ Hot) as (ot1 & Hot1 & Hk1).
    exists t', ot1. split_and!; [done|done|congruence].
  - intros t1 o1 p c Ht1 H1 Hp Hlt.
    destruct (Hplace _ _ _ _ H1 Hp) as [(o0 & H0 & Hp0)|[-> Hin]].
    + destruct (Hgb t1 o0 p c Ht1 H0 Hp0 Hlt) as (oc & Hoc & Hg).
      destruct (Hsame' _ _ Hoc) as (oc1 & Hoc1 & Hk1).
      exists oc1. split; [done|congruence].
    + destruct (Hws p c Hin) as [(oc & Hoc & Hf) _].
      destruct (generic oc) eqn:Hg; [|destruct (Hf eq_refl); lia].
      destruct (Hsame' _ _ Hoc) as (oc1 & Hoc1 & Hk1).
      exists oc1. split; [done|congruence].
  - intros o Ho Hg t1 o1 p H1 Hp.
    rewrite list_lookup_insert_eq in Ho by done. injection Ho as <-.
    destruct (Hplace _ _ _ _ H1 Hp) as [(o0 & H0 & Hp0)|[-> Hin]].
    + by apply (Hun o' Ho' ltac:(congruence) t1 o0 p).
    + destruct (Hws p t Hin) as [(oc & Hoc & Hf) _].
      assert (oc = o') as -> by congruence.
      destruct Hf; [congruence|lia].
Qed.

(** Allocating a container that holds no address yet. *)
Lemma loop_inv_alloc n hp o0 m' :
  n <= length hp -> closed hp -> unaliased n hp ->
  (forall p c, at_pos o0 p <> Some (VRef c)) ->
  memo_generic (State (hp ++ [o0]) m') ->
  loop_inv n (length hp) (State (hp ++ [o0]) m').
Proof.
  intros Hn Hc Hu Hempty Hm.
  assert (Hold : forall t o p c, (hp ++ [o0]) !! t = Some o ->
    at_pos o p = Some (VRef c) -> hp !! t = Some o).
  { intros t o p c [?|[_ Hl]]%lookup_app_Some Hp; [done|].
    destruct (t - length hp); simpl in Hl; [|done].
    injection Hl as <-. by destruct (Hempty p c). }
  split_and!; simpl; try done.
  - rewrite length_app. simpl. lia.
  - intros t o p c Ht Hp. rewrite length_app. simpl.
    pose proof (Hc t o p c (Hold _ _ _ _ Ht Hp) Hp). lia.
  - intros c oc t1 o1 p1 t2 o2 p2 Hnc Hoc Hg H1 Hp1 H2 Hp2.
    pose proof (Hold _ _ _ _ H1 Hp1) as H1'.
    pose proof (Hold _ _ _ _ H2 Hp2) as H2'.
    pose proof (Hc _ _ _ _ H1' Hp1) as Hlt.
    apply (Hu c oc t1 o1 p1 t2 o2 p2); try done.
    by rewrite lookup_app_l in Hoc.
  - intros t o p c Ht Ho Hp Hlt.
    pose proof (Hold _ _ _ _ Ho Hp) as Ho'. apply lookup_lt_Some in Ho'. lia.
  - intros o Ho Hg t o1 p H1 Hp.
    pose proof (Hold _ _ _ _ H1 Hp) as H1'.
    pose proof (Hc _ _ _ _ H1' Hp). lia.
Qed.

Lemma memo_generic_open st a oa o0 :
  memo_generic st -> heap st !! a = Some oa ->
  (generic oa = true -> generic o0 = true) ->
  memo_generic (State (heap st ++ [o0]) (<[a := VRef (length (heap st))]> (memo st))).
Proof.
  intros [Hmk Hm] Ha Hk. split; simpl.
  { intros a' w. rewrite lookup_insert, length_app. simpl.
    destruct (decide (a = a')) as [<-|Hne].
    - intros _. apply lookup_lt_Some in Ha. lia.
    - intros Hw%Hmk. lia. }
  intros a' oa' w Ha' Hg Hw.
  rewrite lookup_insert in Hw. destruct (decide (a = a')) as [<-|Hne].
  - injection Hw as <-. exists (length (heap st)), o0. split_and!; [done| |].
    + by rewrite lookup_app_r, Nat.sub_diag.
    + apply Hk. rewrite lookup_app_l in Ha' by (by eapply lookup_lt_Some).
      congruence.
  - pose proof (Hmk _ _ Hw) as Hlt. rewrite lookup_app_l in Ha' by done.
    destruct (Hm a' oa' w Ha' Hg Hw) as (t & ot & -> & Hot & Hgt).
    exists t, ot. split_and!; [done|by apply lookup_app_l_Some|done].
Qed.

Lemma memo_generic_alloc st o0 :
  memo_generic st -> memo_generic (State (heap st ++ [o0]) (memo st)).
Proof.
  intros [Hmk Hm]. split; simpl.
  { intros a' w Hw%Hmk. rewrite length_app. lia. }
  intros a' oa' w Ha' Hg Hw.
  pose proof (Hmk _ _ Hw) as Hlt. rewrite lookup_app_l in Ha' by done.
  destruct (Hm a' oa' w Ha' Hg Hw) as (t & ot & -> & Hot & Hgt).
  exists t, ot. split_and!; [done|by apply lookup_app_l_Some|done].
Qed.

Lemma fresh_result_weaken m m' hp w :
  m <= m' -> fresh_result m' hp w -> fresh_result m hp w.
Proof.
  intros Hle. destruct w as [q|c]; [done|]. intros (oc & Hc & Hf).
  exists oc. split; [done|]. intros Hg. destruct (Hf Hg). split; [lia|done].
Qed.

Lemma at_pos_empty_like o p c : at_pos (empty_like o) p <> Some (VRef c).
Proof.
  unfold empty_like. destruct (isArray o), p as [[i|s|id]| | |]; try done.
  cbn [at_pos]. unfold getv, getOwn. by destruct (String.eqb s "length").
Qed.

(** A call leaves no date, pattern, set or map that it has allocated
    held at two places, and returns such an object before any place
    holds it. *)
Lemma deepCopy_unaliased n fuel : forall v st r st',
  n <= length (heap st) -> below (length (heap st)) v ->
  closed (heap st) -> unaliased n (heap st) -> memo_generic st ->
  deepCopy fuel v st = Ret (r, st') ->
  closed (heap st') /\ unaliased n (heap st') /\ memo_generic st' /\
  holds_generic_below (length (heap st)) (heap st') /\
  fresh_result (length (heap st)) (heap st') (data r).
Proof.
  induction fuel as [|fuel IH]; intros v st r st' Hn Hv Hc Hu Hm Hrun;
    [discriminate|].
  assert (Hnone : holds_generic_below (length (heap st)) (heap st)).
  { intros t o q c Ht Ho. apply lookup_lt_Some in Ho. lia. }
  destruct v as [p|a].
  { rewrite deepCopy_prim in Hrun. injection Hrun as <- <-. by split_and!. }
  simpl in Hv. destruct (lookup_lt_is_Some_2 _ _ Hv) as [o Ho].
  rewrite (deepCopy_ref _ _ _ _ Ho) in Hrun. cbv zeta in Hrun.
  (* from the invariant at the end of a loop to the result *)
  assert (Hend : forall s,
    loop_inv n (length (heap st)) s ->
    closed (heap s) /\ unaliased n (heap s) /\ memo_generic s /\
    holds_generic_below (length (heap st)) (heap s) /\
    fresh_result (length (heap st)) (heap s) (VRef (length (heap st)))).
  { intros s (Hn' & Ht & Hc' & Hu' & Hm' & Hgb & Hun). split_and!; try done.
    destruct (lookup_lt_is_Some_2 _ _ Ht) as [ot Hot].
    exists ot. split; [done|]. intros Hg. split; [done|]. by eapply Hun. }
  (* a recursive call made by a loop *)
  assert (Hcall : forall x s c s',
    loop_inv n (length (heap st)) s -> heap st `prefix_of` heap s ->
    x ∈ visited o -> deepCopy fuel x s = Ret (c, s') ->
    loop_inv n (length (heap st)) s' /\ heap s `prefix_of` heap s' /\
    holds_generic_below (length (heap s)) (heap s') /\
    fresh_result (length (heap s)) (heap s') (data c)).
  { intros x s c s' HL Hpre Hx Hr.
    assert (Hxb : below (length (heap s)) x).
    { eapply below_mono; [|by eapply closed_below]. by apply prefix_length. }
    pose proof HL as (Hn' & Ht & Hc' & Hu' & Hm' & _).
    destruct (IH x s c s') as (H1 & H2 & H3 & H4 & H5); try done; [lia|].
    pose proof (deepCopy_frame _ _ _ _ _ Hr) as Hfr.
    split_and!; try done. by eapply loop_inv_call. }
  (* the loop of the branch for arrays and plain objects *)
  assert (Hgen : generic o = true -> forall r st',
    match memo st !! a with
    | Some t => Ret (CopyResult true msg_cycle t, st)
    | None =>
        bind (forEach (ownKeys o) (fun key =>
                let* v := get_prop a key in
                let* copyResult := deepCopy fuel v in
                put_prop (length (heap st)) key (data copyResult)))
             (fun _ => ret (CopyResult true msg_generic (VRef (length (heap st)))))
             (State (heap st ++ [empty_like o])
                    (<[a := VRef (length (heap st))]> (memo st)))
    end = Ret (r, st') ->
    closed (heap st') /\ unaliased n (heap st') /\ memo_generic st' /\
    holds_generic_below (length (heap st)) (heap st') /\
    fresh_result (length (heap st)) (heap st') (data r)).
  { intros Hg r0 st0 Hrun0. destruct (memo st !! a) as [w|] eqn:Hw.
    { injection Hrun0 as <- <-. split_and!; try done. simpl.
      destruct (proj2 Hm a o w Ho Hg Hw) as (t' & ot & -> & Hot & Hgt).
      exists ot. split; [done|]. congruence. }
    apply bind_Ret in Hrun0 as ([] & s & Hfe & [= <- <-]). simpl.
    apply Hend.
    refine (proj1 (proj2 (forEach_Ret (fun _ s =>
        heap st `prefix_of` heap s /\ loop_inv n (length (heap st)) s /\
        exists o', heap s !! length (heap st) = Some o' /\ generic o' = true)
      _ (ownKeys o) [] _ s _ _ Hfe))).
    - split_and!; simpl.
      + by apply prefix_app_r.
      + apply loop_inv_alloc; try done; [apply at_pos_empty_like|].
        eapply memo_generic_open; [done|exact Ho|]. intros _. by destruct o.
      + exists (empty_like o). split; [by rewrite lookup_app_r, Nat.sub_diag|].
        by destruct o.
    - intros done k rest s1 s2 Hmem (Hpre & HL & o' & Ho' & Hg').
      intros (x & s3 & [-> (o2 & Ho2 & ->)]%get_prop_Ret
              & (c & s4 & Hcall4 & Hp)%bind_Ret)%bind_Ret.
      assert (Hk : k ∈ ownKeys o) by (simpl in Hmem; rewrite Hmem; set_solver).
      pose proof (prefix_lookup_Some _ _ _ _ Ho Hpre) as Ho1.
      assert (o2 = o) as -> by congruence.
      assert (Hx : get o k ∈ visited o).
      { destruct o; try done; by apply list_elem_of_fmap_2. }
      destruct (Hcall _ _ _ _ HL Hpre Hx Hcall4) as (HL4 & Hpre4 & Hgb4 & Hf4).
      apply put_prop_Ret in Hp as (o1 & o1' & Ho4 & Hput & ->).
      pose proof (prefix_lookup_Some _ _ _ _ Ho' Hpre4) as Ho4'.
      assert (o1 = o') as -> by congruence.
      destruct (put_generic _ _ _ _ Hput Hg') as [Hg'' _].
      split_and!; simpl.
      + apply prefix_insert_ge; [by etrans|done].
      + apply (loop_inv_store n _ s4 o' o1' [(PKey k, data c)] (length (heap s1)));
          try done; [congruence|apply HL| |].
        * intros p c' Hp'.
          destruct (put_at_pos _ _ _ _ _ _ Hput Hg' Hp') as [?|[-> ->]];
            [by left|right; by apply list_elem_of_singleton].
        * intros p c' [= -> Hd]%list_elem_of_singleton. rewrite <- Hd in Hf4.
          split; [done|]. by intros oc _ _ p' [= ->]%list_elem_of_singleton.
      + exists o1'. split; [|done]. apply list_lookup_insert_eq.
        by eapply lookup_lt_Some. }
  destruct o as [tm|src fl li|members|entries|items own|own].
  - injection Hrun as <- <-.
    apply (Hend (State (heap st ++ [ODate tm]) (memo st))).
    apply loop_inv_alloc; try done. by apply memo_generic_alloc.
  - injection Hrun as <- <-. rewrite insert_snoc.
    apply (Hend (State (heap st ++ [ORegExp src fl li]) (memo st))).
    apply loop_inv_alloc; try done. by apply memo_generic_alloc.
  - apply bind_Ret in Hrun as ([] & s & Hfe & [= <- <-]). simpl.
    apply Hend.
    refine (proj1 (proj2 (forEach_Ret (fun _ s =>
        heap st `prefix_of` heap s /\ loop_inv n (length (heap st)) s /\
        exists res, heap s !! length (heap st) = Some (OSet res))
      _ members [] _ s _ _ Hfe))).
    + split_and!; simpl.
      * by apply prefix_app_r.
      * apply loop_inv_alloc; [done|done|done|by intros [] ?|].
        eapply memo_generic_open; [done|exact Ho|done].
      * exists []. by rewrite lookup_app_r, Nat.sub_diag.
    + intros done x rest s1 s2 Hmem (Hpre & HL & res & Hres).
      intros (c & s4 & Hcall4 & (ms & Hms & ->)%set_add_Ret)%bind_Ret.
      assert (Hx : x ∈ visited (OSet members)).
      { simpl. simpl in Hmem. rewrite Hmem. set_solver. }
      destruct (Hcall _ _ _ _ HL Hpre Hx Hcall4) as (HL4 & Hpre4 & Hgb4 & Hf4).
      split_and!; simpl.
      * apply prefix_insert_ge; [by etrans|done].
      * apply (loop_inv_store n _ s4 (OSet ms) _
                 [(PMember (length ms), data c)] (length (heap s1)));
          try done; [apply HL| |].
        -- intros p c' Hp'.
           destruct (set_add_at_pos _ _ _ _ Hp') as [?|[-> Hd]]; [by left|].
           right. rewrite Hd. by apply list_elem_of_singleton.
        -- intros p c' [= -> Hd]%list_elem_of_singleton. rewrite <- Hd in Hf4.
           split; [done|]. by intros oc _ _ p' [= ->]%list_elem_of_singleton.
      * eexists. apply list_lookup_insert_eq. by eapply lookup_lt_Some.
  - apply bind_Ret in Hrun as ([] & s & Hfe & [= <- <-]). simpl.
    apply Hend.
    refine (proj1 (proj2 (forEach_Ret (fun _ s =>
        heap st `prefix_of` heap s /\ loop_inv n (length (heap st)) s /\
        exists es, heap s !! length (heap st) = Some (OMap es))
      _ entries [] _ s _ _ Hfe))).
    + split_and!; simpl.
      * by apply prefix_app_r.
      * apply loop_inv_alloc; [done|done|done|by intros [] ?|].
        eapply memo_generic_open; [done|exact Ho|done].
      * exists []. by rewrite lookup_app_r, Nat.sub_diag.
    + intros done [k x] rest s1 s2 Hmem (Hpre & HL & es0 & Hes0).
      intros (ck & s3 & Hcall3 & (cv & s4 & Hcall4 & Hp)%bind_Ret)%bind_Ret.
      apply map_put_Ret in Hp as (es & Hes & ->).
      assert (Hin : (k, x) ∈ entries) by (simpl in Hmem; rewrite Hmem; set_solver).
      assert (Hk : k ∈ visited (OMap entries)).
      { simpl. apply elem_of_app. left. by apply (list_elem_of_fmap_2 fst) in Hin. }
      assert (Hx : x ∈ visited (OMap entries)).
      { simpl. apply elem_of_app. right. by apply (list_elem_of_fmap_2 snd) in Hin. }
      destruct (Hcall _ _ _ _ HL Hpre Hk Hcall3) as (HL3 & Hpre3 & Hgb3 & Hf3).
      assert (Hpre13 : heap st `prefix_of` heap s3) by (by etrans).
      destruct (Hcall _ _ _ _ HL3 Hpre13 Hx Hcall4) as (HL4 & Hpre4 & Hgb4 & Hf4).
      pose proof (fresh_result_frame _ _ _ _ Hpre4 Hgb4 Hf3) as Hf3'.
      pose proof (prefix_length _ _ Hpre3) as Hlen3.
      destruct (entries_put_at_pos (data ck) (data cv) es) as (iv & Hiv).
      split_and!; simpl.
      * apply prefix_insert_ge; [by etrans|done].
      * apply (loop_inv_store n _ s4 (OMap es) _
                 [(PEntryKey (length es), data ck); (PEntryValue iv, data cv)]
                 (length (heap s1)));
          try done; [apply HL| |].
        -- intros p c' Hp'.
           destruct (Hiv _ _ Hp') as [?|[[-> Hd]|[-> Hd]]]; [by left| |];
             right; rewrite Hd; set_solver.
        -- intros p c' Hin'. split.
           ++ apply elem_of_cons in Hin' as [[= -> Hd]|[= -> Hd]%list_elem_of_singleton].
              ** by rewrite <- Hd in Hf3'.
              ** rewrite <- Hd in Hf4. eapply fresh_result_weaken; [|exact Hf4]. lia.
           ++ intros oc Hoc Hgc p' Hin''.
              assert (Hboth : data ck = VRef c' -> data cv = VRef c' -> False).
              { intros Hd1 Hd2. rewrite Hd1 in Hf3. rewrite Hd2 in Hf4.
                destruct Hf3 as (oc3 & Hoc3 & _). destruct Hf4 as (oc4 & Hoc4 & Hf4).
                assert (oc4 = oc) as -> by congruence.
                destruct (Hf4 Hgc) as [Hge _]. apply lookup_lt_Some in Hoc3. lia. }
              apply elem_of_cons in Hin' as [[= -> Hd]|[= -> Hd]%list_elem_of_singleton];
              apply elem_of_cons in Hin'' as [[= -> Hd']|[= -> Hd']%list_elem_of_singleton];
                try done; by destruct Hboth.
      * eexists. apply list_lookup_insert_eq. by eapply lookup_lt_Some.
  - by apply Hgen.
  - by apply Hgen.
Qed.

Lemma at_pos_visited o p x : at_pos o p = Some x -> x ∈ visited o.
Proof.
  destruct o as [| |ms|es|items own|own], p as [k|i|i|i]; simpl; try done.
  - apply list_elem_of_lookup_2.
  - intros H. apply elem_of_app. left.
    destruct (es !! i) as [[k v]|] eqn:E; [|done]. injection H as <-.
    apply list_elem_of_lookup_2 in E. by apply (list_elem_of_fmap_2 fst) in E.
  - intros H. apply elem_of_app. right.
    destruct (es !! i) as [[k v]|] eqn:E; [|done]. injection H as <-.
    apply list_elem_of_lookup_2 in E. by apply (list_elem_of_fmap_2 snd) in E.
  - intros H. assert (Hk : k ∈ ownKeys (OArray items own)).
    { apply ownKeys_getOwn; [done|]. by rewrite H. }
    rewrite (ownKeys_get _ k) in H by done. injection H as <-.
    by apply list_elem_of_fmap_2.
  - intros H. assert (Hk : k ∈ ownKeys (ORecord own)).
    { apply ownKeys_getOwn; [done|]. by rewrite H. }
    rewrite (ownKeys_get _ k) in H by done. injection H as <-.
    by apply list_elem_of_fmap_2.
Qed.

Lemma store_ok_closed h : store_ok h -> closed h.
Proof.
  intros Hok t o p c Ho Hp.
  destruct (store_ok_lookup _ _ _ Hok Ho) as [_ Hb].
  by apply (proj1 (Forall_forall _ _) Hb (VRef c)), at_pos_visited with p.
Qed.

(** What the outermost call leaves: no date, pattern, set or map that it
    has allocated is held at two places. *)
Lemma deepClone_unaliased h fuel v r st' :
  store_ok h -> below (length h) v -> deepClone fuel v h = Ret (r, st') ->
  unaliased (length h) (heap st').
Proof.
  intros Hok Hv Hrun.
  apply (deepCopy_unaliased (length h) fuel v (State h ∅) r st'); try done.
  - by apply store_ok_closed.
  - intros c oc t1 o1 p1 t2 o2 p2 Hc Hoc. apply lookup_lt_Some in Hoc. simpl in *. lia.
Qed.

(** Matching objects hold related addresses at the same places. *)
Lemma obj_match_at_pos Q o o' p s :
  obj_match Q o o' -> at_pos o p = Some (VRef s) ->
  exists c, at_pos o' p = Some (VRef c) /\ Q s c.
Proof.
  unfold obj_match.
  destruct o as [| |ms|es|items own|own], o' as [| |ms'|es'|items' own'|own'],
    p as [k|i|i|i]; simpl; try done.
  - intros H Hi. destruct (Forall2_lookup_l _ _ _ _ _ H Hi) as (w & Hw & Hr).
    destruct w as [|c]; [done|]. by exists c.
  - intros H Hi. destruct (es !! i) as [[k v]|] eqn:E; [|done].
    simpl in Hi. injection Hi as ->.
    destruct (Forall2_lookup_l _ _ _ _ _ H E) as ([k' v'] & Hw & Hr1 & Hr2).
    rewrite Hw. simpl in *. destruct k' as [|c]; [done|]. by exists c.
  - intros H Hi. destruct (es !! i) as [[k v]|] eqn:E; [|done].
    simpl in Hi. injection Hi as ->.
    destruct (Forall2_lookup_l _ _ _ _ _ H E) as ([k' v'] & Hw & Hr1 & Hr2).
    rewrite Hw. simpl in *. destruct v' as [|c]; [done|]. by exists c.
  - intros H Hk. pose proof (proj1 (H k) I) as Hr. rewrite Hk in Hr.
    destruct (getv (OArray items' own') k) as [[|c]|]; try done. by exists c.
  - intros H Hk. pose proof (proj1 (H k) I) as Hr. rewrite Hk in Hr.
    destruct (getv (ORecord own') k) as [[|c]|]; try done. by exists c.
Qed.

(** C10: in the store that a returning call leaves, every object that the
    call has allocated is the clone of one original ([srcs] lists the
    originals in allocation order) and holds, place by place, the clones
    of what its original holds.  An array or plain object has a single
    clone, shared by all the places that hold it.  A date, pattern, set or
    map has another clone for each reference to it: where two places of
    the originals hold the same date, pattern, set or map, the
    corresponding places of the clones hold two different clones of it;
    more generally, two different places of the resulting store never
    hold the same clone of such an object.  These kinds are dispatched
    before the memo is looked up.  The call returns whenever the store
    has no cycle made of sets and maps only. *)
Theorem exotic_clones_never_shared h v :
  store_ok h -> Forall no_proto h -> Forall array_no_symbol h ->
  below (length h) v ->
  (forall fuel r st', deepClone fuel v h = Ret (r, st') ->
     exists srcs,
       simulation (heap st') (clone_of h srcs) /\
       relv (clone_of h srcs) v (data r) /\
       (forall x ox t t', h !! x = Some ox -> generic ox = true ->
          clone_of h srcs x t -> clone_of h srcs x t' -> t = t') /\
       (forall s os x1 o1 p1 t1 x2 o2 p2 t2,
          h !! s = Some os -> generic os = false ->
          h !! x1 = Some o1 -> at_pos o1 p1 = Some (VRef s) ->
          clone_of h srcs x1 t1 ->
          h !! x2 = Some o2 -> at_pos o2 p2 = Some (VRef s) ->
          clone_of h srcs x2 t2 ->
          (t1, p1) <> (t2, p2) ->
          exists o1' o2' c1 c2,
            heap st' !! t1 = Some o1' /\ at_pos o1' p1 = Some (VRef c1) /\
            heap st' !! t2 = Some o2' /\ at_pos o2' p2 = Some (VRef c2) /\
            clone_of h srcs s c1 /\ clone_of h srcs s c2 /\ c1 <> c2) /\
       (forall x ox c1 c2 t1 o1 p1 t2 o2 p2,
          h !! x = Some ox -> generic ox = false ->
          clone_of h srcs x c1 -> clone_of h srcs x c2 ->
          heap st' !! t1 = Some o1 -> at_pos o1 p1 = Some (VRef c1) ->
          heap st' !! t2 = Some o2 -> at_pos o2 p2 = Some (VRef c2) ->
          (t1, p1) <> (t2, p2) -> c1 <> c2)) /\
  (unguarded_acyclic h ->
     exists fuel r st', deepClone fuel v h = Ret (r, st')).
Proof.
  intros Hok Hnp _ Hv. split; [|intros Hac; by apply deepClone_total].
  intros fuel r st' Hrun.
  destruct (deepClone_inv _ _ _ _ _ Hok Hv Hrun) as (srcs & Hinv & _ & Hrel & _).
  pose proof (deepClone_unaliased _ _ _ _ _ Hok Hv Hrun) as Hun.
  pose proof (inv_simulation _ _ _ Hnp Hinv) as Hsim.
  assert (Hdist : forall x ox c1 c2 t1 o1 p1 t2 o2 p2,
    h !! x = Some ox -> generic ox = false ->
    clone_of h srcs x c1 -> clone_of h srcs x c2 ->
    heap st' !! t1 = Some o1 -> at_pos o1 p1 = Some (VRef c1) ->
    heap st' !! t2 = Some o2 -> at_pos o2 p2 = Some (VRef c2) ->
    (t1, p1) <> (t2, p2) -> c1 <> c2).
  { intros x ox c1 c2 t1 o1 p1 t2 o2 p2 Hx Hg Hc1 Hc2 H1 Hp1 H2 Hp2 Hne ->.
    destruct (inv_done _ _ _ _ Hinv _ _ Hc1) as (o & oc & Ho & Hoc & Hm); [tauto|].
    assert (o = ox) as -> by congruence.
    assert (Hgc : generic oc = false) by (by destruct ox, oc).
    destruct (Hun c2 oc t1 o1 p1 t2 o2 p2) as [-> ->]; try done.
    apply Hc1. }
  exists srcs. split_and!; [done|done| | |done].
  - intros x ox t t' Hx Hg Ht Ht'.
    pose proof (inv_generic _ _ _ _ Hinv _ _ _ Ht Hx Hg) as H1.
    pose proof (inv_generic _ _ _ _ Hinv _ _ _ Ht' Hx Hg) as H2. congruence.
  - intros s os x1 o1 p1 t1 x2 o2 p2 t2 Hs Hg H1 Hp1 Hc1 H2 Hp2 Hc2 Hne.
    pose proof (inv_prefix _ _ _ _ Hinv) as Hpre.
    destruct (Hsim _ _ Hc1) as (a1 & o1' & Ha1 & Ho1' & Hm1).
    destruct (Hsim _ _ Hc2) as (a2 & o2' & Ha2 & Ho2' & Hm2).
    rewrite (prefix_lookup_Some _ _ _ _ H1 Hpre) in Ha1. injection Ha1 as <-.
    rewrite (prefix_lookup_Some _ _ _ _ H2 Hpre) in Ha2. injection Ha2 as <-.
    destruct (obj_match_at_pos _ _ _ _ _ Hm1 Hp1) as (c1 & Hq1 & Hs1).
    destruct (obj_match_at_pos _ _ _ _ _ Hm2 Hp2) as (c2 & Hq2 & Hs2).
    exists o1', o2', c1, c2. split_and!; try done.
    by eapply (Hdist s os c1 c2 t1 o1' p1 t2 o2' p2).
Qed.

(** ** The scenarios, evaluated *)

(** C1: [deepCopy(s)] for [s = new Set(); s.add(s)] runs out of every
    call depth: a finite cyclic input on which the copy does not
    terminate. *)
Theorem self_containing_set_overflows fuel :
  deepClone fuel (VRef 0) store_self_set = OutOfFuel.
Proof. by apply (deepCopy_self_member_set_overflows fuel _ 0 []). Qed.

(** C4: [deepCopy(m)] for [m = new Map(); m.set("self", m)] returns no
    result at any call depth, hence no [status] at all. *)
Theorem self_valued_map_overflows fuel :
  deepClone fuel (VRef 0) store_self_map = OutOfFuel.
Proof. by apply (deepCopy_self_valued_map_overflows fuel _ 0 (PString "self") []). Qed.

(** C9: [deepCopy(src)] for [src = {a: s}], where the set [s] has itself
    as a member, allocates the container for [src] and then runs out of
    every call depth while cloning the value under [a]: no clone is
    returned. *)
Theorem record_of_self_set_overflows fuel :
  deepClone fuel (VRef 0) store_record_of_self_set = OutOfFuel.
Proof.
  destruct fuel as [|fuel]; [done|]. unfold deepClone.
  rewrite (deepCopy_ref _ _ (ORecord [field "a" (VRef 1)])) by done.
  cbn [memo heap]. rewrite lookup_empty. cbv zeta. cbn [ownKeys fmap list_fmap fst field forEach].
  do 2 apply bind_OutOfFuel.
  rewrite (get_prop_step _ (ORecord [field "a" (VRef 1)])) by done.
  apply bind_OutOfFuel.
  by apply (deepCopy_self_member_set_overflows fuel _ 1 []).
Qed.

(** [deepCopy(src)] for [src = [m]], where the map [m] has itself as a
    value, returns nothing at any call depth. *)
Lemma array_of_self_map_overflows fuel :
  deepClone fuel (VRef 0) store_array_of_self_map = OutOfFuel.
Proof.
  destruct fuel as [|fuel]; [done|]. unfold deepClone.
  rewrite (deepCopy_ref _ _ (OArray [Some (VRef 1)] [])) by done.
  cbn [memo heap]. rewrite lookup_empty. cbv zeta.
  change (ownKeys (OArray [Some (VRef 1)] [])) with [KIdx 0; KStr "length"].
  cbn [forEach]. do 2 apply bind_OutOfFuel.
  rewrite (get_prop_step _ (OArray [Some (VRef 1)] [])) by done.
  apply bind_OutOfFuel.
  by apply (deepCopy_self_valued_map_overflows fuel _ 1 (PString "self") []).
Qed.

Lemma set_add_snoc st ms v m :
  v ∉ ms ->
  set_add (length (heap st)) v (State (heap st ++ [OSet ms]) m)
  = Ret (tt, State (heap st ++ [OSet (ms ++ [v])]) m).
Proof.
  intros Hv. rewrite (set_add_run _ ms).
  - rewrite decide_False by done. simpl. by rewrite insert_snoc.
  - simpl. by rewrite lookup_app_r, Nat.sub_diag.
Qed.

Lemma set_body_prim fuel p st ms m :
  VPrim p ∉ ms ->
  (let* copyResult := deepCopy (S fuel) (VPrim p) in
   set_add (length (heap st)) (data copyResult))
    (State (heap st ++ [OSet ms]) m)
  = Ret (tt, State (heap st ++ [OSet (ms ++ [VPrim p])]) m).
Proof.
  intros Hp. rewrite (bind_step _ _ _ _ _ (deepCopy_prim _ _ _)).
  by apply set_add_snoc.
Qed.

Lemma set_312_self_overflows_from fuel : forall st s,
  heap st !! s = Some (OSet [num 3; num 1; num 2; VRef s]) ->
  deepCopy fuel (VRef s) st = OutOfFuel.
Proof.
  induction fuel as [|fuel IH]; intros st s Hs; [done|].
  rewrite (deepCopy_ref _ _ _ _ Hs). cbv zeta. apply bind_OutOfFuel.
  destruct fuel as [|fuel]; [done|].
  cbn [forEach]. unfold num at 1 2 3.
  erewrite bind_step by (apply (set_body_prim _ _ st []); set_solver).
  erewrite bind_step by (apply (set_body_prim _ _ st [_]); set_solver).
  erewrite bind_step by (apply (set_body_prim _ _ st [_; _]); set_solver).
  do 2 apply bind_OutOfFuel. apply IH.
  cbn [heap]. by apply lookup_app_l_Some.
Qed.

(** C8: [deepCopy(s)] for [s = new Set([3, 1, 2]); s.add(s)] clones the
    members 3, 1, 2 in order into the new set and then runs out of every
    call depth on the fourth member: no set is returned. *)
Theorem set_312_self_overflows fuel :
  deepClone fuel (VRef 0) store_set_312_self = OutOfFuel.
Proof. by apply set_312_self_overflows_from. Qed.

(** C2: for a record [a] whose one field [self] holds [a] itself,
    [deepCopy(a)] returns, at call depth 2, a fresh record [b] whose field
    [self] holds the address [b]: the recursive call on [a.self] finds [a]
    in the memo and returns the clone under construction.  [a] is left
    as it was. *)
Theorem self_reference_cloned (h : list obj) (a : addr) (e : bool) :
  h !! a = Some (ORecord [(KStr "self", Slot (VRef a) e)]) ->
  exists b st',
    deepClone 2 (VRef a) h = Ret (CopyResult true msg_generic (VRef b), st') /\
    b <> a /\
    heap st' !! b = Some (ORecord [(KStr "self", Slot (VRef b) true)]) /\
    heap st' !! a = Some (ORecord [(KStr "self", Slot (VRef a) e)]).
Proof.
  intros Ha. set (o := ORecord [(KStr "self", Slot (VRef a) e)]) in *.
  set (b := length h).
  exists b, (State (h ++ [ORecord [(KStr "self", Slot (VRef b) true)]])
                   (<[a := VRef b]> ∅)).
  assert (Hab : b <> a) by (apply lookup_lt_Some in Ha; unfold b; lia).
  split_and!; [|done| |].
  - unfold deepClone. rewrite (deepCopy_ref _ _ o) by done.
    cbn [memo heap]. rewrite lookup_empty. unfold o at 1. cbv zeta.
    cbn [ownKeys fmap list_fmap fst forEach]. fold o. fold b.
    assert (Ha1 : heap (State (h ++ [empty_like o]) (<[a := VRef b]> ∅)) !! a = Some o).
    { by apply lookup_app_l_Some. }
    rewrite (bind_step _ _ _ tt
      (State (h ++ [ORecord [(KStr "self", Slot (VRef b) true)]]) (<[a := VRef b]> ∅)));
      [done|].
    change (ownKeys o) with [KStr "self"]. cbn [forEach].
    rewrite (bind_step _ _ _ tt
      (State (h ++ [ORecord [(KStr "self", Slot (VRef b) true)]]) (<[a := VRef b]> ∅)));
      [done|].
    rewrite (get_prop_step _ _ _ _ _ Ha1).
    assert (Hget : get o (KStr "self") = VRef a).
    { reflexivity. }
    rewrite Hget. rewrite (bind_step _ _ _ (CopyResult true msg_cycle (VRef b))
      (State (h ++ [empty_like o]) (<[a := VRef b]> ∅))).
    2:{ rewrite (deepCopy_ref _ _ _ _ Ha1). unfold o at 1. cbn [memo].
        by rewrite lookup_insert_eq. }
    cbn [data]. erewrite put_prop_run.
    + cbn [heap memo]. unfold b. by rewrite insert_snoc.
    + cbn [heap]. unfold b. by rewrite lookup_app_r, Nat.sub_diag.
    + unfold put. rewrite decide_False by done. reflexivity.
  - cbn [heap]. unfold b. by rewrite lookup_app_r, Nat.sub_diag.
  - cbn [heap]. by apply lookup_app_l_Some.
Qed.

(** C5: on [null] and on every value whose [typeof] is not ["object"],
    [shallowCopy] returns [status = false] with the input itself as
    [data]; nothing is thrown and the store is left as it was. *)
Theorem shallowCopy_rejects_non_composite (source : value) (st : state) :
  not_composite source = true ->
  shallowCopy source st = Ret (CopyResult false msg_shallow_fail source, st).
Proof. intros H. unfold shallowCopy. by rewrite H. Qed.

Lemma shallowCopy_rejects_non_composite_witness :
  shallowCopy (num 5) (State [] ∅)
    = Ret (CopyResult false msg_shallow_fail (num 5), State [] ∅) /\
  shallowCopy (VPrim PNull) (State [] ∅)
    = Ret (CopyResult false msg_shallow_fail (VPrim PNull), State [] ∅).
Proof.
  split.
  - apply (shallowCopy_rejects_non_composite (num 5)). reflexivity.
  - apply (shallowCopy_rejects_non_composite (VPrim PNull)). reflexivity.
Defined.




Lemma self_reference_cloned_witness :
  exists b st',
    deepClone 2 (VRef 0) store_self_record
      = Ret (CopyResult true msg_generic (VRef b), st') /\
    b <> 0 /\
    heap st' !! b = Some (ORecord [(KStr "self", Slot (VRef b) true)]) /\
    heap st' !! 0 = Some (ORecord [(KStr "self", Slot (VRef 0) true)]).
Proof. apply (self_reference_cloned store_self_record 0 true). reflexivity. Defined.

(** C3: for [s = new Set()] and [root = {x: s, y: s}], two fields that
    reference the same composite value, [deepCopy(root)] returns a record
    that holds two different sets under [x] and [y]: each reference to
    [s] enters the set branch, which writes a new set to the memo and
    never looks the memo up. *)
Theorem shared_set_cloned_twice :
  exists st' o',
    deepClone 2 (VRef 1) store_shared_set
      = Ret (CopyResult true msg_generic (VRef 2), st') /\
    heap st' !! 2 = Some o' /\
    getv o' (KStr "x") = Some (VRef 3) /\
    getv o' (KStr "y") = Some (VRef 4) /\
    heap st' !! 3 = Some (OSet []) /\
    heap st' !! 4 = Some (OSet []) /\
    memo st' !! 0 = Some (VRef 4) /\
    getv o' (KStr "x") <> getv o' (KStr "y").
Proof.
  eexists _, _. split_and!.
  - vm_compute. reflexivity.
  - reflexivity.
  - reflexivity.
  - reflexivity.
  - reflexivity.
  - reflexivity.
  - vm_compute. reflexivity.
  - discriminate.
Qed.

Lemma shared_generic_cloned_once_witness :
  (forall fuel r st',
     deepClone fuel (VRef 1) store_shared_record = Ret (r, st') ->
     exists b o' c,
       data r = VRef b /\ heap st' !! b = Some o' /\
       length store_shared_record <= c /\
       getv o' (KStr "x") = Some (VRef c) /\ getv o' (KStr "y") = Some (VRef c) /\
       struct_eq (heap st') (VRef 0) (VRef c)) /\
  (exists fuel r st', deepClone fuel (VRef 1) store_shared_record = Ret (r, st')).
Proof.
  refine (let (H1, H2) := shared_generic_cloned_once store_shared_record 1
           (ORecord [field "x" (VRef 0); field "y" (VRef 0)])
           (KStr "x") (KStr "y") 0 (ORecord []) _ _ _ _ _ _ _ _ _ in
          conj H1 (H2 _)).
  10: apply unguarded_acyclic_leaves.
  - apply (bool_decide_unpack _). vm_compute. exact I.
  - apply (bool_decide_unpack _). vm_compute. exact I.
  - apply (bool_decide_unpack _). vm_compute. exact I.
  - reflexivity.
  - reflexivity.
  - reflexivity.
  - reflexivity.
  - reflexivity.
  - reflexivity.
  - apply (bool_decide_unpack _). vm_compute. exact I.
Defined.

(** A rank that is checked on every object of the store. *)
Lemma unguarded_acyclic_ranked h (rank : addr -> nat) :
  Forall (fun xo : nat * obj =>
            generic xo.2 = true \/ Forall (rank_under rank xo.1) (visited xo.2))
         (imap pair h) ->
  unguarded_acyclic h.
Proof.
  intros Hall. exists rank. intros x o y Ho Hg Hy.
  assert (Hin : (x, o) ∈ imap pair h).
  { apply elem_of_lookup_imap. by exists x, o. }
  destruct (proj1 (Forall_forall _ _) Hall _ Hin) as [?|Hv]; simpl in *;
    [congruence|].
  apply (proj1 (Forall_forall _ _) Hv (VRef y) Hy).
Qed.

Lemma exotic_clones_never_shared_witness :
  (forall fuel r st',
     deepClone fuel (VRef 3) store_date_in_containers = Ret (r, st') ->
     exists srcs,
       simulation (heap st') (clone_of store_date_in_containers srcs) /\
       relv (clone_of store_date_in_containers srcs) (VRef 3) (data r) /\
       (forall x ox t t', store_date_in_containers !! x = Some ox ->
          generic ox = true ->
          clone_of store_date_in_containers srcs x t ->
          clone_of store_date_in_containers srcs x t' -> t = t') /\
       (forall s os x1 o1 p1 t1 x2 o2 p2 t2,
          store_date_in_containers !! s = Some os -> generic os = false ->
          store_date_in_containers !! x1 = Some o1 ->
          at_pos o1 p1 = Some (VRef s) ->
          clone_of store_date_in_containers srcs x1 t1 ->
          store_date_in_containers !! x2 = Some o2 ->
          at_pos o2 p2 = Some (VRef s) ->
          clone_of store_date_in_containers srcs x2 t2 ->
          (t1, p1) <> (t2, p2) ->
          exists o1' o2' c1 c2,
            heap st' !! t1 = Some o1' /\ at_pos o1' p1 = Some (VRef c1) /\
            heap st' !! t2 = Some o2' /\ at_pos o2' p2 = Some (VRef c2) /\
            clone_of store_date_in_containers srcs s c1 /\
            clone_of store_date_in_containers srcs s c2 /\ c1 <> c2) /\
       (forall x ox c1 c2 t1 o1 p1 t2 o2 p2,
          store_date_in_containers !! x = Some ox -> generic ox = false ->
          clone_of store_date_in_containers srcs x c1 ->
          clone_of store_date_in_containers srcs x c2 ->
          heap st' !! t1 = Some o1 -> at_pos o1 p1 = Some (VRef c1) ->
          heap st' !! t2 = Some o2 -> at_pos o2 p2 = Some (VRef c2) ->
          (t1, p1) <> (t2, p2) -> c1 <> c2)) /\
  (exists fuel r st',
     deepClone fuel (VRef 3) store_date_in_containers = Ret (r, st')).
Proof.
  refine (let (H1, H2) :=
            exotic_clones_never_shared store_date_in_containers (VRef 3)
              _ _ _ _ in conj H1 (H2 _)).
  5: apply (unguarded_acyclic_ranked _ (fun x => if decide (x = 0) then 0 else 1)).
  - apply (bool_decide_unpack _). vm_compute. exact I.
  - apply (bool_decide_unpack _). vm_compute. exact I.
  - apply (bool_decide_unpack _). vm_compute. exact I.
  - simpl. lia.
  - apply (bool_decide_unpack _). vm_compute. exact I.
Defined.


(** X19: an own property named ["__proto__"] of an array or plain object
    is never copied, whatever its value: the assignment
    [target["__proto__"] = v] reaches the inherited setter and creates no
    own property. *)
Lemma proto_key_not_copied h root o fuel r st' :
  store_ok h -> h !! root = Some o -> generic o = true ->
  deepClone fuel (VRef root) h = Ret (r, st') ->
  exists o', data r = VRef (length h) /\ heap st' !! length h = Some o' /\
             getv o' (KStr "__proto__") = None.
Proof.
  intros Hok Ho Hg Hrun.
  destruct (deepClone_root _ _ _ _ _ _ Hok Ho Hg Hrun)
    as (srcs & o' & Hi & -> & Hroot & Ho' & Hb).
  exists o'. split_and!; try done. apply Hb.
Qed.

Lemma proto_key_dropped :
  exists st',
    deepClone 2 (VRef 0) store_proto_key
      = Ret (CopyResult true msg_generic (VRef 1), st') /\
    heap st' !! 1 = Some (ORecord [(KStr "a", Slot (VPrim (PNumber 2)) true)]).
Proof. eexists. split; [vm_compute; reflexivity|reflexivity]. Qed.

(** X13: [shallowCopy] reports [status = false] exactly on the inputs
    that are not composite: whenever it returns on an object, of whatever
    kind, the status is [true]. *)
Lemma shallowCopy_status source st r st' :
  shallowCopy source st = Ret (r, st') ->
  status r = false <-> not_composite source = true.
Proof.
  unfold shallowCopy. destruct (not_composite source) eqn:E.
  - by intros [= <- _].
  - destruct source as [p|a]; [done|].
    intros (o & s0 & _ & (t & s1 & _ & ([] & s2 & _ & [= <- _])%bind_Ret)%bind_Ret)%bind_Ret.
    done.
Qed.

(** Primitives pass through [deepCopy] at any positive call depth. *)
Lemma deepClone_primitive fuel p h :
  deepClone (S fuel) (VPrim p) h
  = Ret (CopyResult true msg_primitive (VPrim p), State h ∅).
Proof. apply deepCopy_prim. Qed.

(** * Further properties of the two functions *)

(** ** [shallowCopy] on a composite value *)

Lemma for_in_keys_spec o k :
  k ∈ for_in_keys o <-> k ∈ ownKeys o /\ for_in_visits o k = true.
Proof. unfold for_in_keys. rewrite list_elem_of_filter. tauto. Qed.

Lemma for_in_visits_own o k :
  for_in_visits o k = true -> hasOwnProperty o k = true /\ ~ is_len o k.
Proof.
  unfold for_in_visits, hasOwnProperty. intros Hv. split.
  - apply bool_decide_eq_true. destruct k as [i|s|id]; [| |done].
    + destruct (getOwn o (KIdx i)); [by eexists|done].
    + destruct (getOwn o (KStr s)); [by eexists|done].
  - intros [Ha ->]. by destruct o.
Qed.

(** The container after the loop of [shallowCopy]: what the loop has
    assigned, and, for an array, how far the assignments have stretched
    it. *)
Lemma shallowCopy_run a o st :
  heap st !! a = Some o -> generic o = true ->
  exists o',
    shallowCopy (VRef a) st
      = Ret (CopyResult true msg_shallow_ok (VRef (length (heap st))),
             State (heap st ++ [o']) (memo st)) /\
    built eq (fun _ => True) o (for_in_keys o) o' /\
    (isArray o = true -> forall i, KIdx i ∈ for_in_keys o -> i < alen o') /\
    (alen o' = 0 \/ KIdx (alen o' - 1) ∈ for_in_keys o).
Proof.
  intros Ho Hg. unfold shallowCopy. rewrite not_composite_ref.
  rewrite (deref_step _ _ _ _ Ho).
  set (t := length (heap st)).
  destruct (forEach_total
    (fun done s => exists o',
       s = State (heap st ++ [o']) (memo st) /\
       built eq (fun _ => True) o done o' /\
       (isArray o = true -> forall i, KIdx i ∈ done -> i < alen o') /\
       (alen o' = 0 \/ KIdx (alen o' - 1) ∈ done))
    (fun key =>
       let* o' := deref a in
       if hasOwnProperty o' key then
         let* v := get_prop a key in put_prop t key v
       else ret tt)
    (for_in_keys o) [] (State (heap st ++ [empty_like o]) (memo st)))
    as (s' & Hrun & o' & -> & Hb & Hlt & Hlast).
  - exists (empty_like o). split_and!; [done|by apply built_init| |].
    + by intros _ i ?%elem_of_nil.
    + left. unfold empty_like. by destruct (isArray o).
  - intros done k rest s Heq (o' & -> & Hb & Hlt & Hlast).
    assert (Hk : k ∈ for_in_keys o) by (simpl in Heq; rewrite Heq; set_solver).
    apply for_in_keys_spec in Hk as [Hk Hv].
    destruct (for_in_visits_own _ _ Hv) as [Hown Hlen].
    assert (Ha : heap (State (heap st ++ [o']) (memo st)) !! a = Some o).
    { by apply lookup_app_l_Some. }
    assert (Ht : heap (State (heap st ++ [o']) (memo st)) !! t = Some o').
    { simpl. unfold t. by rewrite lookup_app_r, Nat.sub_diag. }
    rewrite (deref_step _ _ _ _ Ha), Hown, (get_prop_step _ _ _ _ _ Ha).
    destruct Hb as (Hg' & Harr & Hb').
    destruct (put_total o' k (get o k) Hg') as (o'' & Hput).
    { intros Hl%(is_len_iff o); done. }
    exists (State (heap st ++ [o'']) (memo st)). split.
    { rewrite (put_prop_run _ _ _ _ _ _ Ht Hput). simpl. unfold t.
      by rewrite insert_snoc. }
    assert (Hb : built eq (fun _ => True) o done o') by done.
    exists o''. split_and!; [done| | |].
    + apply (built_step eq eq (fun _ => True) (fun _ => True) o done o' k
               (get o k) o''); try done.
      * by destruct (get o k).
      * intros c _. by left.
    + intros Harr'.
      destruct (decide (k = KStr "__proto__")) as [->|Hkp].
      { rewrite put_proto in Hput. injection Hput as <-.
        intros i [?|[=]%list_elem_of_singleton]%elem_of_app. by apply Hlt. }
      rewrite (put_alen _ _ _ _ Hput) by congruence.
      intros i [Hi|Hi%list_elem_of_singleton]%elem_of_app.
      * specialize (Hlt Harr' i Hi). destruct k as [j|s|id]; [lia| |done].
        destruct (String.eqb_spec s "length") as [->|]; [|done].
        destruct Hlen. by split.
      * subst k. lia.
    + destruct (decide (k = KStr "__proto__")) as [->|Hkp].
      { rewrite put_proto in Hput. injection Hput as <-.
        destruct Hlast as [?|?]; [by left|right; set_solver]. }
      destruct (isArray o) eqn:Harr'.
      * rewrite (put_alen _ _ _ _ Hput) by congruence.
        destruct k as [j|s|id].
        -- right. destruct (decide (alen o' <= S j)).
           ++ replace (alen o' `max` S j - 1) with j by lia. set_solver.
           ++ replace (alen o' `max` S j) with (alen o') by lia.
              destruct Hlast as [?|?]; [lia|set_solver].
        -- destruct (String.eqb_spec s "length") as [->|].
           { destruct Hlen. by split. }
           destruct Hlast as [?|?]; [by left|right; set_solver].
        -- destruct Hlast as [?|?]; [by left|right; set_solver].
      * left. destruct (put_generic _ _ _ _ Hput Hg') as [_ E].
        destruct o''; try done. simpl in E. congruence.
  - exists o'. split; [|done].
    rewrite (bind_step _ _ _ t (State (heap st ++ [empty_like o]) (memo st)))
      by done.
    by rewrite (bind_step _ _ _ _ _ Hrun).
Qed.

Lemma relv_eq v w : relv eq v w <-> v = w.
Proof. destruct v, w; simpl; naive_solver. Qed.

Lemma for_in_visits_ownKeys o k :
  generic o = true -> for_in_visits o k = true -> k ∈ ownKeys o.
Proof.
  intros Hg Hv. apply ownKeys_getOwn; [done|]. unfold getv.
  destruct (for_in_visits_own _ _ Hv) as [H _]. unfold hasOwnProperty in H.
  apply bool_decide_eq_true in H. by apply fmap_is_Some.
Qed.

(** X1: on an array or a plain object that has no own ["__proto__"] key,
    [shallowCopy] returns [status = true] and a fresh container of the
    same shape, appended to the store, which holds, under every own
    enumerable key of the source that is not a symbol, the very value
    that the source holds under it: a nested object is shared with the
    source, not duplicated.  The objects of the store and the memo are
    left as they were. *)
Theorem shallowCopy_shares_values a o st :
  heap st !! a = Some o -> generic o = true -> no_proto o ->
  exists o',
    shallowCopy (VRef a) st
      = Ret (CopyResult true msg_shallow_ok (VRef (length (heap st))),
             State (heap st ++ [o']) (memo st)) /\
    isArray o' = isArray o /\
    forall k, for_in_visits o k = true -> getv o' k = Some (get o k).
Proof.
  intros Ho Hg Hnp.
  destruct (shallowCopy_run _ _ _ Ho Hg) as (o' & Hrun & Hb & _).
  exists o'. split_and!; [done|apply Hb|].
  intros k Hv. destruct Hb as (_ & _ & Hdone & _).
  pose proof (for_in_visits_ownKeys _ _ Hg Hv) as Hin.
  assert (Hk : assignable k) by (by intros ->).
  specialize (Hdone k). rewrite (ownKeys_get o k) in Hdone by done.
  destruct (getv o' k) as [w|] eqn:E.
  - f_equal. symmetry. apply relv_eq. apply Hdone; [|by apply for_in_visits_own|done].
    by apply for_in_keys_spec.
  - destruct Hdone; [|by apply for_in_visits_own|done]. by apply for_in_keys_spec.
Qed.

Lemma shallowCopy_shares_values_witness :
  exists o',
    shallowCopy (VRef 1) (State store_nested_record ∅)
      = Ret (CopyResult true msg_shallow_ok (VRef 2),
             State (store_nested_record ++ [o']) ∅) /\
    getv o' (KStr "a") = Some (VRef 0).
Proof.
  destruct (shallowCopy_shares_values 1 (ORecord [field "a" (VRef 0)])
              (State store_nested_record ∅)) as (o' & Hrun & _ & Hk).
  - reflexivity.
  - reflexivity.
  - apply (bool_decide_unpack _). vm_compute. exact I.
  - exists o'. split; [exact Hrun|]. apply (Hk (KStr "a")). reflexivity.
Defined.





(** X4: on a date, a pattern, a set or a map, [shallowCopy] reports
    [status = true] and returns a fresh plain object without any
    property: these kinds have no own enumerable property for the loop to
    visit, so nothing of their content reaches the copy. *)
Theorem shallowCopy_exotic_gives_empty_record a o st :
  heap st !! a = Some o -> generic o = false ->
  shallowCopy (VRef a) st
    = Ret (CopyResult true msg_shallow_ok (VRef (length (heap st))),
           State (heap st ++ [ORecord []]) (memo st)).
Proof.
  intros Ho Hg. unfold shallowCopy. rewrite not_composite_ref.
  rewrite (deref_step _ _ _ _ Ho).
  assert (Hkeys : for_in_keys o = []) by (by destruct o).
  assert (Hempty : empty_like o = ORecord []) by (by destruct o).
  by rewrite Hkeys, Hempty.
Qed.

Lemma shallowCopy_exotic_gives_empty_record_witness :
  shallowCopy (VRef 0) (State store_shared_date ∅)
    = Ret (CopyResult true msg_shallow_ok (VRef 2),
           State (store_shared_date ++ [ORecord []]) ∅).
Proof.
  apply (shallowCopy_exotic_gives_empty_record 0 (ODate 86400000)
           (State store_shared_date ∅)); reflexivity.
Defined.

(** ** [deepCopy] by kind of input *)

(** X5: on a date, [deepCopy] returns, at any positive call depth and in
    any state, a fresh date with the same time value; the memo is neither
    consulted nor written, and the store is only extended by the new
    date. *)
Theorem date_cloned (fuel : nat) (st : state) (a : addr) (t : Z) :
  heap st !! a = Some (ODate t) ->
  deepCopy (S fuel) (VRef a) st
    = Ret (CopyResult true msg_date (VRef (length (heap st))),
           State (heap st ++ [ODate t]) (memo st)) /\
  length (heap st) <> a.
Proof.
  intros Ha. split; [by rewrite (deepCopy_ref _ _ _ _ Ha)|].
  apply lookup_lt_Some in Ha. lia.
Qed.

Lemma date_cloned_witness :
  deepCopy 1 (VRef 0) (State store_shared_date ∅)
    = Ret (CopyResult true msg_date (VRef 2),
           State (store_shared_date ++ [ODate 86400000]) ∅) /\
  2 <> 0.
Proof.
  apply (date_cloned 0 (State store_shared_date ∅) 0 86400000). reflexivity.
Defined.

(** X6: in a returning call on a map, the result is a fresh map, distinct
    from the original, that holds one entry for each entry of the
    original, in the same order; key and value of each entry are both
    cloned (a primitive stays the same, an object is replaced by its
    clone), so no object of the original store is a key or a value of the
    new map.  The original map is left as it was.  Where no object of the
    store has an own ["__proto__"] key and no array an own symbol key,
    keys and values are structurally equal to their clones. *)
Theorem map_cloned_in_order h m entries fuel r st' :
  store_ok h -> h !! m = Some (OMap entries) ->
  deepClone fuel (VRef m) h = Ret (r, st') ->
  exists srcs res,
    data r = VRef (length h) /\ length h <> m /\
    heap st' !! length h = Some (OMap res) /\
    heap st' !! m = Some (OMap entries) /\
    Forall2 (fun e e' => relv (clone_of h srcs) e.1 e'.1 /\
                         relv (clone_of h srcs) e.2 e'.2) entries res /\
    Forall (outside (length h)) (res.*1 ++ res.*2) /\
    (Forall no_proto h -> Forall array_no_symbol h ->
     Forall2 (fun e e' => struct_eq (heap st') e.1 e'.1 /\
                          struct_eq (heap st') e.2 e'.2) entries res).
Proof.
  intros Hok Hs Hrun.
  assert (Hv : below (length h) (VRef m)) by (simpl; by eapply lookup_lt_Some).
  destruct (deepClone_inv _ _ _ _ _ Hok Hv Hrun) as (srcs & Hinv & _ & Hrel & Hfresh).
  destruct Hfresh as [Hd|(o & Ho & Hg & _)];
    [|rewrite Hs in Ho; by injection Ho as <-].
  simpl in Hd. rewrite Hd in Hrel. simpl in Hrel.
  destruct (inv_done _ _ _ _ Hinv _ _ Hrel) as (o & o' & Ho & Ho' & Hm); [tauto|].
  rewrite Hs in Ho. injection Ho as <-. destruct o' as [| | |res| |]; try done.
  simpl in Hm. exists srcs, res. split_and!; try done.
  - apply lookup_lt_Some in Hs. lia.
  - eapply prefix_lookup_Some; [done|apply Hinv].
  - by apply (obj_match_outside h srcs (OMap entries) (OMap res)).
  - intros Hnp _. eapply Forall2_impl; [exact Hm|]. intros e e' [H1 H2].
    split; exists (clone_of h srcs); (split; [by apply inv_simulation|done]).
Qed.

Lemma map_cloned_in_order_witness :
  exists r st',
    deepClone 2 (VRef 2) store_map_of_objects = Ret (r, st') /\
    exists srcs res,
      data r = VRef (length store_map_of_objects) /\
      length store_map_of_objects <> 2 /\
      heap st' !! length store_map_of_objects = Some (OMap res) /\
      heap st' !! 2 = Some (OMap [(VRef 0, num 1); (str "b", VRef 1)]) /\
      Forall2 (fun e e' => relv (clone_of store_map_of_objects srcs) e.1 e'.1 /\
                           relv (clone_of store_map_of_objects srcs) e.2 e'.2)
              [(VRef 0, num 1); (str "b", VRef 1)] res /\
      Forall (outside (length store_map_of_objects)) (res.*1 ++ res.*2) /\
      (Forall no_proto store_map_of_objects ->
       Forall array_no_symbol store_map_of_objects ->
       Forall2 (fun e e' => struct_eq (heap st') e.1 e'.1 /\
                            struct_eq (heap st') e.2 e'.2)
               [(VRef 0, num 1); (str "b", VRef 1)] res).
Proof.
  eexists _, _. split; [vm_compute; reflexivity|].
  apply (map_cloned_in_order store_map_of_objects 2
           [(VRef 0, num 1); (str "b", VRef 1)] 2).
  - apply (bool_decide_unpack _). vm_compute. exact I.
  - reflexivity.
  - vm_compute. reflexivity.
Defined.

(** X7: [deepCopy] returns a primitive ([undefined], [null], a boolean, a
    number, a string, a symbol, a function) as it is and allocates
    nothing; for an object it returns, whenever it returns, the address
    of an object that this very call has allocated, never the source or
    any object that existed before. *)
Theorem deepClone_fresh_unless_primitive h fuel v r st' :
  store_ok h -> below (length h) v -> deepClone fuel v h = Ret (r, st') ->
  match v with
  | VPrim p => data r = VPrim p /\ heap st' = h
  | VRef a =>
      exists b, data r = VRef b /\ b <> a /\ length h <= b < length (heap st')
  end.
Proof.
  intros Hok Hv Hrun. destruct v as [p|a].
  - destruct fuel as [|fuel]; [done|]. unfold deepClone in Hrun.
    rewrite deepCopy_prim in Hrun. by injection Hrun as <- <-.
  - destruct (deepClone_inv _ _ _ _ _ Hok Hv Hrun) as (srcs & Hinv & _ & Hrel & _).
    destruct (data r) as [q|b]; [done|]. simpl in Hrel, Hv.
    exists b. split; [done|].
    pose proof (clone_of_lt _ _ _ _ Hrel). destruct Hrel as [Hb _].
    rewrite (inv_length _ _ _ _ Hinv). lia.
Qed.

Lemma deepClone_fresh_unless_primitive_witness :
  exists r st',
    deepClone 3 (VRef 1) store_nested_record = Ret (r, st') /\
    exists b, data r = VRef b /\ b <> 1 /\
              length store_nested_record <= b < length (heap st').
Proof.
  eexists _, _. split; [vm_compute; reflexivity|].
  apply (deepClone_fresh_unless_primitive store_nested_record 3 (VRef 1)).
  - apply (bool_decide_unpack _). vm_compute. exact I.
  - simpl. lia.
  - vm_compute. reflexivity.
Defined.

(** ** Call depth *)

Lemma forEach_mono {A} (f g : A -> M unit) xs : forall st y,
  (forall x s z, f x s = Ret z -> g x s = Ret z) ->
  forEach xs f st = Ret y -> forEach xs g st = Ret y.
Proof.
  induction xs as [|x xs IH]; intros st y Hfg Hrun; simpl in *; [done|].
  apply bind_Ret in Hrun as ([] & s1 & Hx & Hrest).
  rewrite (bind_step _ _ _ _ _ (Hfg _ _ _ Hx)). by apply IH.
Qed.

(** An activation that returns does so again when its recursive calls
    are given more room. *)
Lemma deepCopy_body_mono (self self' : value -> M copyResult) :
  (forall v s z, self v s = Ret z -> self' v s = Ret z) ->
  forall v st z,
    deepCopy_body self v st = Ret z -> deepCopy_body self' v st = Ret z.
Proof.
  intros Hs v st z Hrun. unfold deepCopy_body in *.
  destruct (not_composite v); [done|]. destruct v as [p|a]; [done|].
  apply bind_Ret in Hrun as (o & s & Ho & Hrun).
  rewrite (bind_step _ _ _ _ _ Ho).
  destruct o; try done.
  - apply bind_Ret in Hrun as (t & s1 & Ht & Hrun).
    rewrite (bind_step _ _ _ _ _ Ht).
    apply bind_Ret in Hrun as (u & s2 & Hu & Hrun).
    rewrite (bind_step _ _ _ _ _ Hu).
    apply bind_Ret in Hrun as ([] & s3 & Hfe & Hrun).
    erewrite bind_step; [exact Hrun|].
    eapply forEach_mono; [|exact Hfe]. intros x s4 z' Hb.
    apply bind_Ret in Hb as (c & s5 & Hc & Hb).
    by rewrite (bind_step _ _ _ _ _ (Hs _ _ _ Hc)).
  - apply bind_Ret in Hrun as (t & s1 & Ht & Hrun).
    rewrite (bind_step _ _ _ _ _ Ht).
    apply bind_Ret in Hrun as (u & s2 & Hu & Hrun).
    rewrite (bind_step _ _ _ _ _ Hu).
    apply bind_Ret in Hrun as ([] & s3 & Hfe & Hrun).
    erewrite bind_step; [exact Hrun|].
    eapply forEach_mono; [|exact Hfe]. intros [k x] s4 z' Hb.
    apply bind_Ret in Hb as (ck & s5 & Hck & Hb).
    rewrite (bind_step _ _ _ _ _ (Hs _ _ _ Hck)).
    apply bind_Ret in Hb as (cv & s6 & Hcv & Hb).
    by rewrite (bind_step _ _ _ _ _ (Hs _ _ _ Hcv)).
  - apply bind_Ret in Hrun as (hit & s1 & Hh & Hrun).
    rewrite (bind_step _ _ _ _ _ Hh). destruct hit; [done|].
    apply bind_Ret in Hrun as (t & s2 & Ht & Hrun).
    rewrite (bind_step _ _ _ _ _ Ht).
    apply bind_Ret in Hrun as (u & s3 & Hu & Hrun).
    rewrite (bind_step _ _ _ _ _ Hu).
    apply bind_Ret in Hrun as ([] & s4 & Hfe & Hrun).
    erewrite bind_step; [exact Hrun|].
    eapply forEach_mono; [|exact Hfe]. intros k s5 z' Hb.
    apply bind_Ret in Hb as (x & s6 & Hx & Hb).
    rewrite (bind_step _ _ _ _ _ Hx).
    apply bind_Ret in Hb as (c & s7 & Hc & Hb).
    by rewrite (bind_step _ _ _ _ _ (Hs _ _ _ Hc)).
  - apply bind_Ret in Hrun as (hit & s1 & Hh & Hrun).
    rewrite (bind_step _ _ _ _ _ Hh). destruct hit; [done|].
    apply bind_Ret in Hrun as (t & s2 & Ht & Hrun).
    rewrite (bind_step _ _ _ _ _ Ht).
    apply bind_Ret in Hrun as (u & s3 & Hu & Hrun).
    rewrite (bind_step _ _ _ _ _ Hu).
    apply bind_Ret in Hrun as ([] & s4 & Hfe & Hrun).
    erewrite bind_step; [exact Hrun|].
    eapply forEach_mono; [|exact Hfe]. intros k s5 z' Hb.
    apply bind_Ret in Hb as (x & s6 & Hx & Hb).
    rewrite (bind_step _ _ _ _ _ Hx).
    apply bind_Ret in Hb as (c & s7 & Hc & Hb).
    by rewrite (bind_step _ _ _ _ _ (Hs _ _ _ Hc)).
Qed.

(** A call that returns within some call depth returns the same result
    within every larger one. *)
Lemma deepCopy_fuel_mono fuel : forall fuel' v st z,
  fuel <= fuel' -> deepCopy fuel v st = Ret z -> deepCopy fuel' v st = Ret z.
Proof.
  induction fuel as [|fuel IH]; intros fuel' v st z Hle Hrun; [done|].
  destruct fuel' as [|fuel']; [lia|]. simpl in *.
  eapply deepCopy_body_mono; [|exact Hrun].
  intros x s y Hx. eapply IH; [lia|exact Hx].
Qed.

(** X8: on a well-formed store that has no own ["__proto__"] key and no
    cycle made of sets and maps only, [deepCopy(source)] returns: there is
    a call depth from which every larger one gives one and the same
    result.  Cycles that pass through an array or a plain object are cut
    by the memo. *)
Theorem deepClone_returns_without_set_map_cycle h v :
  store_ok h -> Forall no_proto h -> unguarded_acyclic h ->
  below (length h) v ->
  exists fuel r st',
    forall fuel', fuel <= fuel' -> deepClone fuel' v h = Ret (r, st').
Proof.
  intros Hok _ Hac Hv.
  destruct (deepClone_total h v Hok Hac Hv) as (fuel & r & st' & Hrun).
  exists fuel, r, st'. intros fuel' Hle.
  by apply (deepCopy_fuel_mono fuel fuel').
Qed.

Lemma deepClone_returns_without_set_map_cycle_witness :
  exists fuel r st',
    forall fuel', fuel <= fuel' ->
      deepClone fuel' (VRef 0) store_self_record = Ret (r, st').
Proof.
  apply (deepClone_returns_without_set_map_cycle store_self_record (VRef 0)).
  - apply (bool_decide_unpack _). vm_compute. exact I.
  - apply (bool_decide_unpack _). vm_compute. exact I.
  - apply unguarded_acyclic_leaves.
    apply (bool_decide_unpack _). vm_compute. exact I.
  - simpl. lia.
Defined.

Lemma deepCopy_unguarded_path_witness :
  ~ exists fuel x, deepCopy fuel (VRef 0) (State store_self_set ∅) = Ret x.
Proof.
  intros (fuel & x & Hrun).
  apply (deepCopy_unguarded_path store_self_set (fun _ => 0)) with
    (fuel := fuel) (i := 0) (st := State store_self_set ∅) (x := x).
  - intros _. exists (OSet [VRef 0]). split; [reflexivity|].
    split; [reflexivity|]. apply (bool_decide_unpack _). vm_compute. exact I.
  - reflexivity.
  - exact Hrun.
Defined.

(** ** Attributes and array shape of a clone *)

Lemma table_put_enumerable k v t :
  Forall (fun p : key * slot => slot_enumerable p.2 = true) t ->
  Forall (fun p : key * slot => slot_enumerable p.2 = true) (table_put k v t).
Proof.
  induction t as [|[k' s] t IH]; intros Ht; simpl.
  - by apply Forall_singleton.
  - apply Forall_cons in Ht as [Hs Ht]. destruct (decide (k = k')).
    + by apply Forall_cons.
    + destruct (key_before k k'); repeat apply Forall_cons; auto.
Qed.

Lemma put_enumerable o k v o' :
  put o k v = Ret o' -> all_enumerable o -> all_enumerable o'.
Proof.
  unfold put. destruct (decide _); [by intros [= <-]|].
  destruct o; try done; intros Hp He.
  - destruct k as [i|s|id].
    + by injection Hp as <-.
    + destruct (String.eqb s "length").
      * destruct v as [[]|]; try done. destruct (decide _); [|done].
        by injection Hp as <-.
      * injection Hp as <-. by apply table_put_enumerable.
    + injection Hp as <-. by apply table_put_enumerable.
  - injection Hp as <-. by apply table_put_enumerable.
Qed.

Lemma table_get_elem k s t : table_get k t = Some s -> (k, s) ∈ t.
Proof.
  induction t as [|[k' s'] t IH]; simpl; [done|].
  destruct (decide (k = k')) as [->|]; [intros [= ->]; left|right; auto].
Qed.

Lemma allocated_alloc P n st o m :
  allocated P n st -> P o -> allocated P n (State (heap st ++ [o]) m).
Proof.
  intros [Hn Hall] Ho. split; simpl; [rewrite length_app; lia|].
  intros t o' Ht [?|[_ Hl]]%lookup_app_Some; [by eapply Hall|].
  destruct (t - length (heap st)); simpl in Hl; [congruence|done].
Qed.

Lemma allocated_store P n st a o m :
  allocated P n st -> P o -> allocated P n (State (<[a := o]> (heap st)) m).
Proof.
  intros [Hn Hall] Ho. split; simpl; [by rewrite length_insert|].
  intros t o' Ht [[-> [-> _]]|[_ ?]]%list_lookup_insert_Some; [done|].
  by eapply Hall.
Qed.

Section Allocated.

(** A property of objects that holds of what [deepCopy] allocates and
    that the assignments keep. *)
Variable P : obj -> Prop.

Variable n : nat.

Hypothesis P_date : forall t, P (ODate t).

Hypothesis P_regexp : forall s f l, P (ORegExp s f l).

Hypothesis P_set : forall ms, P (OSet ms).

Hypothesis P_map : forall es, P (OMap es).

Hypothesis P_empty : forall o, P (empty_like o).

Hypothesis P_put : forall o k v o', put o k v = Ret o' -> P o -> P o'.

Lemma deepCopy_allocated fuel : forall v st r st',
  allocated P n st -> deepCopy fuel v st = Ret (r, st') -> allocated P n st'.
Proof.
  induction fuel as [|fuel IH]; intros v st r st' Hst Hrun; [discriminate|].
  simpl in Hrun. unfold deepCopy_body in Hrun.
  destruct v as [p|a].
  { rewrite not_composite_prim in Hrun. by injection Hrun as _ <-. }
  rewrite not_composite_ref in Hrun.
  apply bind_Ret in Hrun as (o & s & [-> Ho]%deref_Ret & Hrun).
  assert (Hloop : forall (A : Type) (xs : list A) (f : A -> M unit) s0 s1,
    (forall x s2 s3, allocated P n s2 -> f x s2 = Ret (tt, s3) ->
                     allocated P n s3) ->
    allocated P n s0 -> forEach xs f s0 = Ret (tt, s1) -> allocated P n s1).
  { intros A xs f s0 s1 Hf H0 Hfe.
    apply (forEach_Ret (fun _ s => allocated P n s) f xs [] s0 s1); [done| |done].
    intros _ x _ s2 s3 _ H2 Hx. by eapply Hf. }
  destruct o.
  - apply bind_Ret in Hrun as (t & s & [= <- <-] & [= _ <-]).
    by apply allocated_alloc.
  - apply bind_Ret in Hrun as (t & s & [= <- <-] & Hrun).
    apply bind_Ret in Hrun as ([] & s & [= <-] & [= _ <-]).
    apply (allocated_store P n (State (heap st ++ [ORegExp source flags 0]) (memo st)));
      [by apply allocated_alloc|done].
  - apply bind_Ret in Hrun as (t & s & [= <- <-] & Hrun).
    apply bind_Ret in Hrun as ([] & s & [= <-] & Hrun).
    apply bind_Ret in Hrun as ([] & s & Hfe & [= _ <-]).
    eapply Hloop; [| |exact Hfe]; [|by apply allocated_alloc].
    intros x s2 s3 H2 (c & s4 & Hc%IH & (ms' & _ & ->)%set_add_Ret)%bind_Ret;
      [|done].
    by apply allocated_store.
  - apply bind_Ret in Hrun as (t & s & [= <- <-] & Hrun).
    apply bind_Ret in Hrun as ([] & s & [= <-] & Hrun).
    apply bind_Ret in Hrun as ([] & s & Hfe & [= _ <-]).
    eapply Hloop; [| |exact Hfe]; [|by apply allocated_alloc].
    intros [k x] s2 s3 H2 (ck & s4 & Hck & (cv & s5 & Hcv & Hp)%bind_Ret)%bind_Ret.
    apply map_put_Ret in Hp as (es & _ & ->).
    apply allocated_store; [|done]. eapply IH; [|exact Hcv]. by eapply IH.
  - apply bind_Ret in Hrun as (hit & s & [= <- <-] & Hrun).
    destruct (bool_decide _).
    { by apply bind_Ret in Hrun as (t & s & [= <- <-] & [= _ <-]). }
    apply bind_Ret in Hrun as (t & s & [= <- <-] & Hrun).
    apply bind_Ret in Hrun as ([] & s & [= <-] & Hrun).
    apply bind_Ret in Hrun as ([] & s & Hfe & [= _ <-]).
    eapply Hloop; [| |exact Hfe]; [|by apply allocated_alloc].
    intros k s2 s3 H2
      (x & s4 & [-> _]%get_prop_Ret & (c & s5 & Hc & Hp)%bind_Ret)%bind_Ret.
    apply put_prop_Ret in Hp as (o1 & o2 & Ho1 & Hput & ->).
    assert (H5 : allocated P n s5) by (by eapply IH).
    apply allocated_store; [done|]. eapply P_put; [exact Hput|].
    eapply (proj2 H5); [|exact Ho1]. apply Hst.
  - apply bind_Ret in Hrun as (hit & s & [= <- <-] & Hrun).
    destruct (bool_decide _).
    { by apply bind_Ret in Hrun as (t & s & [= <- <-] & [= _ <-]). }
    apply bind_Ret in Hrun as (t & s & [= <- <-] & Hrun).
    apply bind_Ret in Hrun as ([] & s & [= <-] & Hrun).
    apply bind_Ret in Hrun as ([] & s & Hfe & [= _ <-]).
    eapply Hloop; [| |exact Hfe]; [|by apply allocated_alloc].
    intros k s2 s3 H2
      (x & s4 & [-> _]%get_prop_Ret & (c & s5 & Hc & Hp)%bind_Ret)%bind_Ret.
    apply put_prop_Ret in Hp as (o1 & o2 & Ho1 & Hput & ->).
    assert (H5 : allocated P n s5) by (by eapply IH).
    apply allocated_store; [done|]. eapply P_put; [exact Hput|].
    eapply (proj2 H5); [|exact Ho1]. apply Hst.
Qed.

End Allocated.

(** X10: every own property of every array and plain object that
    [deepCopy] allocates is enumerable, the [length] of an array apart:
    the properties are created by assignment, so a property that is not
    enumerable in the source is enumerable in its clone. *)
Theorem deepClone_properties_enumerable h fuel v r st' t o' k s :
  deepClone fuel v h = Ret (r, st') ->
  length h <= t -> heap st' !! t = Some o' -> generic o' = true ->
  getOwn o' k = Some s -> ~ is_len o' k ->
  slot_enumerable s = true.
Proof.
  intros Hrun Ht Ho' Hg Hs Hlen.
  assert (Hall : allocated all_enumerable (length h) st').
  { apply (deepCopy_allocated all_enumerable (length h)) with
      (fuel := fuel) (v := v) (st := State h ∅) (r := r).
    - by intros.
    - by intros.
    - by intros.
    - by intros.
    - intros o. unfold empty_like. destruct (isArray o); by apply Forall_nil.
    - apply put_enumerable.
    - split; [done|]. simpl. intros t' o'' Ht' Hl%lookup_lt_Some. lia.
    - exact Hrun. }
  assert (He : all_enumerable o') by (by eapply (proj2 Hall)).
  assert (Htab : forall own,
    Forall (fun p : key * slot => slot_enumerable p.2 = true) own ->
    table_get k own = Some s -> slot_enumerable s = true).
  { intros own Hown Hk%table_get_elem.
    by apply (proj1 (Forall_forall _ _) Hown (k, s)). }
  destruct o'; try done; simpl in *; [|by eapply Htab].
  destruct k as [i|str|id]; [|destruct (String.eqb_spec str "length") as [->|]|].
  - destruct (mjoin (items !! i)); by simplify_eq/=.
  - destruct Hlen. by split.
  - by eapply Htab.
  - by eapply Htab.
Qed.

Lemma deepClone_properties_enumerable_witness :
  exists r st' o' w,
    deepClone 2 (VRef 0) store_hidden_keys = Ret (r, st') /\
    heap st' !! 1 = Some o' /\
    getOwn o' (KStr "hidden") = Some (Slot w true).
Proof.
  eexists _, _, _, _. split; [vm_compute; reflexivity|].
  split; [reflexivity|].
  refine ((fun H => _)
    (deepClone_properties_enumerable store_hidden_keys 2 (VRef 0) _ _ 1 _
       (KStr "hidden") (Slot (num 2) true) _ _ _ _ _ _)).
  - reflexivity.
  - vm_compute. reflexivity.
  - simpl. lia.
  - reflexivity.
  - reflexivity.
  - reflexivity.
  - intros [_ E]. discriminate E.
Defined.

(** X11: in a returning call on an array, the clone is an array of the
    same [length] with elements at the same indices: a hole of the source
    is a hole of the clone, trailing holes included, since [length] is one
    of the own keys that the loop assigns. *)
Theorem deepClone_array_keeps_holes h a items own fuel r st' :
  store_ok h -> h !! a = Some (OArray items own) ->
  deepClone fuel (VRef a) h = Ret (r, st') ->
  exists items' own',
    data r = VRef (length h) /\
    heap st' !! length h = Some (OArray items' own') /\
    length items' = length items /\
    forall i, is_Some (mjoin (items' !! i)) <-> is_Some (mjoin (items !! i)).
Proof.
  intros Hok Ho Hrun.
  destruct (deepClone_root _ _ _ _ _ _ Hok Ho eq_refl Hrun)
    as (srcs & o' & _ & -> & _ & Ho' & Hb).
  destruct Hb as (_ & Harr & Hdone & Hrest & _ & _ & Heq & _).
  destruct o' as [| | | |items' own'|]; try done.
  exists items', own'. split_and!; [done..| |].
  - apply Heq. by apply (ownKeys_length (OArray items own)).
  - intros i.
    rewrite <- (getv_array_idx items' own' i), <- (getv_array_idx items own i).
    assert (Hlen : ~ is_len (OArray items own) (KIdx i)) by (by intros [_ ?]).
    destruct (decide (KIdx i ∈ ownKeys (OArray items own))) as [Hin|Hnin].
    + specialize (Hdone _ Hin Hlen).
      apply (ownKeys_getOwn (OArray items own) (KIdx i) eq_refl) in Hin as [x Hx].
      rewrite Hx in *.
      destruct (getv (OArray items' own') (KIdx i)).
      * split; by eexists.
      * destruct Hdone. by intros [=].
    + rewrite (Hrest _ Hnin Hlen).
      rewrite (ownKeys_getOwn (OArray items own) (KIdx i) eq_refl) in Hnin.
      split; [by intros []|done].
Qed.

Lemma deepClone_array_keeps_holes_witness :
  exists r st',
    deepClone 2 (VRef 0) store_sparse_array = Ret (r, st') /\
    exists items' own',
      data r = VRef (length store_sparse_array) /\
      heap st' !! length store_sparse_array = Some (OArray items' own') /\
      length items' = length [Some (num 1); None] /\
      forall i, is_Some (mjoin (items' !! i))
                <-> is_Some (mjoin ([Some (num 1); None] !! i)).
Proof.
  eexists _, _. split; [vm_compute; reflexivity|].
  apply (deepClone_array_keeps_holes store_sparse_array 0
           [Some (num 1); None] [] 2).
  - apply (bool_decide_unpack _). vm_compute. exact I.
  - reflexivity.
  - vm_compute. reflexivity.
Defined.

(** ** What a returning call of [deepCopy] guarantees *)

(** X20: whenever [deepCopy(source)] returns on a well-formed store in
    which no object has an own ["__proto__"] key and no array an own
    symbol key, its [data] is structurally equal to [source], cycles
    included: a relation [Q] between originals and objects of the
    resulting store relates [source] to [data], and relates only objects
    of the same kind that have the same keys and related contents.  [Q]
    relates an array or a plain object to one object only, so two places
    of the source that hold the same array or plain object correspond to
    places that hold one and the same object; and [Q] relates no object
    to two originals.  [data] is no object of the original store, and
    every object of the original store is as it was. *)
Theorem deepClone_structural_copy h fuel v r st' :
  store_ok h -> Forall no_proto h -> Forall array_no_symbol h ->
  below (length h) v ->
  deepClone fuel v h = Ret (r, st') ->
  (exists Q,
     simulation (heap st') Q /\ relv Q v (data r) /\
     (forall x o t t', h !! x = Some o -> generic o = true ->
                       Q x t -> Q x t' -> t = t') /\
     (forall x x' t, Q x t -> Q x' t -> x = x')) /\
  outside (length h) (data r) /\
  h `prefix_of` heap st'.
Proof.
  intros Hok Hnp _ Hv Hrun.
  destruct (deepClone_inv _ _ _ _ _ Hok Hv Hrun) as (srcs & Hinv & _ & Hrel & _).
  split_and!; [|by eapply relv_outside|apply Hinv].
  exists (clone_of h srcs). split_and!; [by apply inv_simulation|done| |].
  - intros x o t t' Hx Hg Ht Ht'.
    pose proof (inv_generic _ _ _ _ Hinv _ _ _ Ht Hx Hg) as H1.
    pose proof (inv_generic _ _ _ _ Hinv _ _ _ Ht' Hx Hg) as H2. congruence.
  - intros x x' t. apply clone_of_fun.
Qed.

Lemma deepClone_structural_copy_witness :
  exists r st',
    deepClone 3 (VRef 1) store_nested_record = Ret (r, st') /\
    (exists Q,
       simulation (heap st') Q /\ relv Q (VRef 1) (data r) /\
       (forall x o t t', store_nested_record !! x = Some o -> generic o = true ->
                         Q x t -> Q x t' -> t = t') /\
       (forall x x' t, Q x t -> Q x' t -> x = x')) /\
    outside (length store_nested_record) (data r) /\
    store_nested_record `prefix_of` heap st'.
Proof.
  eexists _, _. split; [vm_compute; reflexivity|].
  apply (deepClone_structural_copy store_nested_record 3 (VRef 1)).
  - apply (bool_decide_unpack _). vm_compute. exact I.
  - apply (bool_decide_unpack _). vm_compute. exact I.
  - apply (bool_decide_unpack _). vm_compute. exact I.
  - simpl. lia.
  - vm_compute. reflexivity.
Defined.

Lemma deepCopy_status_witness :
  status (CopyResult true msg_date (VRef 2)) = true.
Proof.
  apply (deepCopy_status 1 (VRef 0) (State store_shared_date ∅)
           (CopyResult true msg_date (VRef 2))
           (State (store_shared_date ++ [ODate 86400000]) ∅)).
  reflexivity.
Defined.

Lemma shallowCopy_status_witness :
  status (CopyResult true msg_shallow_ok (VRef 2)) = false
  <-> not_composite (VRef 0) = true.
Proof.
  apply (shallowCopy_status (VRef 0) (State store_shared_date ∅)
           (CopyResult true msg_shallow_ok (VRef 2))
           (State (store_shared_date ++ [ORecord []]) ∅)).
  reflexivity.
Defined.

Lemma deepClone_independent_witness :
  exists r st',
    deepClone 3 (VRef 1) store_nested_record = Ret (r, st') /\
    length store_nested_record <= 3 /\
    store_nested_record `prefix_of` <[3 := ORecord []]> (heap st').
Proof.
  eexists _, _. split; [vm_compute; reflexivity|].
  eapply (deepClone_independent store_nested_record 3 (VRef 1)).
  - apply (bool_decide_unpack _). vm_compute. exact I.
  - simpl. lia.
  - vm_compute. reflexivity.
  - by exists 1.
  - eapply (reach_step _ 2); [reflexivity| |apply reach_here].
    apply (bool_decide_unpack _). vm_compute. exact I.
Defined.

Lemma set_cloned_in_order_witness :
  exists r st',
    deepClone 2 (VRef 0) store_set_312 = Ret (r, st') /\
    exists srcs res,
      data r = VRef (length store_set_312) /\ length store_set_312 <> 0 /\
      heap st' !! length store_set_312 = Some (OSet res) /\
      heap st' !! 0 = Some (OSet [num 3; num 1; num 2]) /\
      Forall2 (relv (clone_of store_set_312 srcs)) [num 3; num 1; num 2] res /\
      Forall (outside (length store_set_312)) res /\
      (Forall no_proto store_set_312 -> Forall array_no_symbol store_set_312 ->
       Forall2 (struct_eq (heap st')) [num 3; num 1; num 2] res).
Proof.
  eexists _, _. split; [vm_compute; reflexivity|].
  apply (set_cloned_in_order store_set_312 0 [num 3; num 1; num 2] 2).
  - apply (bool_decide_unpack _). vm_compute. exact I.
  - reflexivity.
  - vm_compute. reflexivity.
Defined.

Lemma deepClone_twice_witness :
  exists r1 st1 r2 st2,
    deepClone 3 (VRef 1) store_nested_record = Ret (r1, st1) /\
    deepClone 3 (VRef 1) (heap st1) = Ret (r2, st2) /\
    store_nested_record `prefix_of` heap st2 /\
    struct_eq (heap st2) (data r1) (data r2).
Proof.
  eexists _, _, _, _. split; [vm_compute; reflexivity|].
  split; [vm_compute; reflexivity|].
  eapply (deepClone_twice store_nested_record (VRef 1) 3 _ _ 3).
  - apply (bool_decide_unpack _). vm_compute. exact I.
  - apply (bool_decide_unpack _). vm_compute. exact I.
  - simpl. lia.
  - vm_compute. reflexivity.
  - vm_compute. reflexivity.
Defined.

Lemma deepClone_of_clone_witness :
  exists r1 st1 r2 st2,
    deepClone 3 (VRef 1) store_nested_record = Ret (r1, st1) /\
    deepClone 3 (data r1) (heap st1) = Ret (r2, st2) /\
    struct_eq (heap st2) (data r1) (data r2) /\
    struct_eq (heap st2) (VRef 1) (data r2).
Proof.
  eexists _, _, _, _. split; [vm_compute; reflexivity|].
  split; [vm_compute; reflexivity|].
  eapply (deepClone_of_clone store_nested_record (VRef 1) 3 _ _ 3).
  - apply (bool_decide_unpack _). vm_compute. exact I.
  - apply (bool_decide_unpack _). vm_compute. exact I.
  - apply (bool_decide_unpack _). vm_compute. exact I.
  - simpl. lia.
  - vm_compute. reflexivity.
  - vm_compute. reflexivity.
Defined.


Lemma proto_key_not_copied_witness :
  exists r st',
    deepClone 2 (VRef 0) store_proto_key = Ret (r, st') /\
    exists o', data r = VRef (length store_proto_key) /\
               heap st' !! length store_proto_key = Some o' /\
               getv o' (KStr "__proto__") = None.
Proof.
  eexists _, _. split; [vm_compute; reflexivity|].
  apply (proto_key_not_copied store_proto_key 0
           (ORecord [(KStr "__proto__", Slot (VPrim (PNumber 1)) true);
                     (KStr "a", Slot (VPrim (PNumber 2)) true)]) 2).
  - apply (bool_decide_unpack _). vm_compute. exact I.
  - reflexivity.
  - reflexivity.
  - vm_compute. reflexivity.
Defined.

(** ** The only failure is the exhaustion of the call depth *)

Lemma forEach_safe {A} (I : list A -> state -> Prop) (f : A -> M unit) xs :
  forall pre st,
    I pre st ->
    (forall done x rest s,
        pre ++ xs = done ++ x :: rest -> I done s ->
        (exists s', f x s = Ret (tt, s') /\ I (done ++ [x]) s') \/
        f x s = OutOfFuel) ->
    (exists st', forEach xs f st = Ret (tt, st') /\ I (pre ++ xs) st') \/
    forEach xs f st = OutOfFuel.
Proof.
  induction xs as [|x xs IH]; intros pre st HI Hstep; simpl.
  - left. exists st. by rewrite app_nil_r.
  - destruct (Hstep pre x xs st eq_refl HI) as [(s1 & Hx & HI1)|Hx];
      [|right; by apply bind_OutOfFuel].
    rewrite (bind_step _ _ _ _ _ Hx).
    replace (pre ++ x :: xs) with ((pre ++ [x]) ++ xs) by by rewrite <- app_assoc.
    apply IH; [done|]. intros done y rest s Heq. apply (Hstep _ _ rest).
    by rewrite <- Heq, <- app_assoc.
Qed.

Section Safety.

Variable h0 : list obj.

Hypothesis Hok : store_ok h0.

Lemma deepCopy_safe fuel : forall v st srcs pend,
  inv h0 srcs pend st -> below (length h0) v ->
  (exists r st', deepCopy fuel v st = Ret (r, st')) \/
  deepCopy fuel v st = OutOfFuel.
Proof.
  induction fuel as [|fuel IH]; intros v st srcs pend Hinv Hb; [by right|].
  destruct v as [p|a]; [left; rewrite deepCopy_prim; by eauto|].
  simpl in Hb. destruct (h0_lookup _ _ _ _ _ Hinv Hb) as (o & Ho & Ho').
  rewrite (deepCopy_ref _ _ _ _ Ho').
  destruct (store_ok_lookup _ _ _ Hok Ho) as (_ & Hbelow).
  set (t := length (heap st)).
  set (pend1 := fun t' => pend t' \/ t' = t).
  assert (Hcall : forall x s srcs1,
    inv h0 srcs1 pend1 s -> below (length h0) x ->
    (exists r s' srcs', deepCopy fuel x s = Ret (r, s') /\
       extends s s' /\ inv h0 (srcs1 ++ srcs') pend1 s' /\
       relv (clone_of h0 (srcs1 ++ srcs')) x (data r)) \/
    deepCopy fuel x s = OutOfFuel).
  { intros x s srcs1 Hi Hx.
    destruct (IH x s srcs1 pend1 Hi Hx) as [(r & s' & Hr)|Hr]; [left|by right].
    destruct (deepCopy_spec h0 Hok fuel _ _ _ _ _ _ Hi Hx Hr)
      as (_ & srcs' & Hi' & _ & Hrel & _).
    exists r, s', srcs'. split_and!; try done. by eapply deepCopy_extends. }
  assert (Hgeneric : generic o = true -> memo st !! a = None ->
    (exists st', forEach (ownKeys o) (fun key =>
        let* v := get_prop a key in
        let* copyResult := deepCopy fuel v in
        put_prop t key (data copyResult))
      (State (heap st ++ [empty_like o]) (<[a := VRef t]> (memo st)))
      = Ret (tt, st')) \/
    forEach (ownKeys o) (fun key =>
        let* v := get_prop a key in
        let* copyResult := deepCopy fuel v in
        put_prop t key (data copyResult))
      (State (heap st ++ [empty_like o]) (<[a := VRef t]> (memo st)))
      = OutOfFuel).
  { intros Hg Hm.
    destruct (forEach_safe (fun _ s => exists srcs_s o',
        inv h0 ((srcs ++ [a]) ++ srcs_s) pend1 s /\
        heap s !! t = Some o' /\ generic o' = true /\ isArray o' = isArray o)
      (fun key => let* v := get_prop a key in
                  let* copyResult := deepCopy fuel v in
                  put_prop t key (data copyResult)) (ownKeys o) []
      (State (heap st ++ [empty_like o]) (<[a := VRef t]> (memo st))))
      as [(st' & Hfe & _)|Hfe]; [| |by eauto|by right].
    + exists [], (empty_like o). rewrite app_nil_r. split_and!.
      * by eapply inv_open; [done|exact Ho|].
      * simpl. unfold t. by rewrite lookup_app_r, Nat.sub_diag.
      * by destruct o.
      * by destruct o.
    + intros done k rest s Hmem (srcs_s & o' & Hi & Ht & Hg' & Harr).
      assert (Hk : k ∈ ownKeys o) by (simpl in Hmem; rewrite Hmem; set_solver).
      destruct (h0_lookup _ _ _ _ _ Hi Hb) as (o2 & Ho2 & Ho2').
      assert (o2 = o) as -> by congruence.
      rewrite (get_prop_step _ _ _ _ _ Ho2').
      assert (Hv : below (length h0) (get o k)).
      { apply (proj1 (Forall_forall _ _) Hbelow).
        destruct o; try done; by apply list_elem_of_fmap_2. }
      destruct (Hcall (get o k) s _ Hi Hv)
        as [(r & s' & srcs' & Hr & Hext & Hi' & Hrel)|Hr];
        [|right; by apply bind_OutOfFuel].
      left. rewrite (bind_step _ _ _ _ _ Hr).
      assert (Ht' : heap s' !! t = Some o').
      { eapply prefix_lookup_Some; [done|apply Hext]. }
      destruct (put_total o' k (data r) Hg') as (o'' & Hput).
      { intros [Ha ->]. rewrite Harr in Ha. rewrite get_length in Hrel by done.
        destruct (data r) as [q|]; [|done]. simpl in Hrel. subst q. eauto. }
      eexists. split; [by eapply put_prop_run|].
      destruct (put_generic _ _ _ _ Hput Hg') as [Hg'' Harr''].
      exists (srcs_s ++ srcs'), o''. rewrite (assoc_L (++)). split_and!.
      * apply inv_store; [done|by right].
      * simpl. apply list_lookup_insert_eq. by eapply lookup_lt_Some.
      * done.
      * congruence. }
  destruct o eqn:Eo.
  - left. by eauto.
  - left. by eauto.
  - (* Set *)
    cbv zeta. fold t.
    destruct (forEach_safe (fun _ s => exists srcs_s res,
        inv h0 ((srcs ++ [a]) ++ srcs_s) pend1 s /\
        heap s !! t = Some (OSet res))
      (fun value => let* copyResult := deepCopy fuel value in
                    set_add t (data copyResult)) members []
      (State (heap st ++ [OSet []]) (<[a := VRef t]> (memo st))))
      as [(st' & Hfe & _)|Hfe].
    + exists [], []. rewrite app_nil_r. split.
      * by eapply inv_open; [done|exact Ho|].
      * simpl. unfold t. by rewrite lookup_app_r, Nat.sub_diag.
    + intros done x rest s Hmem (srcs_s & res & Hi & Ht).
      assert (Hx : x ∈ members) by (simpl in Hmem; rewrite Hmem; set_solver).
      destruct (Hcall x s _ Hi)
        as [(r & s' & srcs' & Hr & Hext & Hi' & _)|Hr];
        [by apply (proj1 (Forall_forall _ _) Hbelow)|
        |right; by apply bind_OutOfFuel].
      left. rewrite (bind_step _ _ _ _ _ Hr).
      assert (Ht' : heap s' !! t = Some (OSet res)).
      { eapply prefix_lookup_Some; [done|apply Hext]. }
      eexists. split; [by apply set_add_run|].
      exists (srcs_s ++ srcs'). eexists. rewrite (assoc_L (++)). split.
      * apply inv_store; [done|by right].
      * simpl. apply list_lookup_insert_eq. by eapply lookup_lt_Some.
    + left. rewrite (bind_step _ _ _ _ _ Hfe). by eauto.
    + right. by apply bind_OutOfFuel.
  - (* Map *)
    cbv zeta. fold t.
    destruct (forEach_safe (fun _ s => exists srcs_s es,
        inv h0 ((srcs ++ [a]) ++ srcs_s) pend1 s /\
        heap s !! t = Some (OMap es))
      (fun '(key, value) =>
         let* keyResult := deepCopy fuel key in
         let* valueResult := deepCopy fuel value in
         map_put t (data keyResult) (data valueResult)) entries []
      (State (heap st ++ [OMap []]) (<[a := VRef t]> (memo st))))
      as [(st' & Hfe & _)|Hfe].
    + exists [], []. rewrite app_nil_r. split.
      * by eapply inv_open; [done|exact Ho|].
      * simpl. unfold t. by rewrite lookup_app_r, Nat.sub_diag.
    + intros done [k v] rest s Hmem (srcs_s & es & Hi & Ht).
      assert (Hin : (k, v) ∈ entries) by (simpl in Hmem; rewrite Hmem; set_solver).
      simpl in Hbelow. apply Forall_app in Hbelow as [Hbk Hbv].
      assert (Hk : k ∈ entries.*1) by by apply (list_elem_of_fmap_2 fst) in Hin.
      assert (Hv : v ∈ entries.*2) by by apply (list_elem_of_fmap_2 snd) in Hin.
      destruct (Hcall k s _ Hi)
        as [(rk & s1 & srcs1 & Hrk & Hext1 & Hi1 & _)|Hrk];
        [by apply (proj1 (Forall_forall _ _) Hbk)|
        |right; by apply bind_OutOfFuel].
      rewrite (bind_step _ _ _ _ _ Hrk).
      destruct (Hcall v s1 _ Hi1)
        as [(rv & s2 & srcs2 & Hrv & Hext2 & Hi2 & _)|Hrv];
        [by apply (proj1 (Forall_forall _ _) Hbv)|
        |right; by apply bind_OutOfFuel].
      left. rewrite (bind_step _ _ _ _ _ Hrv).
      assert (Hext : extends s s2) by by eapply extends_trans.
      assert (Ht' : heap s2 !! t = Some (OMap es)).
      { eapply prefix_lookup_Some; [done|apply Hext]. }
      eexists. split; [by apply map_put_run|].
      exists ((srcs_s ++ srcs1) ++ srcs2). eexists. rewrite !(assoc_L (++)).
      split.
      * apply inv_store; [done|by right].
      * simpl. apply list_lookup_insert_eq. by eapply lookup_lt_Some.
    + left. rewrite (bind_step _ _ _ _ _ Hfe). by eauto.
    + right. by apply bind_OutOfFuel.
  - destruct (memo st !! a) eqn:Hm; [left; by eauto|].
    destruct (Hgeneric eq_refl eq_refl) as [(st' & Hfe)|Hfe]; cbv zeta.
    + left. rewrite (bind_step _ _ _ _ _ Hfe). by eauto.
    + right. by apply bind_OutOfFuel.
  - destruct (memo st !! a) eqn:Hm; [left; by eauto|].
    destruct (Hgeneric eq_refl eq_refl) as [(st' & Hfe)|Hfe]; cbv zeta.
    + left. rewrite (bind_step _ _ _ _ _ Hfe). by eauto.
    + right. by apply bind_OutOfFuel.
Qed.

End Safety.

(** X22: on a well-formed store in which no object has an own
    ["__proto__"] key, [deepCopy(source)] raises no exception of its own
    and never leaves the modelled fragment: at every call depth it either
    returns or has exhausted the call depth.  In particular the
    assignment of [length] to the clone of an array never raises a
    [RangeError]. *)
Theorem deepClone_never_throws h fuel v :
  store_ok h -> Forall no_proto h -> below (length h) v ->
  (exists r st', deepClone fuel v h = Ret (r, st')) \/
  deepClone fuel v h = OutOfFuel.
Proof.
  intros Hok _ Hv.
  apply (deepCopy_safe h Hok fuel v (State h ∅) [] (fun _ => False));
    [apply inv_start|done].
Qed.

Lemma deepClone_never_throws_witness :
  (exists r st', deepClone 2 (VRef 0) store_sparse_array = Ret (r, st')) \/
  deepClone 2 (VRef 0) store_sparse_array = OutOfFuel.
Proof.
  apply (deepClone_never_throws store_sparse_array 2 (VRef 0)).
  - apply (bool_decide_unpack _). vm_compute. exact I.
  - apply (bool_decide_unpack _). vm_compute. exact I.
  - simpl. lia.
Defined.

(** X21: in a returning call on a plain object, or on an array without
    own symbol key, that has no own ["__proto__"] key, the clone is a
    fresh container of the same shape that has, key by key, what the
    source has, symbol keys of a plain object and keys that are not
    enumerable included: the same primitive, a freshly allocated object
    where the source holds an object, and nothing where the source has no
    such key. *)
Theorem deepClone_copies_every_own_key h a o fuel r st' :
  store_ok h -> h !! a = Some o -> generic o = true ->
  no_proto o -> array_no_symbol o ->
  deepClone fuel (VRef a) h = Ret (r, st') ->
  exists o',
    data r = VRef (length h) /\ heap st' !! length h = Some o' /\
    isArray o' = isArray o /\
    forall k,
      match getv o k with
      | Some (VPrim p) => getv o' k = Some (VPrim p)
      | Some (VRef x) => exists c, getv o' k = Some (VRef c) /\ length h <= c
      | None => getv o' k = None
      end.
Proof.
  intros Hok Ho Hg Hnp _ Hrun.
  destruct (deepClone_root _ _ _ _ _ _ Hok Ho Hg Hrun)
    as (srcs & o' & _ & -> & _ & Ho' & Hb).
  exists o'. split_and!; [done|done|apply Hb|].
  pose proof (built_final _ _ _ _ Hb Hg) as Hm.
  assert (Hg' : generic o' = true) by apply Hb.
  intros k.
  assert (Hrel : optrel (relv (clone_of h srcs)) (getv o k) (getv o' k)).
  { destruct (decide (assignable k)) as [Hk|Hk].
    - destruct o, o'; try done; by apply Hm.
    - assert (k = KStr "__proto__") as ->.
      { unfold assignable in Hk. by destruct (decide (k = KStr "__proto__")). }
      rewrite (getv_no_proto o) by done.
      assert (getv o' (KStr "__proto__") = None) as ->; [|done].
      destruct o, o'; try done; by apply Hm. }
  destruct (getv o k) as [[p|x]|], (getv o' k) as [[q|c]|]; simpl in Hrel;
    try done.
  - by subst q.
  - exists c. split; [done|]. apply Hrel.
Qed.

Lemma deepClone_copies_every_own_key_witness :
  exists r st' o',
    deepClone 2 (VRef 0) store_hidden_keys = Ret (r, st') /\
    heap st' !! length store_hidden_keys = Some o' /\
    getv o' (KStr "hidden") = Some (num 2) /\
    getv o' (KSym 0) = Some (num 3).
Proof.
  eexists _, _.
  destruct (deepClone_copies_every_own_key store_hidden_keys 0
              (ORecord [field "visible" (num 1);
                        (KStr "hidden", Slot (num 2) false);
                        (KSym 0, Slot (num 3) true)]) 2
              (CopyResult true msg_generic (VRef 1))
              (State [ORecord [field "visible" (num 1);
                               (KStr "hidden", Slot (num 2) false);
                               (KSym 0, Slot (num 3) true)];
                      ORecord [field "visible" (num 1);
                               (KStr "hidden", Slot (num 2) true);
                               (KSym 0, Slot (num 3) true)]]
                     (<[0 := VRef 1]> ∅)))
    as (o' & _ & Ho' & _ & Hk).
  - apply (bool_decide_unpack _). vm_compute. exact I.
  - reflexivity.
  - reflexivity.
  - apply (bool_decide_unpack _). vm_compute. exact I.
  - apply (bool_decide_unpack _). vm_compute. exact I.
  - vm_compute. reflexivity.
  - exists o'. split; [vm_compute; reflexivity|]. split; [exact Ho'|]. split.
    + apply (Hk (KStr "hidden")).
    + apply (Hk (KSym 0)).
Defined.

(** ** Neither function writes to its argument *)





